(** * The reasoning-step tree and its viewer

    A shallow embedding of [o1_replication_journey/conversation.py],
    [o1_replication_journey/step.py] and the pure part of
    [visualize_tree.py].

    - Python [str] values are sequences of Unicode code points ([list N]).
    - Python [float] values are IEEE 754 binary64 numbers ([spec_float] with
      precision 53 and maximal exponent 1024).
    - Python [int] values are [Z].
    - The object graph of steps lives in a store indexed by object
      identities; loops and recursion over the graph take a fuel argument.
    - What the CPython runtime and pydantic decide by tables that are not
      part of this repository (parsing of a float literal, upper-casing of
      non-ASCII characters, lax coercion of a string to an integer) is a
      method of the class [PyRuntime]. *)

From Stdlib Require Import ZArith NArith List Bool Lia String Ascii Permutation.
From Stdlib Require Import Floats.SpecFloat.
From stdpp Require Import base option list gmap strings.

(** ** Python strings *)

Module PyStr.

Abbreviation str := (list N).

(** A literal of the source, as code points. *)
Definition lit (s : string) : str := map N_of_ascii (list_ascii_of_string s).

(** [s.startswith(p)] *)
Fixpoint startswith (p s : str) : bool :=
  match p, s with
  | [], _ => true
  | _ :: _, [] => false
  | a :: p', b :: s' => (a =? b)%N && startswith p' s'
  end.

(** [sub in s] *)
Fixpoint contains (sub s : str) : bool :=
  startswith sub s ||
  match s with
  | [] => false
  | _ :: s' => contains sub s'
  end.

(** [s.find(sub)], with [None] for Python's -1. *)
Fixpoint find (sub s : str) : option nat :=
  if startswith sub s then Some 0
  else match s with
       | [] => None
       | _ :: s' => S <$> find sub s'
       end.

(** [s.split(sep)] for a non-empty separator: cut at the leftmost
    occurrence, continue behind it. Every cut removes at least one
    character, so [length s] rounds are enough. *)
Fixpoint split_from (fuel : nat) (sep s : str) : list str :=
  match fuel with
  | 0 => [s]
  | S fuel' =>
      match find sep s with
      | None => [s]
      | Some i => take i s :: split_from fuel' sep (drop (i + length sep) s)
      end
  end.

Definition split (sep s : str) : list str := split_from (length s) sep s.

(** [sep.join(parts)] *)
Fixpoint join (sep : str) (parts : list str) : str :=
  match parts with
  | [] => []
  | [p] => p
  | p :: ps => p ++ sep ++ join sep ps
  end.

(** [c.isspace()]: the code points CPython's [str.strip()] removes. *)
Definition isspace (c : N) : bool :=
  ((9 <=? c) && (c <=? 13) || (28 <=? c) && (c <=? 32) ||
   (c =? 133) || (c =? 160) || (c =? 5760) ||
   (8192 <=? c) && (c <=? 8202) || (c =? 8232) || (c =? 8233) ||
   (c =? 8239) || (c =? 8287) || (c =? 12288))%N.

Fixpoint lstrip (s : str) : str :=
  match s with
  | [] => []
  | c :: s' => if isspace c then lstrip s' else s
  end.

Definition rstrip (s : str) : str := rev (lstrip (rev s)).

(** [s.strip()] *)
Definition strip (s : str) : str := rstrip (lstrip s).

(** Upper-casing of an ASCII code point. *)
Definition ascii_upper (c : N) : N :=
  if ((97 <=? c) && (c <=? 122))%N then (c - 32)%N else c.

(** [s.title()] on ASCII text: a letter that follows a letter is
    lower-cased, every other letter is upper-cased. *)
Definition ascii_letter (c : N) : bool :=
  ((65 <=? c) && (c <=? 90) || (97 <=? c) && (c <=? 122))%N.

Fixpoint title_from (after_letter : bool) (s : str) : str :=
  match s with
  | [] => []
  | c :: s' =>
      (if after_letter
       then (if ((65 <=? c) && (c <=? 90))%N then (c + 32)%N else c)
       else ascii_upper c) :: title_from (ascii_letter c) s'
  end.

Definition ascii_title (s : str) : str := title_from false s.

End PyStr.
Import PyStr.

(** ** Python floats *)

Module PyFloat.

Abbreviation float := spec_float.

Definition prec : Z := 53.
Definition emax : Z := 1024.

(** The float nearest to an integer, as [float(z)] gives it. *)
Definition of_Z (z : Z) : float := binary_normalize prec emax z 0 false.

Definition add : float -> float -> float := SFadd prec emax.
Definition sub : float -> float -> float := SFsub prec emax.
Definition mul : float -> float -> float := SFmul prec emax.
Definition div : float -> float -> float := SFdiv prec emax.

(** [x < y], [x > y] and [x == y]: false as soon as one side is NaN. *)
Definition ltb (x y : float) : bool := SFltb x y.
Definition gtb (x y : float) : bool := SFltb y x.
Definition eqb (x y : float) : bool := SFeqb x y.

Definition zero : float := S754_zero false.
Definition minus_one : float := of_Z (-1).
Definition half : float := div (of_Z 1) (of_Z 2).
Definition inf : float := S754_infinity false.

(** The builtin [min(a, b)] keeps [a] unless [b < a]; [max(a, b)] keeps
    [a] unless [b > a]. *)
Definition min2 (a b : float) : float := if ltb b a then b else a.
Definition max2 (a b : float) : float := if gtb b a then b else a.

End PyFloat.
Abbreviation float := PyFloat.float.

(** ** Outcomes of running Python code *)

Inductive exn :=
  | ValueError | IndexError | AttributeError | OverflowError | ValidationError.

(** [Diverge]: the fuel ran out. [Dangling]: an identity that the store
    does not hold, which no Python reference can be. *)
Inductive outcome (A : Type) :=
  | Return (a : A)
  | Raise (e : exn)
  | Diverge
  | Dangling.
Arguments Return {A} a.
Arguments Raise {A} e.
Arguments Diverge {A}.
Arguments Dangling {A}.

#[global] Instance outcome_ret : MRet outcome := fun _ a => Return a.
#[global] Instance outcome_bind : MBind outcome := fun _ _ f m =>
  match m with
  | Return a => f a
  | Raise e => Raise e
  | Diverge => Diverge
  | Dangling => Dangling
  end.

(** ** The runtime *)

Class PyRuntime := {
  (** [float(s)] for a string; [None] is its [ValueError]. *)
  py_float : str -> option float;
  (** [c.upper()] for a code point from 128 on. *)
  unicode_upper : N -> str;
  (** pydantic's lax coercion of a string to an [int] field. *)
  lax_int_of_str : str -> option Z;
}.

Section Upper.
Context `{!PyRuntime}.

Definition upper_char (c : N) : str :=
  if (c <? 128)%N then [ascii_upper c] else unicode_upper c.

(** [s.upper()]: character by character. *)
Definition upper (s : str) : str := c ← s; upper_char c.

End Upper.

Definition newline : str := lit (String (ascii_of_nat 10) EmptyString).

(** ** conversation.py: messages *)

Inductive Role := User | System | Assistant.

(** The strings of [typing.Literal["user", "system", "assistant"]]. *)
Definition role_str (r : Role) : str :=
  match r with
  | User => lit "user"
  | System => lit "system"
  | Assistant => lit "assistant"
  end.

(** The class of a message object: [Message] or one of its subclasses. *)
Inductive MessageClass := MessageC | ScoreMessageC | TerminalCheckMessageC.

Record Message := mkMessage {
  type_of : MessageClass;
  role : Role;
  content : str;
  name : option str;
  weight : Z;
}.

(** The subclasses add no field. *)
Abbreviation ScoreMessage := Message (only parsing).
Abbreviation TerminalCheckMessage := Message (only parsing).

#[global] Instance Role_eq_dec : EqDecision Role.
Proof. solve_decision. Defined.
#[global] Instance MessageClass_eq_dec : EqDecision MessageClass.
Proof. solve_decision. Defined.
#[global] Instance Message_eq_dec : EqDecision Message.
Proof. solve_decision. Defined.

Module MessageM.

Definition system (content : str) : Message := mkMessage MessageC System content None 1.
Definition user (content : str) : Message := mkMessage MessageC User content None 1.
Definition assistant (content : str) : Message := mkMessage MessageC Assistant content None 1.

End MessageM.

(** Values of a message dictionary: [None], an [int] or a [str]. *)
Inductive pyval := PNone | PInt (z : Z) | PStr (s : str).

#[global] Instance pyval_eq_dec : EqDecision pyval.
Proof. solve_decision. Defined.

Abbreviation dict := (gmap string pyval).

(** [Message.model_fields] *)
Definition model_fields : list string := ["role"; "content"; "name"; "weight"]%string.

(** [self.model_dump(exclude_defaults=True)]: [role] and [content] have no
    default and are always there; [name] is left out when it is [None],
    [weight] when it is 1. *)
Definition model_dump_exclude_defaults (m : Message) : dict :=
  let d := <["role" := PStr (role_str (role m))]> (∅ : dict) in
  let d := <["content" := PStr (content m)]> d in
  let d := match name m with
           | None => d
           | Some n => <["name" := PStr n]> d
           end in
  if (weight m =? 1)%Z then d else <["weight" := PInt (weight m)]> d.

Definition to_dict (m : Message) : dict := model_dump_exclude_defaults m.

(** [self.model_dump()]: the four fields, defaults included. *)
Definition model_dump (m : Message) : dict :=
  <["role" := PStr (role_str (role m))]>
    (<["content" := PStr (content m)]>
       (<["name" := match name m with None => PNone | Some n => PStr n end]>
          (<["weight" := PInt (weight m)]> (∅ : dict)))).

Section Validation.
Context `{!PyRuntime}.

Definition role_of_str (s : str) : option Role :=
  if decide (s = lit "user") then Some User
  else if decide (s = lit "system") then Some System
  else if decide (s = lit "assistant") then Some Assistant
  else None.

(** Validation of the keyword arguments of [Message(...)] by pydantic:
    [role] and [content] are required, [name] defaults to [None] and
    [weight] to 1, other keys are ignored. *)
Definition validate_message (d : dict) : outcome Message :=
  match d !! "role"%string, d !! "content"%string with
  | Some (PStr r), Some (PStr c) =>
      match role_of_str r with
      | None => Raise ValidationError
      | Some r' =>
          let n := match d !! "name"%string with
                   | None | Some PNone => Some None
                   | Some (PStr n) => Some (Some n)
                   | Some (PInt _) => None
                   end in
          let w := match d !! "weight"%string with
                   | None => Some 1%Z
                   | Some (PInt z) => Some z
                   | Some (PStr s) => lax_int_of_str s
                   | Some PNone => None
                   end in
          match n, w with
          | Some n', Some w' => Return (mkMessage MessageC r' c n' w')
          | _, _ => Raise ValidationError
          end
      end
  | _, _ => Raise ValidationError
  end.

(** The call of a message class [cls] with the entries of [d] as keyword
    arguments: the subclasses declare no field and no validator of their
    own. *)
Definition construct (cls : MessageClass) (d : dict) : outcome Message :=
  m ← validate_message d;
  Return (mkMessage cls (role m) (content m) (name m) (weight m)).

End Validation.

(** ** conversation.py: conversations *)

Record Conversation := mkConversation { messages : list Message }.

#[global] Instance Conversation_eq_dec : EqDecision Conversation.
Proof. solve_decision. Defined.

(** The right operand of [Conversation.__add__]. *)
Inductive addend := AMessage (m : Message) | AConversation (c : Conversation).

Definition to_conversation (m : Message) : Conversation := mkConversation [m].

Module ConversationM.
Section WithRuntime.
Context `{!PyRuntime}.

(** [mapM] over the outcome monad, left to right. *)
Fixpoint for_each {A B} (f : A -> outcome B) (l : list A) : outcome (list B) :=
  match l with
  | [] => Return []
  | a :: l' => b ← f a; bs ← for_each f l'; Return (b :: bs)
  end.

Definition from_mmd (message_dicts : list dict) : outcome Conversation :=
  ms ← for_each validate_message message_dicts; Return (mkConversation ms).

Definition to_mmd (self : Conversation) : outcome (list dict) :=
  for_each
    (fun message =>
       match type_of message with
       | MessageC => Return (to_dict message)
       | _ =>
           m ← validate_message
                 (filter (fun kv => kv.1 ∈ model_fields)
                         (model_dump_exclude_defaults message));
           Return (to_dict m)
       end)
    (messages self).

End WithRuntime.

(** The roles are ASCII words, so [message.role.title()] is
    [ascii_title]. *)
Definition to_markdown (self : Conversation) : str :=
  join (newline ++ newline)
    (map (fun message =>
            lit "**" ++ ascii_title (role_str (role message)) ++ lit ":**" ++
            newline ++ content message)
         (messages self)).

Definition __add__ (self : Conversation) (other : addend) : Conversation :=
  match other with
  | AMessage m => mkConversation (messages self ++ [m])
  | AConversation c => mkConversation (messages self ++ messages c)
  end.

Definition __radd__ (self : Conversation) (other : Message) : Conversation :=
  mkConversation ([other] ++ messages self).

End ConversationM.

(** ** conversation.py: score and terminal check *)

(** A line written by [typer.echo(..., err=True)]: the exception caught and
    the content the message was printed with. *)
Inductive diagnostic :=
  | ErrorParsingScore (e : exn) (content : str)
  | ErrorParsingTerminalCheck (e : exn) (content : str).

Definition SCORE_MARKER : str := lit "Total Score:".

Module ScoreMessageM.

Section WithRuntime.
Context `{!PyRuntime}.

(** A [ScoreMessage] built from the dumped fields of [message]. *)
Definition from_message (message : Message) : outcome ScoreMessage :=
  construct ScoreMessageC (model_dump message).

(** The body of the [try] block of [ScoreMessage.score]. *)
Definition score_try (content : str) : outcome float :=
  let lines := List.filter (contains SCORE_MARKER) (split newline content) in
  match last lines with
  | None => Raise IndexError
  | Some line =>
      match split SCORE_MARKER line !! 1 with
      | None => Raise IndexError
      | Some text =>
          match py_float (strip text) with
          | None => Raise ValueError
          | Some x => Return x
          end
      end
  end.

(** [ScoreMessage.score] with what it writes to the error channel. Only
    [ValueError] and [IndexError] are caught. *)
Definition score_echo (self : ScoreMessage) : outcome float * list diagnostic :=
  match score_try (content self) with
  | Raise ValueError =>
      (Return PyFloat.minus_one, [ErrorParsingScore ValueError (content self)])
  | Raise IndexError =>
      (Return PyFloat.minus_one, [ErrorParsingScore IndexError (content self)])
  | r => (r, [])
  end.

Definition score (self : ScoreMessage) : outcome float := (score_echo self).1.

Definition __lt__ (self other : ScoreMessage) : outcome bool :=
  a ← score self; b ← score other; Return (PyFloat.gtb a b).

End WithRuntime.
End ScoreMessageM.

Module TerminalCheckMessageM.

Section WithRuntime.
Context `{!PyRuntime}.

Definition from_message (message : Message) : outcome TerminalCheckMessage :=
  construct TerminalCheckMessageC (model_dump message).

(** The body of the [try] block of [is_final]; falling off its end
    returns [None]. *)
Definition is_final_try (content : str) : outcome (option bool) :=
  if contains (lit "TERMINAL: YES") (upper content) then Return (Some true)
  else if contains (lit "TERMINAL: NO") (upper content) then Return (Some false)
  else Return None.

(** [TerminalCheckMessage.is_final]: every exception is caught. *)
Definition is_final_echo (self : TerminalCheckMessage)
  : outcome (option bool) * list diagnostic :=
  match is_final_try (content self) with
  | Raise e => (Return (Some false), [ErrorParsingTerminalCheck e (content self)])
  | r => (r, [])
  end.

Definition is_final (self : TerminalCheckMessage) : outcome (option bool) :=
  (is_final_echo self).1.

End WithRuntime.
End TerminalCheckMessageM.

(** ** step.py *)

Definition TERMINATION_MARKER : str := lit "Done.".
Definition STEPPER_MESSAGE : Message := MessageM.user (lit "next").

Record StepTrajectory := mkStepTrajectory {
  trajectory_base_conversation : Conversation;
  step_messages : list Message;
}.

(** Object identities. *)
Abbreviation loc := nat (only parsing).

Record RootObj := mkRoot {
  root_child_steps : list loc;
  base_conversation : Conversation;
}.

Record ReasoningStepObj := mkReasoningStep {
  step_child_steps : list loc;
  parent_step : loc;
  step_message : Message;
  score_message : ScoreMessage;
  verification_message : Message;
  terminal_message_check : option TerminalCheckMessage;
  improved_step : option loc;
  aborted : bool;
}.

(** The concrete steps. The base class [Step] itself only raises
    [NotImplementedError] and is not instantiated. *)
Inductive Step :=
  | Root (r : RootObj)
  | ReasoningStep (s : ReasoningStepObj).

Definition child_steps (s : Step) : list loc :=
  match s with
  | Root r => root_child_steps r
  | ReasoningStep s => step_child_steps s
  end.

(** The store: which object each identity denotes. *)
Abbreviation heap := (gmap loc Step).

Module StepM.
Section WithRuntime.
Context `{!PyRuntime}.

Definition score (self : Step) : outcome float :=
  match self with
  | Root _ => Return PyFloat.zero
  | ReasoningStep s => ScoreMessageM.score (score_message s)
  end.

Definition __lt__ (self other : Step) : outcome bool :=
  a ← score self; b ← score other; Return (PyFloat.gtb a b).

Definition is_terminal_step (self : ReasoningStepObj) : outcome (option bool) :=
  match terminal_message_check self with
  | None => Return None
  | Some m => TerminalCheckMessageM.is_final m
  end.

Definition is_terminal_marker (self : ReasoningStepObj) : bool :=
  bool_decide (TERMINATION_MARKER = content (step_message self)).

End WithRuntime.

Definition Root_to_stepped_conversation (self : RootObj) (with_next_stepper : bool)
  : Conversation := base_conversation self.

Definition Root_to_step_trajectory (self : RootObj) : StepTrajectory :=
  mkStepTrajectory (base_conversation self) [].

(** [while not isinstance(node, Root)] of [to_stepped_conversation]: one
    unit of fuel for each test of the condition. It ends with the root
    reached and the messages collected. *)
Fixpoint stepped_loop (fuel : nat) (h : heap) (node : loc)
    (reversed_messages : list Message) : outcome (RootObj * list Message) :=
  match fuel with
  | 0 => Diverge
  | S fuel' =>
      match h !! node with
      | None => Dangling
      | Some (Root r) => Return (r, reversed_messages)
      | Some (ReasoningStep s) =>
          stepped_loop fuel' h (parent_step s)
            ((reversed_messages ++ [STEPPER_MESSAGE]) ++ [step_message s])
      end
  end.

Definition ReasoningStep_to_stepped_conversation (fuel : nat) (h : heap)
    (self : loc) (with_next_stepper : bool) : outcome Conversation :=
  '(node, reversed_messages) ← stepped_loop fuel h self [];
  let reversed_messages :=
    if negb with_next_stepper then drop 1 reversed_messages
    else reversed_messages in
  Return (ConversationM.__add__ (base_conversation node)
            (AConversation (mkConversation (rev reversed_messages)))).

(** The loop of [to_step_trajectory]. *)
Fixpoint trajectory_loop (fuel : nat) (h : heap) (node : loc)
    (reversed_messages : list Message) : outcome (RootObj * list Message) :=
  match fuel with
  | 0 => Diverge
  | S fuel' =>
      match h !! node with
      | None => Dangling
      | Some (Root r) => Return (r, reversed_messages)
      | Some (ReasoningStep s) =>
          trajectory_loop fuel' h (parent_step s)
            (reversed_messages ++ [step_message s])
      end
  end.

Definition ReasoningStep_to_step_trajectory (fuel : nat) (h : heap) (self : loc)
  : outcome StepTrajectory :=
  '(node, reversed_messages) ← trajectory_loop fuel h self [];
  Return (mkStepTrajectory (base_conversation node) (rev reversed_messages)).

(** Method dispatch on the class of the object at [self]. *)
Definition to_stepped_conversation (fuel : nat) (h : heap) (self : loc)
    (with_next_stepper : bool) : outcome Conversation :=
  match h !! self with
  | None => Dangling
  | Some (Root r) => Return (Root_to_stepped_conversation r with_next_stepper)
  | Some (ReasoningStep _) =>
      ReasoningStep_to_stepped_conversation fuel h self with_next_stepper
  end.

Definition to_step_trajectory (fuel : nat) (h : heap) (self : loc)
  : outcome StepTrajectory :=
  match h !! self with
  | None => Dangling
  | Some (Root r) => Return (Root_to_step_trajectory r)
  | Some (ReasoningStep _) => ReasoningStep_to_step_trajectory fuel h self
  end.

End StepM.

(** ** Builtins used by visualize_tree.py *)

Module Builtins.

(** [int(x)] for a float: truncation towards zero; NaN is a [ValueError],
    an infinity an [OverflowError]. *)
Definition int (x : float) : outcome Z :=
  match x with
  | S754_nan => Raise ValueError
  | S754_infinity _ => Raise OverflowError
  | S754_zero _ => Return 0%Z
  | S754_finite s m e => Return (cond_Zopp s (Z.shiftl (Z.pos m) e))
  end.

Definition hex_digit (d : Z) : N :=
  Z.to_N (if (d <? 10)%Z then 48 + d else 87 + d)%Z.

Fixpoint hex_digits (fuel : nat) (n : Z) (acc : str) : str :=
  match fuel with
  | 0 => acc
  | S fuel' =>
      let acc' := hex_digit (n mod 16) :: acc in
      if (n / 16 =? 0)%Z then acc' else hex_digits fuel' (n / 16)%Z acc'
  end.

(** [hex(n)] *)
Definition hex (n : Z) : str :=
  (if (n <? 0)%Z then lit "-" else []) ++ lit "0x" ++
  hex_digits (S (Z.to_nat (Z.log2 (Z.abs n)))) (Z.abs n) [].

(** [s.zfill(width)]: zeros on the left, behind a leading sign. *)
Definition zfill (width : nat) (s : str) : str :=
  let zeros := replicate (width - length s) 48%N in
  match s with
  | c :: s' => if ((c =? 43) || (c =? 45))%N then c :: zeros ++ s' else zeros ++ s
  | [] => zeros
  end.

(** [min] and [max] of a non-empty sequence; [ValueError] on an empty one. *)
Definition min (l : list float) : outcome float :=
  match l with
  | [] => Raise ValueError
  | x :: l' => Return (fold_left PyFloat.min2 l' x)
  end.

Definition max (l : list float) : outcome float :=
  match l with
  | [] => Raise ValueError
  | x :: l' => Return (fold_left PyFloat.max2 l' x)
  end.

(** [any(f(x) for x in l)]: stops at the first true value. *)
Fixpoint any {A} (f : A -> outcome bool) (l : list A) : outcome bool :=
  match l with
  | [] => Return false
  | x :: l' => b ← f x; if (b : bool) then Return true else any f l'
  end.

End Builtins.

(** ** visualize_tree.py *)

Record StreamlitFlowNode := mkNode {
  node_id : loc;
  background : str;
  border : str;
}.

Record StreamlitFlowEdge := mkEdge {
  source : loc;
  target : loc;
  stroke : str;
  stroke_width : str;
  z_index : Z;
}.

Module Visualize.
Section WithRuntime.
Context `{!PyRuntime}.

(** [hasattr(step, "aborted")] with the value of the attribute: only
    [ReasoningStep] declares it. *)
Definition getattr_aborted (s : Step) : option bool :=
  match s with
  | Root _ => None
  | ReasoningStep r => Some (aborted r)
  end.

(** [step.is_terminal]: neither class has such an attribute. *)
Definition getattr_is_terminal (s : Step) : outcome bool := Raise AttributeError.

Fixpoint has_accepted_leafs (fuel : nat) (h : heap) (step : loc) : outcome bool :=
  match fuel with
  | 0 => Diverge
  | S fuel' =>
      match h !! step with
      | None => Dangling
      | Some s =>
          match child_steps s with
          | _ :: _ =>
              match getattr_aborted s with
              | Some true => Return false
              | _ => Builtins.any (has_accepted_leafs fuel' h) (child_steps s)
              end
          | [] =>
              match getattr_aborted s with
              | Some a => Return (negb a)
              | None => getattr_is_terminal s
              end
          end
      end
  end.

Fixpoint get_min_max_scores (fuel : nat) (h : heap) (tree : loc)
  : outcome (float * float) :=
  match fuel with
  | 0 => Diverge
  | S fuel' =>
      match h !! tree with
      | None => Dangling
      | Some s =>
          match child_steps s with
          | _ :: _ =>
              child_min_max_scores ←
                ConversationM.for_each (get_min_max_scores fuel' h) (child_steps s);
              child_min_score ← Builtins.min (child_min_max_scores.*1);
              child_max_score ← Builtins.max (child_min_max_scores.*2);
              score ← StepM.score s;
              Return (PyFloat.min2 score child_min_score,
                      PyFloat.max2 score child_max_score)
          | [] => score ← StepM.score s; Return (score, score)
          end
      end
  end.

Definition hex2 (n : Z) : str := Builtins.zfill 2 (drop 2 (Builtins.hex n)).

(** The background of a reasoning step (lines 76 to 88). *)
Definition score_color (score min_score max_score : float) : outcome str :=
  if PyFloat.eqb score PyFloat.zero then Return (lit "#00FF00")
  else
    let weight :=
      if PyFloat.eqb max_score min_score then PyFloat.half
      else PyFloat.div (PyFloat.sub score min_score)
                       (PyFloat.sub max_score min_score) in
    red ← Builtins.int
            (PyFloat.add (PyFloat.of_Z 40)
               (PyFloat.mul (PyFloat.of_Z 200)
                  (PyFloat.sub (PyFloat.of_Z 1) weight)));
    green ← Builtins.int
              (PyFloat.add (PyFloat.of_Z 40)
                 (PyFloat.mul (PyFloat.of_Z 200) weight));
    Return (lit "#" ++ hex2 red ++ hex2 green ++ hex2 40).

(** The node of one step; labels are left out, the subscript
    [messages[0]] of the root label is kept. *)
Definition create_node (step : loc) (s : Step) (min_score max_score : float)
  : outcome StreamlitFlowNode :=
  match s with
  | Root r =>
      match messages (base_conversation r) with
      | [] => Raise IndexError
      | _ :: _ => Return (mkNode step (lit "#f5f5f5") (lit "3px solid #ddd"))
      end
  | ReasoningStep r =>
      score ← StepM.score s;
      color ← score_color score min_score max_score;
      let improved_color :=
        match improved_step r with
        | Some _ => lit "#888888"
        | None => lit "#EEEEEE"
        end in
      Return (mkNode step color (lit "3px solid " ++ improved_color))
  end.

Definition flow_elements : Type :=
  list StreamlitFlowNode * list StreamlitFlowEdge * gmap loc loc.

(** The [for child in step.child_steps] loop, given the recursive call. *)
Fixpoint process_children (fuel : nat) (h : heap)
    (recurse : loc -> outcome flow_elements) (this : loc)
    (children : list loc) (acc : flow_elements) : outcome flow_elements :=
  match children with
  | [] => Return acc
  | child :: rest =>
      '(child_nodes, child_edges, child_ids_to_step) ← recurse child;
      match child_nodes with
      | [] => Raise IndexError
      | first :: _ =>
          let child_id := node_id first in
          accepted ← has_accepted_leafs fuel h child;
          let edge :=
            if (accepted : bool)
            then mkEdge this child_id (lit "#33FF33") (lit "4px") 10
            else mkEdge this child_id (lit "#555555") (lit "2px") 0 in
          let '(nodes, edges, ids_to_step) := acc in
          process_children fuel h recurse this rest
            (nodes ++ child_nodes, (edges ++ [edge]) ++ child_edges,
             child_ids_to_step ∪ ids_to_step)
      end
  end.

Fixpoint create_flow_elements (fuel : nat) (h : heap) (step : loc)
    (min_score max_score : float) : outcome flow_elements :=
  match fuel with
  | 0 => Diverge
  | S fuel' =>
      match h !! step with
      | None => Dangling
      | Some s =>
          node ← create_node step s min_score max_score;
          process_children fuel' h
            (fun child => create_flow_elements fuel' h child min_score max_score)
            step (child_steps s) ([node], [], {[ step := step ]})
      end
  end.

(** What [main] computes from the loaded tree. *)
Definition main_elements (fuel : nat) (h : heap) (tree : loc)
  : outcome flow_elements :=
  '(min_score, max_score) ← get_min_max_scores fuel h tree;
  create_flow_elements fuel h tree min_score max_score.

End WithRuntime.
End Visualize.

(** ** The priority queue

    The queue that orders steps is Python's [heapq], a binary min-heap in
    a list that compares its items with [<] only. *)

Module heapq.
Section Heap.
Context {A : Type} (lt : A -> A -> outcome bool).

(** The loop of [_siftdown(heap, startpos, pos)]. *)
Fixpoint siftdown_loop (fuel : nat) (heap : list A) (startpos pos : nat)
    (newitem : A) : outcome (list A) :=
  match fuel with
  | 0 => Diverge
  | S fuel' =>
      if startpos <? pos then
        let parentpos := (pos - 1) / 2 in
        match heap !! parentpos with
        | None => Raise IndexError
        | Some parent =>
            b ← lt newitem parent;
            if (b : bool)
            then siftdown_loop fuel' (<[pos := parent]> heap) startpos parentpos newitem
            else Return (<[pos := newitem]> heap)
        end
      else Return (<[pos := newitem]> heap)
  end.

Definition _siftdown (heap : list A) (startpos pos : nat) : outcome (list A) :=
  match heap !! pos with
  | None => Raise IndexError
  | Some newitem => siftdown_loop (S (length heap)) heap startpos pos newitem
  end.

(** The loop of [_siftup(heap, pos)]: the smaller child moves up until a
    leaf is reached. It returns the heap and the final position. *)
Fixpoint siftup_loop (fuel : nat) (heap : list A) (endpos pos childpos : nat)
  : outcome (list A * nat) :=
  match fuel with
  | 0 => Diverge
  | S fuel' =>
      if childpos <? endpos then
        let rightpos := childpos + 1 in
        childpos' ←
          (if rightpos <? endpos then
             match heap !! childpos, heap !! rightpos with
             | Some l, Some r =>
                 b ← lt l r; Return (if (b : bool) then childpos else rightpos)
             | _, _ => Raise IndexError
             end
           else Return childpos);
        match heap !! childpos' with
        | None => Raise IndexError
        | Some child =>
            siftup_loop fuel' (<[pos := child]> heap) endpos childpos'
              (2 * childpos' + 1)
        end
      else Return (heap, pos)
  end.

Definition _siftup (heap : list A) (pos : nat) : outcome (list A) :=
  match heap !! pos with
  | None => Raise IndexError
  | Some newitem =>
      '(heap', pos') ← siftup_loop (S (length heap)) heap (length heap) pos
                         (2 * pos + 1);
      _siftdown (<[pos' := newitem]> heap') pos pos'
  end.

Definition heappush (heap : list A) (item : A) : outcome (list A) :=
  _siftdown (heap ++ [item]) 0 (length heap).

(** [heappop(heap)]: the item popped and the heap left. *)
Definition heappop (heap : list A) : outcome (A * list A) :=
  match last heap with
  | None => Raise IndexError
  | Some lastelt =>
      match removelast heap with
      | [] => Return (lastelt, [])
      | returnitem :: rest =>
          heap' ← _siftup (lastelt :: rest) 0; Return (returnitem, heap')
      end
  end.

End Heap.
End heapq.

(** ** A runtime for ASCII text

    An instance of [PyRuntime] to run the code on concrete inputs. On ASCII
    strings [ascii_float] follows the grammar and the rounding of CPython's
    [float]; digits and letters beyond ASCII belong to the tables this
    instance does not carry, and no example below uses them. *)

Module AsciiRuntime.

Definition is_digit (c : N) : bool := ((48 <=? c) && (c <=? 57))%N.
Definition digit_val (c : N) : Z := (Z.of_N c - 48)%Z.

Definition ascii_lower (c : N) : N :=
  if ((65 <=? c) && (c <=? 90))%N then (c + 32)%N else c.

(** The rest of a [digitpart] once a digit was read: digits, each one
    possibly behind a single underscore. *)
Fixpoint digits_tail (s : str) (acc : Z) (n : nat) : Z * nat * str :=
  match s with
  | [] => (acc, n, [])
  | c :: s' =>
      if is_digit c then digits_tail s' (10 * acc + digit_val c)%Z (S n)
      else if (c =? 95)%N then
        match s' with
        | d :: s'' =>
            if is_digit d then digits_tail s'' (10 * acc + digit_val d)%Z (S n)
            else (acc, n, s)
        | [] => (acc, n, s)
        end
      else (acc, n, s)
  end.

(** [digitpart ::= digit (["_"] digit)*], continuing the number [acc] of
    [n] digits. *)
Definition digitpart (s : str) (acc : Z) (n : nat) : option (Z * nat * str) :=
  match s with
  | c :: s' =>
      if is_digit c then Some (digits_tail s' (10 * acc + digit_val c)%Z (S n))
      else None
  | [] => None
  end.

(** [number ::= [digitpart] "." digitpart | digitpart ["."]]: the digits as
    an integer, how many of them follow the point, and the rest. *)
Definition number (s : str) : option (Z * nat * str) :=
  match digitpart s 0 0 with
  | Some (m, n, 46%N :: rest) =>
      match digitpart rest m n with
      | Some (m', n', rest') => Some (m', n' - n, rest')
      | None => Some (m, 0, rest)
      end
  | Some (m, _, rest) => Some (m, 0, rest)
  | None =>
      match s with
      | 46%N :: rest =>
          match digitpart rest 0 0 with
          | Some (m', n', rest') => Some (m', n', rest')
          | None => None
          end
      | _ => None
      end
  end.

Definition sign (s : str) : bool * str :=
  match s with
  | 43%N :: s' => (false, s')
  | 45%N :: s' => (true, s')
  | _ => (false, s)
  end.

(** [exponent ::= ("e" | "E") [sign] digitpart], or nothing. *)
Definition exponent (s : str) : option (Z * str) :=
  match s with
  | c :: s' =>
      if (ascii_lower c =? 101)%N then
        let '(neg, s'') := sign s' in
        match digitpart s'' 0 0 with
        | Some (e, _, rest) => Some (if neg then (- e)%Z else e, rest)
        | None => None
        end
      else Some (0%Z, s)
  | [] => Some (0%Z, [])
  end.

(** The float nearest to [(-1)^neg * m * 10^e]. *)
Definition decimal (neg : bool) (m e : Z) : float :=
  match m with
  | Z.pos p =>
      if (0 <=? e)%Z
      then binary_normalize PyFloat.prec PyFloat.emax
             (cond_Zopp neg (m * 10 ^ e)) 0 false
      else PyFloat.div (S754_finite neg p 0)
             (S754_finite false (Z.to_pos (10 ^ (- e))) 0)
  | _ => S754_zero neg
  end.

Definition ascii_float (s : str) : option float :=
  let '(neg, body) := sign (strip s) in
  let word := map ascii_lower body in
  if decide (word = lit "inf") then Some (S754_infinity neg)
  else if decide (word = lit "infinity") then Some (S754_infinity neg)
  else if decide (word = lit "nan") then Some S754_nan
  else
    match number body with
    | Some (m, frac, rest) =>
        match exponent rest with
        | Some (e, []) => Some (decimal neg m (e - Z.of_nat frac))
        | _ => None
        end
    | None => None
    end.

(** Decimal integer literals, the strings pydantic turns into an [int]. *)
Definition ascii_int (s : str) : option Z :=
  let '(neg, body) := sign (strip s) in
  match digitpart body 0 0 with
  | Some (m, _, []) => Some (if neg then (- m)%Z else m)
  | _ => None
  end.

#[global] Instance runtime : PyRuntime := {|
  py_float := ascii_float;
  unicode_upper := fun c => [c];
  lax_int_of_str := ascii_int;
|}.

End AsciiRuntime.

(** ** Notions used to state the properties *)

(** [leftmost sep pre rest]: in [pre ++ sep ++ rest] no occurrence of [sep]
    starts before the one shown. *)
Definition leftmost (sep pre rest : str) : Prop :=
  forall p q, pre ++ sep ++ rest = p ++ sep ++ q -> length pre <= length p.

(** The text between the first marker of a line and the next marker, or
    the end of the line when there is no other one. *)
Definition score_text (line text : str) : Prop :=
  exists pre rest,
    line = pre ++ SCORE_MARKER ++ text ++ rest /\
    leftmost SCORE_MARKER pre (text ++ rest) /\
    (rest = [] /\ contains SCORE_MARKER text = false \/
     exists rest', rest = SCORE_MARKER ++ rest' /\ leftmost SCORE_MARKER text rest').

(** Everything behind the first marker of a line. *)
Definition text_after_marker (line text : str) : Prop :=
  exists pre, line = pre ++ SCORE_MARKER ++ text /\ leftmost SCORE_MARKER pre text.

(** [line] is the last of the lines of [content] that holds the marker. *)
Definition last_score_line (content line : str) : Prop :=
  exists before after,
    content = join newline (before ++ line :: after) /\
    Forall (fun l => contains newline l = false) (before ++ line :: after) /\
    contains SCORE_MARKER line = true /\
    Forall (fun l => contains SCORE_MARKER l = false) after.

(** No line of [content] holds the marker. *)
Definition no_score_line (content : str) : Prop :=
  exists lines,
    lines <> [] /\ content = join newline lines /\
    Forall (fun l => contains newline l = false) lines /\
    Forall (fun l => contains SCORE_MARKER l = false) lines.

(** The two markers [is_final] looks for. *)
Definition TERMINAL_YES : str := lit "TERMINAL: YES".
Definition TERMINAL_NO : str := lit "TERMINAL: NO".

(** [w] is [marker] up to the case of its ASCII letters. *)
Definition in_any_case (marker w : str) : Prop := map ascii_upper w = marker.

(** A dictionary of the message schema: [role] one of the three literals,
    [content] a string, [name] absent, [None] or a string, [weight] absent
    or an integer, and no other key. *)
Definition valid_message_dict (d : dict) : Prop :=
  (exists r, d !! "role"%string = Some (PStr (role_str r))) /\
  (exists c, d !! "content"%string = Some (PStr c)) /\
  (d !! "name"%string = None \/ d !! "name"%string = Some PNone \/
   exists n, d !! "name"%string = Some (PStr n)) /\
  (d !! "weight"%string = None \/ exists w, d !! "weight"%string = Some (PInt w)) /\
  (forall k, k ∉ model_fields -> d !! k = None).

(** The minimal form of a schema dictionary: [name] left out when unset,
    [weight] left out when it is 1. *)
Definition minimal_form (d : dict) : dict :=
  let d := if decide (d !! "name"%string = Some PNone)
           then delete "name"%string d else d in
  if decide (d !! "weight"%string = Some (PInt 1))
  then delete "weight"%string d else d.

(** The parent chain of [node] reaches a root after [d] steps; [msgs] are
    the step messages on the way, from the root down to [node]. *)
Inductive reaches_root (h : heap) : loc -> nat -> RootObj -> list Message -> Prop :=
  | reaches_here node r :
      h !! node = Some (Root r) -> reaches_root h node 0 r []
  | reaches_up node s d r msgs :
      h !! node = Some (ReasoningStep s) ->
      reaches_root h (parent_step s) d r msgs ->
      reaches_root h node (S d) r (msgs ++ [step_message s]).

(** The subtree below [l] has height at most [n] and holds reasoning steps
    only, each one pointing back to its parent. *)
Fixpoint steps_below (n : nat) (h : heap) (parent l : loc) : bool :=
  match n with
  | 0 => false
  | S n' =>
      match h !! l with
      | Some (ReasoningStep s) =>
          bool_decide (parent_step s = parent) &&
          forallb (steps_below n' h l) (step_child_steps s)
      | _ => false
      end
  end.

(** A tree: a root and, below it, reasoning steps up to height [n]. *)
Definition well_formed_tree (n : nat) (h : heap) (root : loc) : bool :=
  match h !! root with
  | Some (Root r) => forallb (steps_below n h root) (root_child_steps r)
  | _ => false
  end.

(** [x] is [l] or below it. *)
Inductive in_subtree (h : heap) : loc -> loc -> Prop :=
  | in_subtree_here l : in_subtree h l l
  | in_subtree_child l s c x :
      h !! l = Some s -> c ∈ child_steps s -> in_subtree h c x ->
      in_subtree h l x.

(** A leaf that is not aborted. *)
Definition accepted_leaf (h : heap) (l : loc) : Prop :=
  exists s, h !! l = Some (ReasoningStep s) /\
            step_child_steps s = [] /\ aborted s = false.

(** Some accepted leaf lies below [l] (or is [l]). *)
Definition contains_accepted_leaf (h : heap) (l : loc) : Prop :=
  exists x, in_subtree h l x /\ accepted_leaf h x.

(** An accepted leaf is reached from [l] through steps none of which is
    aborted, [l] included. *)
Inductive open_path_to_leaf (h : heap) : loc -> Prop :=
  | open_leaf l s :
      h !! l = Some (ReasoningStep s) -> step_child_steps s = [] ->
      aborted s = false -> open_path_to_leaf h l
  | open_inner l s c :
      h !! l = Some (ReasoningStep s) -> aborted s = false ->
      c ∈ step_child_steps s -> open_path_to_leaf h c ->
      open_path_to_leaf h l.

Section TreeScores.
Context `{!PyRuntime}.

(** The scores of [l] and of all steps below it, [l] first. *)
Fixpoint tree_scores (fuel : nat) (h : heap) (l : loc) : outcome (list float) :=
  match fuel with
  | 0 => Diverge
  | S fuel' =>
      match h !! l with
      | None => Dangling
      | Some s =>
          x ← StepM.score s;
          below ← ConversationM.for_each (tree_scores fuel' h) (child_steps s);
          Return (x :: concat below)
      end
  end.

(** The scores of the steps below [l]. *)
Definition descendant_scores (fuel : nat) (h : heap) (l : loc)
  : outcome (list float) :=
  scores ← tree_scores fuel h l; Return (tail scores).

End TreeScores.

(** The step messages of a path, each one followed by the stepper. *)
Definition with_steppers (msgs : list Message) : list Message :=
  m ← msgs; [m; STEPPER_MESSAGE].

(** Two pushes of steps on the empty heap, then one pop. *)
Definition push_push_pop `{!PyRuntime} (a b : Step) : outcome (Step * list Step) :=
  heap ← heapq.heappush StepM.__lt__ [] a;
  heap ← heapq.heappush StepM.__lt__ heap b;
  heapq.heappop StepM.__lt__ heap.

(** The integer a float stands for, and the floats that stand for one of
    the integers 0 to 9. *)
Definition score_value (x : float) : Z :=
  match Builtins.int x with
  | Return z => z
  | _ => 0%Z
  end.

Definition digit_score (x : float) : Prop :=
  exists z, (0 <= z <= 9)%Z /\ x = PyFloat.of_Z z.

(** [m] is in [scores] and no score lies on the wrong side of it: with
    [Z.le] it is the least of them, with [Z.ge] the greatest. *)
Definition extremal (R : Z -> Z -> Prop) (scores : list float) (m : float) : Prop :=
  m ∈ scores /\ Forall (fun y => R (score_value m) (score_value y)) scores.

(** A message with its class forgotten: the plain [Message] of the same
    four fields. *)
Definition as_message (m : Message) : Message :=
  mkMessage MessageC (role m) (content m) (name m) (weight m).

Definition is_nan (x : float) : bool :=
  match x with S754_nan => true | _ => false end.

Definition no_nan (scores : list float) : Prop :=
  Forall (fun y => is_nan y = false) scores.

(** [m] is one of [scores] and [lt y m] holds for none of them: the least
    score with [lt] the order [<] of floats, the greatest with [>]. *)
Definition bound (lt : float -> float -> bool) (scores : list float)
    (m : float) : Prop :=
  m ∈ scores /\ Forall (fun y => lt y m = false) scores.

(** The heap order of [heapq]: no item is less than its parent, the item
    at [(i - 1) / 2] for the item at [i]. *)
Definition heap_ordered {A} (below : A -> A -> bool) (heap : list A) : Prop :=
  forall i x p,
    0 < i -> heap !! i = Some x -> heap !! ((i - 1) / 2) = Some p ->
    below x p = false.

(** The heap order but for the item at [pos]: it holds between the other
    items, and no child of [pos] is less than the parent of [pos]. *)
Definition ordered_around {A} (below : A -> A -> bool) (heap : list A)
    (pos : nat) : Prop :=
  (forall i x p,
     0 < i -> i <> pos -> (i - 1) / 2 <> pos ->
     heap !! i = Some x -> heap !! ((i - 1) / 2) = Some p ->
     below x p = false) /\
  (forall c x g,
     0 < pos -> 0 < c -> (c - 1) / 2 = pos ->
     heap !! c = Some x -> heap !! ((pos - 1) / 2) = Some g ->
     below x g = false).

(** The heaps that [heappush] and [heappop] make from the empty list, with
    pushed items that satisfy [ok]. *)
Inductive queue_of {A} (lt : A -> A -> outcome bool) (ok : A -> Prop)
  : list A -> Prop :=
| queue_empty : queue_of lt ok []
| queue_pushed heap item heap' :
    queue_of lt ok heap -> ok item ->
    heapq.heappush lt heap item = Return heap' -> queue_of lt ok heap'
| queue_popped heap item heap' :
    queue_of lt ok heap ->
    heapq.heappop lt heap = Return (item, heap') -> queue_of lt ok heap'.

(** The items whose score is a number. *)
Definition numbered {A} (score : A -> outcome float) (a : A) : Prop :=
  exists y, score a = Return y /\ is_nan y = false.

(** The heap after pushing [items] one by one on the empty heap. *)
Definition push_all {A} (lt : A -> A -> outcome bool) (items : list A)
  : outcome (list A) :=
  foldl (fun r item => heap ← r; heapq.heappush lt heap item) (Return [])
    items.

(** What a priority queue by score does with [queue]: it takes any item
    whose score is a number, and when it is not empty [heappop] returns one
    of its items, above which no item of it scores, and leaves the
    others. *)
Definition priority_queue {A} (score : A -> outcome float)
    (lt : A -> A -> outcome bool) (queue : list A) : Prop :=
  (forall item, numbered score item ->
     exists queue', heapq.heappush lt queue item = Return queue' /\
                    queue' ≡ₚ item :: queue) /\
  (queue <> [] ->
   exists top queue',
     heapq.heappop lt queue = Return (top, queue') /\
     top :: queue' ≡ₚ queue /\
     forall item x y,
       item ∈ queue -> score top = Return x -> score item = Return y ->
       PyFloat.gtb y x = false).

(** The floats that stand for a whole number from -10 to 10. *)
Definition small_score (x : float) : Prop :=
  exists z, (-10 <= z <= 10)%Z /\ x = PyFloat.of_Z z.

(** [p] holds for the [n] integers from [lo] on. *)
Fixpoint forall_range (lo : Z) (n : nat) (p : Z -> bool) : bool :=
  match n with
  | 0 => true
  | S n' => p lo && forall_range (lo + 1) n' p
  end.

(** The value of a string of lower-case hexadecimal digits. *)
Definition hex_digit_value (c : N) : option Z :=
  if ((48 <=? c) && (c <=? 57))%N then Some (Z.of_N c - 48)%Z
  else if ((97 <=? c) && (c <=? 102))%N then Some (Z.of_N c - 87)%Z
  else None.

Fixpoint hex_value_from (acc : Z) (s : str) : option Z :=
  match s with
  | [] => Some acc
  | c :: s' => d ← hex_digit_value c; hex_value_from (16 * acc + d) s'
  end.

Definition hex_value (s : str) : option Z :=
  match s with
  | [] => None
  | _ :: _ => hex_value_from 0 s
  end.

(** The red and the green channel of a step, in exact arithmetic: 40 plus
    200 times one minus the weight, rounded down, and 40 plus 200 times the
    weight, rounded down. *)
Definition exact_red (s mn mx : Z) : Z :=
  (240 + (- (200 * (s - mn))) / (mx - mn))%Z.

Definition exact_green (s mn mx : Z) : Z :=
  (40 + (200 * (s - mn)) / (mx - mn))%Z.

(** The three style attributes of an edge. *)
Definition edge_style (e : StreamlitFlowEdge) : str * str * Z :=
  (stroke e, stroke_width e, z_index e).

(** The steps of the tree below [l] in pre-order: [l] first, then the
    subtree of each child, in the order of [child_steps]. *)
Fixpoint preorder (fuel : nat) (h : heap) (l : loc) : outcome (list loc) :=
  match fuel with
  | 0 => Diverge
  | S fuel' =>
      match h !! l with
      | None => Dangling
      | Some s =>
          below ← ConversationM.for_each (preorder fuel' h) (child_steps s);
          Return (l :: concat below)
      end
  end.

(** What [create_flow_elements] returns for [step] lists a tree: the node
    of [step] comes first; each edge points to the node one place further
    in the list than the edge is in its own, goes from a listed step to
    one of its [child_steps] and is styled by [has_accepted_leafs] of its
    target; and [ids_to_step] has the identities of the nodes as its
    keys, each one bound to the step of that identity. *)
Definition tree_listing `{!PyRuntime} (h : heap) (step : loc)
    (out : Visualize.flow_elements) : Prop :=
  let '(nodes, edges, ids_to_step) := out in
  head (map node_id nodes) = Some step /\
  map target edges = tail (map node_id nodes) /\
  Forall (fun e => source e ∈ map node_id nodes /\
                   exists s, h !! source e = Some s /\
                             target e ∈ child_steps s) edges /\
  Forall (fun e =>
            exists fuel accepted,
              Visualize.has_accepted_leafs fuel h (target e) = Return accepted /\
              edge_style e
              = if (accepted : bool) then (lit "#33FF33", lit "4px", 10%Z)
                else (lit "#555555", lit "2px", 0%Z)) edges /\
  (forall k, is_Some (ids_to_step !! k) <-> k ∈ map node_id nodes) /\
  (forall k v, ids_to_step !! k = Some v -> v = k).

(** ** Example inputs *)

Module Examples.

Definition base : Conversation :=
  mkConversation [MessageM.system (lit "Think step by step.");
                  MessageM.user (lit "What is 1 + 1?")].

Definition score_of_text (text : string) : ScoreMessage :=
  mkMessage ScoreMessageC Assistant (lit "Total Score: " ++ lit text) None 1.

Definition step_obj (children : list loc) (parent : loc) (text score : string)
    (is_aborted : bool) : ReasoningStepObj :=
  mkReasoningStep children parent (MessageM.assistant (lit text))
    (score_of_text score) (MessageM.assistant (lit "Looks right."))
    None None is_aborted.

Definition step (children : list loc) (parent : loc) (text score : string)
    (is_aborted : bool) : Step :=
  ReasoningStep (step_obj children parent text score is_aborted).

(** A root, a step below it and a step below that one. *)
Definition chain : heap :=
  {[ 0 := Root (mkRoot [1] base);
     1 := step [2] 0 "Add the numbers." "5" false;
     2 := step [] 1 "Done." "8" false ]}.

(** Three levels: the root, steps scored 5 and 2, and below the first one
    steps scored 9 and 1. *)
Definition scored : heap :=
  {[ 0 := Root (mkRoot [1; 2] base);
     1 := step [3; 4] 0 "a" "5" false;
     2 := step [] 0 "b" "2" true;
     3 := step [] 1 "c" "9" false;
     4 := step [] 1 "d" "1" true ]}.

(** An aborted step above a leaf that is not aborted. *)
Definition pruned : heap :=
  {[ 0 := Root (mkRoot [1] base);
     1 := step [2] 0 "a" "5" true;
     2 := step [] 1 "b" "7" false ]}.

(** A root without children. *)
Definition lone_root : heap := {[ 0 := Root (mkRoot [] base) ]}.

(** A root and one step whose score message ends in [Total Score: inf]. *)
Definition unbounded : heap :=
  {[ 0 := Root (mkRoot [1] base);
     1 := step [] 0 "a" "inf" false ]}.

Definition low : Step := step [] 0 "low" "3.0" false.
Definition high : Step := step [] 0 "high" "8.0" false.

(** A schema dictionary with an explicit [None] name and the default
    weight, and its minimal form. *)
Definition verbose_dict : dict :=
  {[ "role"%string := PStr (lit "user"); "content"%string := PStr (lit "hi");
     "name"%string := PNone; "weight"%string := PInt 1 ]}.

Definition minimal_dict : dict :=
  {[ "role"%string := PStr (lit "user"); "content"%string := PStr (lit "hi") ]}.

(** A line with two markers, and a content with two marked lines. *)
Definition two_markers : str := lit "Total Score: 5 Total Score: x".

Definition three_lines : list str :=
  [lit "Total Score: 1"; lit "more text"; lit "Total Score: 9"].

(** Two steps that are each other's parent. *)
Definition looping : heap :=
  {[ 1 := step [2] 2 "a" "5" false;
     2 := step [1] 1 "b" "6" false ]}.

(** A step whose score message ends in [Total Score: nan]. *)
Definition not_a_number : Step := step [] 0 "n" "nan" false.

(** A step scored 2. *)
Definition lowest : Step := step [] 0 "lowest" "2" false.

(** A dictionary without a role. *)
Definition scarce_dict : dict := {[ "content"%string := PStr (lit "hi") ]}.

(** A root with a leaf scored NaN and, behind it, a leaf scored 7. *)
Definition clouded : heap :=
  {[ 0 := Root (mkRoot [1; 2] base);
     1 := step [] 0 "a" "nan" false;
     2 := step [] 0 "b" "7" false ]}.

(** A root whose base conversation has no message. *)
Definition speechless : heap := {[ 0 := Root (mkRoot [] (mkConversation [])) ]}.

End Examples.

(** ** Proof automation *)

(** Case analysis on a key: one of the four fields, or none of them. *)
Ltac by_key k :=
  destruct (decide (k = "role"%string)) as [->|?];
  [|destruct (decide (k = "content"%string)) as [->|?];
    [|destruct (decide (k = "name"%string)) as [->|?];
      [|destruct (decide (k = "weight"%string)) as [->|?];
        [|idtac]]]].

(** Case analysis on an integer between 0 and 9. *)
Ltac each_digit z :=
  match goal with
  | H : (0 <= z <= 9)%Z |- _ =>
      assert (z = 0 \/ z = 1 \/ z = 2 \/ z = 3 \/ z = 4 \/ z = 5 \/ z = 6 \/
              z = 7 \/ z = 8 \/ z = 9)%Z as Hcases by lia;
      clear H;
      repeat (destruct Hcases as [->|Hcases]); [..|subst z]
  end.

(** Case analysis on the comparisons of exponents and mantissas that are
    left once the kinds and the signs of the floats compared are known. *)
Ltac compare_cases :=
  repeat match goal with
         | H : context [Pos.compare_cont Eq ?a ?b] |- _ =>
             change (Pos.compare_cont Eq a b) with (Pos.compare a b) in H
         | |- context [Pos.compare_cont Eq ?a ?b] =>
             change (Pos.compare_cont Eq a b) with (Pos.compare a b)
         end;
  repeat match goal with
         | H : context [(?a ?= ?b)%Z] |- _ =>
             destruct (Z.compare_spec a b); cbn in H; try discriminate H
         | H : context [(?a ?= ?b)%positive] |- _ =>
             destruct (Pos.compare_spec a b); cbn in H; try discriminate H
         end;
  repeat match goal with
         | |- context [(?a ?= ?b)%Z] => destruct (Z.compare_spec a b); cbn
         | |- context [(?a ?= ?b)%positive] => destruct (Pos.compare_spec a b); cbn
         end;
  try reflexivity; try discriminate; try lia.

(** The division by two that gives the parent of a position. *)
Ltac parent_of i :=
  pose proof (Nat.div_mod_eq (i - 1) 2);
  pose proof (Nat.mod_upper_bound (i - 1) 2 ltac:(lia)).

(** * Properties *)

(** ** Concatenation of conversations *)

(** C7: [a + b] holds the messages of [a] followed by those of [b], so the
    lengths add up; [a + m] puts the message [m] behind the messages of
    [a], and [m + a] puts it in front of them. *)
Theorem add_keeps_order (a b : Conversation) (m : Message) :
  messages (ConversationM.__add__ a (AConversation b)) = messages a ++ messages b /\
  length (messages (ConversationM.__add__ a (AConversation b)))
    = length (messages a) + length (messages b) /\
  messages (ConversationM.__add__ a (AMessage m)) = messages a ++ [m] /\
  messages (ConversationM.__radd__ a m) = m :: messages a.
Proof.
  repeat split; simpl; try reflexivity.
  apply length_app.
Qed.

(** ** Walking up to the root *)

Section Walks.
Variable h : heap.

Lemma reaches_root_length node d r msgs :
  reaches_root h node d r msgs -> length msgs = d.
Proof.
  induction 1 as [|node s d r msgs Hs Hp IH]; [reflexivity|].
  rewrite length_app, IH. simpl. lia.
Qed.

Lemma reaches_root_functional node d r msgs d' r' msgs' :
  reaches_root h node d r msgs -> reaches_root h node d' r' msgs' ->
  d = d' /\ r = r' /\ msgs = msgs'.
Proof.
  intros H. revert d' r' msgs'.
  induction H as [node r Hr|node s d r msgs Hs Hp IH]; intros d' r' msgs' H'.
  - inversion H'; subst; [|congruence].
    split; [reflexivity|]. split; [congruence|reflexivity].
  - inversion H' as [|node' s' d0 r0 msgs0 Hs' Hp']; subst; [congruence|].
    assert (s' = s) by congruence. subst s'.
    destruct (IH _ _ _ Hp') as (-> & -> & ->). auto.
Qed.

Lemma trajectory_loop_spec node d r msgs :
  reaches_root h node d r msgs ->
  forall fuel acc, d < fuel ->
    StepM.trajectory_loop fuel h node acc = Return (r, acc ++ rev msgs).
Proof.
  induction 1 as [node r Hr|node s d r msgs Hs Hp IH]; intros fuel acc Hfuel.
  - destruct fuel as [|fuel]; [lia|]. simpl. rewrite Hr.
    now rewrite app_nil_r.
  - destruct fuel as [|fuel]; [lia|]. simpl. rewrite Hs.
    rewrite IH by lia. rewrite rev_app_distr. simpl.
    now rewrite <- app_assoc.
Qed.

Lemma stepped_loop_spec node d r msgs :
  reaches_root h node d r msgs ->
  forall fuel acc, d < fuel ->
    StepM.stepped_loop fuel h node acc
    = Return (r, acc ++ rev (with_steppers msgs)).
Proof.
  induction 1 as [node r Hr|node s d r msgs Hs Hp IH]; intros fuel acc Hfuel.
  - destruct fuel as [|fuel]; [lia|]. simpl. rewrite Hr.
    now rewrite app_nil_r.
  - destruct fuel as [|fuel]; [lia|]. simpl. rewrite Hs.
    rewrite IH by lia. unfold with_steppers.
    rewrite bind_app, rev_app_distr. simpl.
    now rewrite <- !app_assoc.
Qed.

(** The conversation of any step: the base conversation, then every step
    message of the path followed by the stepper; without the next stepper
    the last of these steppers is left out. *)
Lemma to_stepped_conversation_spec node d r msgs fuel :
  reaches_root h node d r msgs -> d < fuel ->
  StepM.to_stepped_conversation fuel h node true
    = Return (mkConversation (messages (base_conversation r) ++ with_steppers msgs)) /\
  StepM.to_stepped_conversation fuel h node false
    = Return (mkConversation
                (messages (base_conversation r) ++ removelast (with_steppers msgs))).
Proof.
  intros Hreach Hfuel. unfold StepM.to_stepped_conversation.
  inversion Hreach as [node' r' Hr|node' s d' r' msgs' Hs Hp]; subst.
  - rewrite Hr. unfold StepM.Root_to_stepped_conversation. cbn.
    rewrite app_nil_r. now destruct (base_conversation r).
  - rewrite Hs. unfold StepM.ReasoningStep_to_stepped_conversation.
    rewrite (stepped_loop_spec _ _ _ _ Hreach) by assumption. cbn.
    rewrite rev_involutive. split; [reflexivity|].
    do 2 f_equal. f_equal.
    unfold with_steppers. rewrite bind_app. cbn.
    rewrite rev_app_distr. cbn.
    rewrite removelast_app by discriminate. cbn.
    now rewrite rev_involutive.
Qed.

End Walks.

(** C1, as it is written, fails: for the step right below the root the
    code returns the step message first and the stepper behind it. *)
Lemma stepper_does_not_come_first :
  let step_message := MessageM.assistant (lit "Add the numbers.") in
  StepM.to_stepped_conversation 2 Examples.chain 1 true
    = Return (mkConversation
                (messages Examples.base ++ [step_message; STEPPER_MESSAGE])) /\
  StepM.to_stepped_conversation 2 Examples.chain 1 true
    <> Return (mkConversation
                 (messages Examples.base ++ [STEPPER_MESSAGE; step_message])).
Proof.
  split; [vm_compute; reflexivity|].
  vm_compute. intros H. discriminate H.
Qed.

(** C1, amended: for a step whose parent is the root,
    [to_stepped_conversation(with_next_stepper=True)] returns the base
    conversation followed by the step message and then the stepper, and
    with [with_next_stepper=False] the base conversation followed by the
    step message only. *)
Theorem depth_one_conversation (h : heap) (self : loc) (s : ReasoningStepObj)
    (r : RootObj) (fuel : nat) :
  h !! self = Some (ReasoningStep s) ->
  h !! parent_step s = Some (Root r) ->
  2 <= fuel ->
  StepM.to_stepped_conversation fuel h self true
    = Return (mkConversation
                (messages (base_conversation r) ++ [step_message s; STEPPER_MESSAGE])) /\
  StepM.to_stepped_conversation fuel h self false
    = Return (mkConversation (messages (base_conversation r) ++ [step_message s])).
Proof.
  intros Hs Hr Hfuel.
  assert (Hreach : reaches_root h self 1 r ([] ++ [step_message s])).
  { eapply reaches_up; [exact Hs|]. now apply reaches_here. }
  apply (to_stepped_conversation_spec h self 1 r _ fuel Hreach). lia.
Qed.

Lemma depth_one_conversation_witness :
  let s := Examples.step_obj [2] 0 "Add the numbers." "5" false in
  StepM.to_stepped_conversation 2 Examples.chain 1 true
    = Return (mkConversation
                (messages Examples.base ++ [step_message s; STEPPER_MESSAGE])) /\
  StepM.to_stepped_conversation 2 Examples.chain 1 false
    = Return (mkConversation (messages Examples.base ++ [step_message s])).
Proof.
  apply (depth_one_conversation Examples.chain 1
           (Examples.step_obj [2] 0 "Add the numbers." "5" false)
           (mkRoot [1] Examples.base) 2).
  - vm_compute. reflexivity.
  - vm_compute. reflexivity.
  - lia.
Defined.

(** C8: when the parent chain of a step reaches the root after [d] steps,
    [to_step_trajectory] returns, with fuel for [d] steps, the base
    conversation of that root and exactly the [d] step messages of the
    path, from the root down, without any stepper; for the root itself
    ([d = 0]) the list is empty. *)
Theorem trajectory_of_depth (h : heap) (node : loc) (d : nat) (r : RootObj)
    (msgs : list Message) (fuel : nat) :
  reaches_root h node d r msgs ->
  d < fuel ->
  StepM.to_step_trajectory fuel h node
    = Return (mkStepTrajectory (base_conversation r) msgs) /\
  length msgs = d /\
  (d = 0 -> msgs = []).
Proof.
  intros Hreach Hfuel. split; [|split].
  - unfold StepM.to_step_trajectory.
    inversion Hreach as [node' r' Hr|node' s d' r' msgs' Hs Hp]; subst.
    + now rewrite Hr.
    + rewrite Hs. unfold StepM.ReasoningStep_to_step_trajectory.
      rewrite (trajectory_loop_spec _ _ _ _ _ Hreach) by assumption. cbn.
      now rewrite rev_involutive.
  - eapply reaches_root_length, Hreach.
  - intros ->. apply reaches_root_length in Hreach.
    now destruct msgs.
Qed.

Lemma trajectory_of_depth_witness :
  StepM.to_step_trajectory 3 Examples.chain 2
    = Return (mkStepTrajectory Examples.base
                [MessageM.assistant (lit "Add the numbers.");
                 MessageM.assistant (lit "Done.")]).
Proof.
  refine (proj1 (trajectory_of_depth Examples.chain 2 2
                   (mkRoot [1] Examples.base)
                   (([] ++ [MessageM.assistant (lit "Add the numbers.")])
                      ++ [MessageM.assistant (lit "Done.")]) 3 _ _)).
  - apply (reaches_up Examples.chain 2
             (Examples.step_obj [] 1 "Done." "8" false) 1);
      [vm_compute; reflexivity|].
    apply (reaches_up Examples.chain 1
             (Examples.step_obj [2] 0 "Add the numbers." "5" false) 0);
      [vm_compute; reflexivity|].
    apply reaches_here. vm_compute. reflexivity.
  - lia.
Defined.

(** ** Scores never fail *)

Section Scores.
Context `{!PyRuntime}.

Lemma score_try_raises content e :
  ScoreMessageM.score_try content = Raise e -> e = ValueError \/ e = IndexError.
Proof.
  unfold ScoreMessageM.score_try.
  repeat case_match; intros; simplify_eq; auto.
Qed.

Lemma score_try_terminates content :
  ScoreMessageM.score_try content <> Diverge /\
  ScoreMessageM.score_try content <> Dangling.
Proof.
  unfold ScoreMessageM.score_try. split; repeat case_match; discriminate.
Qed.

Lemma score_message_returns (m : ScoreMessage) :
  exists x, ScoreMessageM.score m = Return x.
Proof.
  unfold ScoreMessageM.score, ScoreMessageM.score_echo.
  destruct (score_try_terminates (content m)) as [Hd Hg].
  destruct (ScoreMessageM.score_try (content m)) as [x|e| |] eqn:E;
    [eauto| |contradiction|contradiction].
  destruct (score_try_raises _ _ E) as [-> | ->]; cbn; eauto.
Qed.

Lemma step_score_returns (s : Step) : exists x, StepM.score s = Return x.
Proof.
  destruct s as [r|s]; cbn; [eauto|]. apply score_message_returns.
Qed.

End Scores.

(** ** Priority order *)

Lemma SFcompare_antisym (x y : float) :
  SFcompare y x = CompOpp <$> SFcompare x y.
Proof.
  destruct x as [sx|sx| |sx mx ex], y as [sy|sy| |sy my ey]; cbn;
    try reflexivity; try (destruct sx; reflexivity);
    try (destruct sy; reflexivity);
    try (destruct sx, sy; reflexivity).
  pose proof (Pos.compare_antisym mx my) as Hm. unfold Pos.compare in Hm.
  destruct sx, sy; cbn; try reflexivity;
    rewrite (Z.compare_antisym ey ex);
    destruct (ey ?= ex)%Z; cbn; try reflexivity;
    rewrite Hm; reflexivity.
Qed.

Lemma ltb_asym (x y : float) :
  PyFloat.ltb x y = true -> PyFloat.ltb y x = false.
Proof.
  unfold PyFloat.ltb, SFltb. rewrite (SFcompare_antisym x y).
  destruct (SFcompare x y) as [[]|]; cbn; congruence.
Qed.

(** ** The order of floats *)

Lemma ltb_irrefl (x : float) : PyFloat.ltb x x = false.
Proof.
  unfold PyFloat.ltb, SFltb.
  destruct x as [[]|[]| |[] m e]; cbn; try reflexivity; compare_cases.
Qed.

Lemma ltb_trans (x y z : float) :
  PyFloat.ltb x y = true -> PyFloat.ltb y z = true -> PyFloat.ltb x z = true.
Proof.
  unfold PyFloat.ltb, SFltb.
  destruct x as [[]|[]| |[] mx ex], y as [[]|[]| |[] my ey],
    z as [[]|[]| |[] mz ez]; cbn; intros Hxy Hyz;
    try discriminate; try reflexivity; compare_cases.
Qed.

(** Whatever lies between two floats in order is above the lower one or
    below the upper one, unless it is NaN. *)
Lemma ltb_between (x y z : float) :
  is_nan y = false -> PyFloat.ltb x z = true ->
  PyFloat.ltb x y = true \/ PyFloat.ltb y z = true.
Proof.
  unfold PyFloat.ltb, SFltb.
  destruct x as [[]|[]| |[] mx ex], y as [[]|[]| |[] my ey],
    z as [[]|[]| |[] mz ez]; cbn; intros Hy Hxz;
    try discriminate; auto; compare_cases; auto.
Qed.

Lemma eqb_of_not_ltb (x y : float) :
  is_nan x = false -> is_nan y = false ->
  PyFloat.ltb x y = false -> PyFloat.ltb y x = false -> PyFloat.eqb x y = true.
Proof.
  unfold PyFloat.ltb, PyFloat.eqb, SFltb, SFeqb.
  destruct x as [[]|[]| |[] mx ex], y as [[]|[]| |[] my ey]; cbn;
    intros Hx Hy Hxy Hyx; try discriminate; try reflexivity; compare_cases.
Qed.

Lemma ltb_eqb_l (x y z : float) :
  PyFloat.eqb x y = true -> PyFloat.ltb x z = PyFloat.ltb y z.
Proof.
  unfold PyFloat.ltb, PyFloat.eqb, SFltb, SFeqb.
  destruct x as [[]|[]| |[] mx ex], y as [[]|[]| |[] my ey],
    z as [[]|[]| |[] mz ez]; cbn; intros Hxy;
    try discriminate; try reflexivity; compare_cases.
Qed.

Lemma eqb_trans (x y z : float) :
  PyFloat.eqb x y = true -> PyFloat.eqb y z = true -> PyFloat.eqb x z = true.
Proof.
  unfold PyFloat.eqb, SFeqb.
  destruct x as [[]|[]| |[] mx ex], y as [[]|[]| |[] my ey],
    z as [[]|[]| |[] mz ez]; cbn; intros Hxy Hyz;
    try discriminate; try reflexivity; compare_cases.
Qed.

Lemma eqb_sym (x y : float) : PyFloat.eqb x y = PyFloat.eqb y x.
Proof.
  unfold PyFloat.eqb, SFeqb. rewrite (SFcompare_antisym y x).
  now destruct (SFcompare y x) as [[]|].
Qed.

Lemma gtb_between (a b c : float) :
  is_nan b = false -> PyFloat.gtb a c = true ->
  PyFloat.gtb a b = true \/ PyFloat.gtb b c = true.
Proof.
  intros Hb Hac. destruct (ltb_between c b a Hb Hac); auto.
Qed.

Lemma gtb_trans (a b c : float) :
  PyFloat.gtb a b = true -> PyFloat.gtb b c = true -> PyFloat.gtb a c = true.
Proof. intros Hab Hbc. exact (ltb_trans c b a Hbc Hab). Qed.

(** ** The heap order *)

Section HeapOrder.
Context {A : Type}.
Variable lt : A -> A -> outcome bool.
(** [below a b] is what [a < b] returns; [ok] holds of the items whose
    comparisons are those of a total preorder. *)
Variable below : A -> A -> bool.
Variable ok : A -> Prop.
Hypothesis lt_below : forall a b, lt a b = Return (below a b).
Hypothesis below_asym : forall a b, below a b = true -> below b a = false.
Hypothesis below_trans :
  forall a b c, below a b = true -> below b c = true -> below a c = true.
Hypothesis below_between :
  forall a b c, ok b -> below a c = true -> below a b = true \/ below b c = true.

Lemma below_irrefl (a : A) : below a a = false.
Proof.
  destruct (below a a) eqn:E; [|reflexivity].
  now rewrite (below_asym a a E) in E.
Qed.

(** [a] is not above [b] and [b] is not above [c]: then [a] is not above
    [c]. *)
Lemma not_below_trans (a b c : A) :
  ok b -> below b a = false -> below c b = false -> below c a = false.
Proof.
  intros Hb Hba Hcb. destruct (below c a) eqn:E; [|reflexivity].
  destruct (below_between c b a Hb E); congruence.
Qed.

Lemma siftdown_loop_spec (fuel : nat) :
  forall heap pos newitem,
    pos < fuel -> pos < length heap -> Forall ok heap ->
    ordered_around below heap pos ->
    (forall c x, 0 < c -> (c - 1) / 2 = pos -> heap !! c = Some x ->
                 below x newitem = false) ->
    exists heap',
      heapq.siftdown_loop lt fuel heap 0 pos newitem = Return heap' /\
      heap_ordered below heap' /\ heap' ≡ₚ <[pos := newitem]> heap.
Proof.
  induction fuel as [|fuel IH]; intros heap pos newitem Hfuel Hpos Hok [H1 H3] H2;
    [lia|].
  cbn [heapq.siftdown_loop].
  destruct (Nat.ltb_spec 0 pos) as [Hp|Hp].
  - parent_of pos.
    destruct (lookup_lt_is_Some_2 heap ((pos - 1) / 2)) as [up Hup]; [lia|].
    assert (Hokup : ok up) by (rewrite Forall_lookup in Hok; eauto).
    rewrite Hup, lt_below. cbn [mbind outcome_bind].
    destruct (below newitem up) eqn:Eb.
    + destruct (IH (<[pos := up]> heap) ((pos - 1) / 2) newitem)
        as (heap' & -> & Hord & Hperm).
      * lia.
      * rewrite length_insert. lia.
      * now apply Forall_insert.
      * split.
        -- intros i x p Hi Hne1 Hne2 Hx Hpar.
           destruct (decide (i = pos)) as [->|Hip]; [congruence|].
           rewrite list_lookup_insert_ne in Hx by done.
           destruct (decide ((i - 1) / 2 = pos)) as [Hpi|Hpi].
           ++ rewrite Hpi, list_lookup_insert_eq in Hpar by lia.
              injection Hpar as <-. now apply (H3 i x up).
           ++ rewrite list_lookup_insert_ne in Hpar by done.
              now apply (H1 i x p).
        -- intros c x g Hpp Hc Hcp Hx Hg.
           parent_of ((pos - 1) / 2).
           rewrite list_lookup_insert_ne in Hg by lia.
           assert (Hgup : below up g = false)
             by (apply (H1 ((pos - 1) / 2) up g); auto; lia).
           destruct (decide (c = pos)) as [->|Hcpos].
           ++ rewrite list_lookup_insert_eq in Hx by lia. now injection Hx as <-.
           ++ rewrite list_lookup_insert_ne in Hx by done.
              apply (not_below_trans g up x Hokup Hgup).
              apply (H1 c x up); auto; [lia|now rewrite Hcp].
      * intros c x Hc Hcp Hx.
        destruct (decide (c = pos)) as [->|Hcpos].
        -- rewrite list_lookup_insert_eq in Hx by lia. injection Hx as <-.
           now apply below_asym.
        -- rewrite list_lookup_insert_ne in Hx by done.
           assert (Hxup : below x up = false)
             by (apply (H1 c x up); auto; [lia|now rewrite Hcp]).
           destruct (below x newitem) eqn:E; [|reflexivity].
           now rewrite (below_trans x newitem up E Eb) in Hxup.
      * exists heap'. split; [reflexivity|]. split; [exact Hord|].
        rewrite Hperm.
        rewrite <- (list_insert_insert_eq heap pos up newitem).
        apply Permutation_insert_swap.
        -- apply list_lookup_insert_eq. lia.
        -- rewrite list_lookup_insert_ne by lia. exact Hup.
    + eexists. split; [reflexivity|]. split; [|reflexivity].
      intros i x p Hi Hx Hpar.
      destruct (decide (i = pos)) as [->|Hip].
      * rewrite list_lookup_insert_eq in Hx by lia. injection Hx as <-.
        rewrite list_lookup_insert_ne in Hpar by lia. congruence.
      * rewrite list_lookup_insert_ne in Hx by done.
        destruct (decide ((i - 1) / 2 = pos)) as [Hpi|Hpi].
        -- rewrite Hpi, list_lookup_insert_eq in Hpar by lia.
           injection Hpar as <-. now apply (H2 i x).
        -- rewrite list_lookup_insert_ne in Hpar by done. now apply (H1 i x p).
  - assert (pos = 0) as -> by lia.
    eexists. split; [reflexivity|]. split; [|reflexivity].
    intros i x p Hi Hx Hpar.
    rewrite list_lookup_insert_ne in Hx by lia.
    destruct (decide ((i - 1) / 2 = 0)) as [Hpi|Hpi].
    + rewrite Hpi, list_lookup_insert_eq in Hpar by lia.
      injection Hpar as <-. now apply (H2 i x).
    + rewrite list_lookup_insert_ne in Hpar by done.
      apply (H1 i x p); auto. lia.
Qed.


Lemma siftdown_spec (heap : list A) (pos : nat) (newitem : A) :
  heap !! pos = Some newitem -> Forall ok heap ->
  ordered_around below heap pos ->
  (forall c, 0 < c -> (c - 1) / 2 = pos -> length heap <= c) ->
  exists heap',
    heapq._siftdown lt heap 0 pos = Return heap' /\
    heap_ordered below heap' /\ heap' ≡ₚ heap.
Proof.
  intros Hnew Hok Haround Hleaf. unfold heapq._siftdown. rewrite Hnew.
  pose proof (lookup_lt_Some _ _ _ Hnew) as Hpos.
  destruct (siftdown_loop_spec (S (length heap)) heap pos newitem)
    as (heap' & -> & Hord & Hperm); auto.
  - intros c x Hc Hcp Hx. apply lookup_lt_Some in Hx.
    specialize (Hleaf c Hc Hcp). lia.
  - exists heap'. split; [reflexivity|]. split; [exact Hord|].
    now rewrite Hperm, list_insert_id.
Qed.

(** [heappush] keeps the heap order and adds the item. *)
Lemma heappush_spec (heap : list A) (item : A) :
  heap_ordered below heap -> Forall ok heap -> ok item ->
  exists heap',
    heapq.heappush lt heap item = Return heap' /\
    heap_ordered below heap' /\ heap' ≡ₚ item :: heap.
Proof.
  intros Hord Hok Hitem. unfold heapq.heappush.
  destruct (siftdown_spec (heap ++ [item]) (length heap) item)
    as (heap' & -> & Hord' & Hperm).
  - now apply list_lookup_middle.
  - apply Forall_app. split; [exact Hok|]. now constructor.
  - split.
    + intros i x p Hi Hne1 Hne2 Hx Hpar.
      assert (i < length heap).
      { apply lookup_lt_Some in Hx. rewrite length_app in Hx. cbn in Hx. lia. }
      parent_of i.
      rewrite lookup_app_l in Hx, Hpar by lia. now apply (Hord i x p).
    + intros c x g Hpos Hc Hcp Hx Hg.
      apply lookup_lt_Some in Hx. rewrite length_app in Hx. cbn in Hx.
      parent_of c. lia.
  - intros c Hc Hcp. rewrite length_app. cbn. parent_of c. lia.
  - exists heap'. split; [reflexivity|]. split; [exact Hord'|].
    rewrite Hperm. apply Permutation_app_comm.
Qed.

Lemma siftup_loop_spec (fuel : nat) :
  forall heap pos,
    length heap < fuel + pos -> pos < length heap -> Forall ok heap ->
    ordered_around below heap pos ->
    exists heap' pos',
      heapq.siftup_loop lt fuel heap (length heap) pos (2 * pos + 1)
        = Return (heap', pos') /\
      pos' < length heap' /\ length heap' <= 2 * pos' + 1 /\
      Forall ok heap' /\ ordered_around below heap' pos' /\
      forall newitem, <[pos' := newitem]> heap' ≡ₚ <[pos := newitem]> heap.
Proof.
  induction fuel as [|fuel IH]; intros heap pos Hfuel Hpos Hok [H1 H3]; [lia|].
  cbn [heapq.siftup_loop].
  destruct (Nat.ltb_spec (2 * pos + 1) (length heap)) as [Hc|Hc];
    [|exists heap, pos; repeat split; auto; lia].
  destruct (lookup_lt_is_Some_2 heap (2 * pos + 1)) as [l Hl]; [lia|].
  (* the position of the smaller child, with the child and its sibling *)
  assert (exists c child,
            (if 2 * pos + 1 + 1 <? length heap
             then match heap !! (2 * pos + 1), heap !! (2 * pos + 1 + 1) with
                  | Some l, Some r =>
                      b ← lt l r;
                      Return (if (b : bool) then 2 * pos + 1 else 2 * pos + 1 + 1)
                  | _, _ => Raise IndexError
                  end
             else Return (2 * pos + 1)) = Return c /\
            heap !! c = Some child /\ (c - 1) / 2 = pos /\ 0 < c /\
            forall c' x, 0 < c' -> (c' - 1) / 2 = pos -> heap !! c' = Some x ->
                         below x child = false)
    as (c & child & -> & Hchild & Hcp & Hc0 & Hleast).
  { destruct (Nat.ltb_spec (2 * pos + 1 + 1) (length heap)) as [Hr|Hr].
    - destruct (lookup_lt_is_Some_2 heap (2 * pos + 1 + 1)) as [r Hr']; [lia|].
      rewrite Hl, Hr', lt_below. cbn [mbind outcome_bind].
      destruct (below l r) eqn:E.
      + exists (2 * pos + 1), l. split; [reflexivity|]. split; [exact Hl|].
        parent_of (2 * pos + 1). split; [lia|]. split; [lia|].
        intros c' x Hc' Hcp' Hx. parent_of c'.
        assert (c' = 2 * pos + 1 \/ c' = 2 * pos + 1 + 1) as [-> | ->] by lia.
        * rewrite Hl in Hx. injection Hx as <-. apply below_irrefl.
        * rewrite Hr' in Hx. injection Hx as <-. now apply below_asym.
      + exists (2 * pos + 1 + 1), r. split; [reflexivity|]. split; [exact Hr'|].
        parent_of (2 * pos + 1 + 1). split; [lia|]. split; [lia|].
        intros c' x Hc' Hcp' Hx. parent_of c'.
        assert (c' = 2 * pos + 1 \/ c' = 2 * pos + 1 + 1) as [-> | ->] by lia.
        * rewrite Hl in Hx. now injection Hx as <-.
        * rewrite Hr' in Hx. injection Hx as <-. apply below_irrefl.
    - exists (2 * pos + 1), l. split; [reflexivity|]. split; [exact Hl|].
      parent_of (2 * pos + 1). split; [lia|]. split; [lia|].
      intros c' x Hc' Hcp' Hx. parent_of c'. apply lookup_lt_Some in Hx as Hlt.
      assert (c' = 2 * pos + 1) as -> by lia.
      rewrite Hl in Hx. injection Hx as <-. apply below_irrefl. }
  cbn [mbind outcome_bind]. rewrite Hchild.
  parent_of c. pose proof (lookup_lt_Some _ _ _ Hchild) as Hclen.
  assert (Hokc : ok child) by (rewrite Forall_lookup in Hok; eauto).
  destruct (IH (<[pos := child]> heap) c) as (heap' & pos' & E & IH');
    [rewrite length_insert; lia|rewrite length_insert; lia|
     now apply Forall_insert| |].
  - split.
    + intros i x p Hi Hne1 Hne2 Hx Hpar.
      destruct (decide (i = pos)) as [->|Hip].
      * rewrite list_lookup_insert_eq in Hx by lia. injection Hx as <-.
        parent_of pos. rewrite list_lookup_insert_ne in Hpar by lia.
        now apply (H3 c child p).
      * rewrite list_lookup_insert_ne in Hx by done.
        destruct (decide ((i - 1) / 2 = pos)) as [Hpi|Hpi].
        -- rewrite Hpi, list_lookup_insert_eq in Hpar by lia.
           injection Hpar as <-. now apply (Hleast i x).
        -- rewrite list_lookup_insert_ne in Hpar by done. now apply (H1 i x p).
    + intros d x g _ Hd Hdc Hx Hg.
      rewrite Hcp, list_lookup_insert_eq in Hg by lia. injection Hg as <-.
      parent_of d. rewrite list_lookup_insert_ne in Hx by lia.
      apply (H1 d x child); auto; [lia|lia|now rewrite Hdc].
  - rewrite length_insert in E. replace (2 * c + 1) with (2 * c + 1) in E by lia.
    rewrite E. exists heap', pos'.
    destruct IH' as (Hp' & Hleaf & Hok' & Haround & Hperm).
    split; [reflexivity|]. repeat split; auto; try apply Haround.
    intros newitem. rewrite Hperm.
    rewrite <- (list_insert_insert_eq heap pos child newitem).
    apply Permutation_insert_swap.
    + apply list_lookup_insert_eq. lia.
    + rewrite list_lookup_insert_ne by lia. exact Hchild.
Qed.

Lemma ordered_around_insert (heap : list A) (pos : nat) (x : A) :
  ordered_around below heap pos -> ordered_around below (<[pos := x]> heap) pos.
Proof.
  intros [H1 H3]. split.
  - intros i y p Hi Hne1 Hne2 Hy Hp.
    rewrite list_lookup_insert_ne in Hy, Hp by done. now apply (H1 i y p).
  - intros c y g Hpos Hc Hcp Hy Hg. parent_of c. parent_of pos.
    rewrite list_lookup_insert_ne in Hy, Hg by lia. now apply (H3 c y g).
Qed.

Lemma siftup_spec (heap : list A) (newitem : A) :
  heap !! 0 = Some newitem -> Forall ok heap ->
  ordered_around below heap 0 ->
  exists heap',
    heapq._siftup lt heap 0 = Return heap' /\
    heap_ordered below heap' /\ heap' ≡ₚ heap.
Proof.
  intros Hnew Hok Haround. unfold heapq._siftup. rewrite Hnew.
  pose proof (lookup_lt_Some _ _ _ Hnew) as Hlen.
  destruct (siftup_loop_spec (S (length heap)) heap 0)
    as (heap' & pos' & E & Hpos' & Hleaf & Hok' & Haround' & Hperm);
    [lia|lia|exact Hok|exact Haround|].
  rewrite E. cbn [mbind outcome_bind].
  destruct (siftdown_spec (<[pos' := newitem]> heap') pos' newitem)
    as (heap'' & E' & Hord & Hperm').
  - now apply list_lookup_insert_eq.
  - apply Forall_insert; [exact Hok'|]. rewrite Forall_lookup in Hok. eauto.
  - now apply ordered_around_insert.
  - intros c Hc Hcp. rewrite length_insert. parent_of c. lia.
  - exists heap''. split; [exact E'|]. split; [exact Hord|].
    now rewrite Hperm', Hperm, list_insert_id.
Qed.

(** [heappop] returns the first item of the heap and keeps the heap order
    among the others. *)
Lemma heappop_spec (heap : list A) :
  heap_ordered below heap -> Forall ok heap -> heap <> [] ->
  exists top heap',
    heapq.heappop lt heap = Return (top, heap') /\
    heap !! 0 = Some top /\ heap_ordered below heap' /\ top :: heap' ≡ₚ heap.
Proof.
  intros Hord Hok Hne. unfold heapq.heappop.
  destruct (exists_last Hne) as (init & lastelt & ->).
  rewrite last_snoc, removelast_last.
  destruct init as [|returnitem rest].
  - exists lastelt, []. repeat split; auto. intros i x p _ Hx. discriminate.
  - destruct (siftup_spec (lastelt :: rest) lastelt)
      as (heap' & -> & Hord' & Hperm); [reflexivity| | |].
    + change ((returnitem :: rest) ++ [lastelt])
        with (returnitem :: (rest ++ [lastelt])) in Hok.
      apply Forall_cons in Hok as [_ Hok]. apply Forall_app in Hok as [Hr Hl].
      apply Forall_cons. split; [|exact Hr]. now inversion Hl.
    + split; [|intros; lia].
      intros i x p Hi Hne1 Hne2 Hx Hp. apply (Hord i x p); [exact Hi| |].
      * destruct i as [|i]; [lia|]. now apply (lookup_app_l_Some rest).
      * destruct ((i - 1) / 2) as [|j]; [lia|].
        now apply (lookup_app_l_Some rest).
    + exists returnitem, heap'. split; [reflexivity|].
      split; [reflexivity|]. split; [exact Hord'|].
      rewrite Hperm. cbn. apply Permutation_skip, Permutation_cons_append.
Qed.

(** In heap order, no item is less than the first one. *)
Lemma root_least (heap : list A) (top : A) :
  heap_ordered below heap -> Forall ok heap -> heap !! 0 = Some top ->
  forall i y, heap !! i = Some y -> below y top = false.
Proof.
  intros Hord Hok Htop i.
  induction i as [i IH] using lt_wf_ind. intros y Hy.
  destruct (Nat.ltb_spec 0 i) as [Hi|Hi].
  - parent_of i. pose proof (lookup_lt_Some _ _ _ Hy) as Hlen.
    destruct (lookup_lt_is_Some_2 heap ((i - 1) / 2)) as [p Hp]; [lia|].
    apply (not_below_trans top p y).
    + rewrite Forall_lookup in Hok. eauto.
    + apply (IH ((i - 1) / 2)); [lia|exact Hp].
    + now apply (Hord i y p).
  - assert (i = 0) as -> by lia. rewrite Htop in Hy. injection Hy as <-.
    apply below_irrefl.
Qed.

(** What [heappush] and [heappop] make from the empty list is in heap
    order. *)
Lemma queue_of_ordered (heap : list A) :
  queue_of lt ok heap -> heap_ordered below heap /\ Forall ok heap.
Proof.
  induction 1 as [|heap item heap' _ [Hord Hok] Hitem E
                  |heap item heap' _ [Hord Hok] E].
  - split; [|constructor]. intros i x p _ Hx. discriminate.
  - destruct (heappush_spec heap item Hord Hok Hitem) as (h & E' & Hord' & Hperm).
    rewrite E in E'. injection E' as <-. split; [exact Hord'|].
    rewrite Hperm. now constructor.
  - destruct heap as [|a heap]; [discriminate|].
    destruct (heappop_spec (a :: heap) Hord Hok) as (t & h & E' & _ & Hord' & Hperm);
      [discriminate|].
    rewrite E in E'. injection E' as <- <-. split; [exact Hord'|].
    rewrite <- Hperm in Hok. now apply Forall_cons in Hok as [_ Hok].
Qed.

End HeapOrder.

(** Queues of items compared by their scores, as steps and score messages
    are. *)
Section ScoreQueue.
Context {A : Type}.
Variable score : A -> outcome float.
Variable lt : A -> A -> outcome bool.
Hypothesis score_returns : forall a, exists x, score a = Return x.
Hypothesis lt_score :
  forall a b, lt a b = (x ← score a; y ← score b; Return (PyFloat.gtb x y)).

Lemma queue_pops_a_highest (queue : list A) :
  queue_of lt (numbered score) queue -> priority_queue score lt queue.
Proof.
  set (key := fun a => match score a with Return x => x | _ => PyFloat.zero end).
  set (below := fun a b => PyFloat.gtb (key a) (key b)).
  assert (Hkey : forall a x, score a = Return x -> key a = x).
  { intros a x E. unfold key. now rewrite E. }
  assert (lt_below : forall a b, lt a b = Return (below a b)).
  { intros a b. rewrite lt_score. unfold below.
    destruct (score_returns a) as [x Hx], (score_returns b) as [y Hy].
    rewrite (Hkey _ _ Hx), (Hkey _ _ Hy), Hx, Hy. reflexivity. }
  assert (below_asym : forall a b, below a b = true -> below b a = false).
  { intros a b. apply ltb_asym. }
  assert (below_trans : forall a b c,
             below a b = true -> below b c = true -> below a c = true).
  { intros a b c. apply gtb_trans. }
  assert (below_between : forall a b c,
             numbered score b -> below a c = true ->
             below a b = true \/ below b c = true).
  { intros a b c (y & Hy & Hnan). apply gtb_between.
    now rewrite (Hkey _ _ Hy). }
  intros Hqueue. unfold priority_queue.
  destruct (queue_of_ordered lt below (numbered score) lt_below below_asym
              below_trans below_between queue Hqueue) as [Hord Hok].
  split.
  - intros item Hitem.
    destruct (heappush_spec lt below (numbered score) lt_below below_asym
                below_trans below_between queue item Hord Hok Hitem)
      as (queue' & E & _ & Hperm).
    eauto.
  - intros Hne.
    destruct (heappop_spec lt below (numbered score) lt_below below_asym
                below_trans below_between queue Hord Hok Hne)
      as (top & queue' & E & Htop & _ & Hperm).
    exists top, queue'. split; [exact E|]. split; [exact Hperm|].
    intros item x y Hin Hx Hy.
    apply list_elem_of_lookup in Hin as [i Hi].
    pose proof (root_least below (numbered score) below_asym below_between
                  queue top Hord Hok Htop i item Hi) as Hleast.
    unfold below in Hleast. now rewrite (Hkey _ _ Hx), (Hkey _ _ Hy) in Hleast.
Qed.

End ScoreQueue.

(** ** A queue by score *)

Section Priority.
Context `{!PyRuntime}.

(** C9, amended: [a < b] is [a.score > b.score], for steps and for score
    messages alike. A queue that [heappush] and [heappop] make from the
    empty list with this comparison, of items whose scores are numbers
    (none is NaN), takes every such item and pops an item of the highest
    score: no item in the queue scores above the one that [heappop]
    returns. When the score of [a] is below the score of [b], the queue of
    the two pops [b] first, whichever was pushed first. *)
Theorem heap_pops_a_highest_score (a b : Step) (m n : ScoreMessage) :
  (exists x y, StepM.score a = Return x /\ StepM.score b = Return y /\
               StepM.__lt__ a b = Return (PyFloat.gtb x y)) /\
  (exists x y, ScoreMessageM.score m = Return x /\
               ScoreMessageM.score n = Return y /\
               ScoreMessageM.__lt__ m n = Return (PyFloat.gtb x y)) /\
  (forall queue : list Step,
     queue_of StepM.__lt__ (numbered StepM.score) queue ->
     priority_queue StepM.score StepM.__lt__ queue) /\
  (forall queue : list ScoreMessage,
     queue_of ScoreMessageM.__lt__ (numbered ScoreMessageM.score) queue ->
     priority_queue ScoreMessageM.score ScoreMessageM.__lt__ queue) /\
  (forall x y, StepM.score a = Return x -> StepM.score b = Return y ->
               PyFloat.ltb x y = true ->
               push_push_pop a b = Return (b, [a]) /\
               push_push_pop b a = Return (b, [a])).
Proof.
  split; [|split; [|split; [|split]]].
  - destruct (step_score_returns a) as [x Hx], (step_score_returns b) as [y Hy].
    exists x, y. unfold StepM.__lt__. rewrite Hx, Hy. auto.
  - destruct (score_message_returns m) as [x Hx],
             (score_message_returns n) as [y Hy].
    exists x, y. unfold ScoreMessageM.__lt__. rewrite Hx, Hy. auto.
  - intros queue. apply queue_pops_a_highest; [apply step_score_returns|].
    reflexivity.
  - intros queue. apply queue_pops_a_highest; [apply score_message_returns|].
    reflexivity.
  - intros x y Hx Hy Hlt.
    assert (Hba : StepM.__lt__ b a = Return true).
    { unfold StepM.__lt__. rewrite Hx, Hy. cbn.
      change (PyFloat.gtb y x) with (PyFloat.ltb x y). now rewrite Hlt. }
    assert (Hab : StepM.__lt__ a b = Return false).
    { unfold StepM.__lt__. rewrite Hx, Hy. cbn.
      change (PyFloat.gtb x y) with (PyFloat.ltb y x).
      now rewrite (ltb_asym _ _ Hlt). }
    unfold push_push_pop, heapq.heappush, heapq._siftdown. cbn.
    rewrite Hba, Hab. cbn. split; reflexivity.
Qed.

End Priority.

Lemma heap_pops_a_highest_score_witness :
  priority_queue StepM.score StepM.__lt__ [Examples.high; Examples.low] /\
  push_push_pop Examples.low Examples.high
  = Return (Examples.high, [Examples.low]).
Proof.
  pose proof (heap_pops_a_highest_score Examples.low Examples.high
                (Examples.score_of_text "3.0") (Examples.score_of_text "8.0"))
    as (_ & _ & Hqueue & _ & Htwo).
  split.
  - apply Hqueue.
    apply (queue_pushed _ _ [Examples.low] Examples.high);
      [|eexists; split; vm_compute; reflexivity|vm_compute; reflexivity].
    apply (queue_pushed _ _ [] Examples.low);
      [constructor|eexists; split; vm_compute; reflexivity
      |vm_compute; reflexivity].
  - apply (Htwo (PyFloat.of_Z 3) (PyFloat.of_Z 8)); vm_compute; reflexivity.
Defined.

(** C9, as it is written, fails: with a score that is NaN in the queue the
    highest score is not popped first. After pushing steps scored 3, NaN, 2
    and 8 in this order, [heappop] returns the step scored 3 and leaves the
    step scored 8, although the step scored 8 is less than it. *)
Lemma nan_score_hides_a_higher_score :
  push_all StepM.__lt__
    [Examples.low; Examples.not_a_number; Examples.lowest; Examples.high]
  = Return [Examples.low; Examples.not_a_number; Examples.lowest;
            Examples.high] /\
  heapq.heappop StepM.__lt__
    [Examples.low; Examples.not_a_number; Examples.lowest; Examples.high]
  = Return (Examples.low,
            [Examples.high; Examples.not_a_number; Examples.lowest]) /\
  StepM.score Examples.low = Return (PyFloat.of_Z 3) /\
  StepM.score Examples.high = Return (PyFloat.of_Z 8) /\
  StepM.score Examples.not_a_number = Return S754_nan /\
  StepM.__lt__ Examples.high Examples.low = Return true /\
  ~ priority_queue StepM.score StepM.__lt__
      [Examples.low; Examples.not_a_number; Examples.lowest; Examples.high].
Proof.
  assert (Epop : heapq.heappop StepM.__lt__
                   [Examples.low; Examples.not_a_number; Examples.lowest;
                    Examples.high]
                 = Return (Examples.low,
                           [Examples.high; Examples.not_a_number;
                            Examples.lowest]))
    by (vm_compute; reflexivity).
  do 6 (split; [vm_compute; reflexivity|]).
  intros [_ Hpop].
  destruct Hpop as (top & rest & Epop' & _ & Hmax); [discriminate|].
  rewrite Epop in Epop'. injection Epop' as <- _.
  assert (Hgt : PyFloat.gtb (PyFloat.of_Z 8) (PyFloat.of_Z 3) = true)
    by reflexivity.
  rewrite (Hmax Examples.high (PyFloat.of_Z 3) (PyFloat.of_Z 8)) in Hgt.
  - discriminate Hgt.
  - repeat constructor.
  - vm_compute. reflexivity.
  - vm_compute. reflexivity.
Qed.

(** ** Substrings *)

Lemma startswith_app (p s : str) : startswith p (p ++ s) = true.
Proof.
  induction p as [|c p IH]; cbn; [reflexivity|].
  now rewrite N.eqb_refl, IH.
Qed.

Lemma startswith_spec (p s : str) :
  startswith p s = true <-> exists q, s = p ++ q.
Proof.
  split.
  - revert s. induction p as [|c p IH]; intros s H; [now exists s|].
    destruct s as [|c' s]; [discriminate|]. cbn in H.
    apply andb_true_iff in H as [Hc Hp]. apply N.eqb_eq in Hc as ->.
    destruct (IH _ Hp) as [q ->]. now exists q.
  - intros [q ->]. apply startswith_app.
Qed.

Lemma contains_startswith (sub s : str) :
  startswith sub s = true -> contains sub s = true.
Proof. intros H. destruct s; cbn; now rewrite H. Qed.

Lemma contains_spec (sub s : str) :
  contains sub s = true <-> exists pre post, s = pre ++ sub ++ post.
Proof.
  split.
  - induction s as [|c s IH]; cbn; intros H.
    + rewrite orb_false_r in H. apply startswith_spec in H as [q Hq].
      now exists [], q.
    + apply orb_true_iff in H as [H|H].
      * apply startswith_spec in H as [q Hq]. now exists [], q.
      * destruct (IH H) as (pre & post & ->). now exists (c :: pre), post.
  - intros (pre & post & ->). induction pre as [|c pre IH]; cbn.
    + apply contains_startswith, startswith_app.
    + now rewrite IH, orb_true_r.
Qed.

Lemma contains_app (sub pre post : str) : contains sub (pre ++ sub ++ post) = true.
Proof. apply contains_spec. eauto. Qed.

(** ** The terminal check *)

Section Terminal.
Context `{!PyRuntime}.

Lemma upper_app (a b : str) : upper (a ++ b) = upper a ++ upper b.
Proof. unfold upper. apply bind_app. Qed.

Lemma upper_in_any_case (marker w : str) :
  Forall (fun c => (c < 128)%N) marker ->
  in_any_case marker w -> upper w = marker.
Proof.
  unfold in_any_case. intros Hascii <-.
  induction w as [|c w IH]; [reflexivity|].
  cbn in Hascii. inversion Hascii as [|c' l Hc Hw]; subst.
  unfold upper in *. cbn. rewrite (IH Hw).
  unfold upper_char.
  assert (Hlt : (c <? 128)%N = true).
  { apply N.ltb_lt. unfold ascii_upper in Hc.
    destruct ((97 <=? c) && (c <=? 122))%N eqn:E; [|exact Hc].
    apply andb_true_iff in E as [_ E]. apply N.leb_le in E. lia. }
  now rewrite Hlt.
Qed.

Lemma TERMINAL_YES_ascii : Forall (fun c => (c < 128)%N) TERMINAL_YES.
Proof. repeat constructor. Qed.

Lemma is_final_cases (m : TerminalCheckMessage) :
  TerminalCheckMessageM.is_final m
  = if contains TERMINAL_YES (upper (content m)) then Return (Some true)
    else if contains TERMINAL_NO (upper (content m)) then Return (Some false)
    else Return None.
Proof.
  unfold TerminalCheckMessageM.is_final, TerminalCheckMessageM.is_final_echo,
    TerminalCheckMessageM.is_final_try.
  fold TERMINAL_YES TERMINAL_NO.
  destruct (contains TERMINAL_YES (upper (content m))),
    (contains TERMINAL_NO (upper (content m))); reflexivity.
Qed.

(** C10: [is_final] looks for [TERMINAL: YES] first, in the upper-cased
    content: as soon as it is there the result is [True], whatever else
    the content holds, [TERMINAL: NO] included, and in whatever case the
    letters of the marker were written; with [TERMINAL: NO] alone the
    result is [False]; with neither marker it is [None], not [False]. *)
Theorem is_final_yes_first (m : TerminalCheckMessage) :
  (contains TERMINAL_YES (upper (content m)) = true ->
   TerminalCheckMessageM.is_final m = Return (Some true)) /\
  (forall pre w post,
     content m = pre ++ w ++ post -> in_any_case TERMINAL_YES w ->
     TerminalCheckMessageM.is_final m = Return (Some true)) /\
  (contains TERMINAL_YES (upper (content m)) = false ->
   contains TERMINAL_NO (upper (content m)) = true ->
   TerminalCheckMessageM.is_final m = Return (Some false)) /\
  (contains TERMINAL_YES (upper (content m)) = false ->
   contains TERMINAL_NO (upper (content m)) = false ->
   TerminalCheckMessageM.is_final m = Return None /\
   TerminalCheckMessageM.is_final m <> Return (Some false)).
Proof.
  rewrite is_final_cases. split; [|split; [|split]].
  - now intros ->.
  - intros pre w post Hc Hw.
    rewrite Hc, !upper_app, (upper_in_any_case _ _ TERMINAL_YES_ascii Hw).
    now rewrite contains_app.
  - now intros -> ->.
  - intros -> ->. split; [reflexivity|discriminate].
Qed.

End Terminal.

Lemma is_final_yes_first_witness :
  let m := MessageM.assistant (lit "Terminal: no? No. terminal: Yes") in
  TerminalCheckMessageM.is_final m = Return (Some true).
Proof.
  refine (proj1 (proj2 (is_final_yes_first
                          (MessageM.assistant (lit "Terminal: no? No. terminal: Yes"))))
            (lit "Terminal: no? No. ") (lit "terminal: Yes") [] _ _);
    vm_compute; reflexivity.
Defined.

(** ** Message dictionaries *)

Section Dictionaries.
Context `{!PyRuntime}.

Lemma role_of_str_role_str (r : Role) : role_of_str (role_str r) = Some r.
Proof. destruct r; vm_compute; reflexivity. Qed.

Lemma for_each_map {A B} (f : A -> outcome B) (g : A -> B) (l : list A) :
  Forall (fun a => f a = Return (g a)) l ->
  ConversationM.for_each f l = Return (map g l).
Proof.
  induction 1 as [|a l Ha Hl IH]; cbn; [reflexivity|].
  now rewrite Ha, IH.
Qed.

(** Validation gives back the message a dictionary was made from. *)
Lemma validate_to_dict (m : Message) :
  validate_message (to_dict m)
  = Return (mkMessage MessageC (role m) (content m) (name m) (weight m)).
Proof.
  unfold validate_message, to_dict, model_dump_exclude_defaults.
  destruct m as [t r c n w]; cbn [role content name weight].
  destruct n as [n|], (w =? 1)%Z eqn:Ew; simplify_map_eq;
    rewrite ?role_of_str_role_str; try reflexivity;
    apply Z.eqb_eq in Ew; now subst.
Qed.

Lemma to_mmd_plain (c : Conversation) :
  Forall (fun m => type_of m = MessageC) (messages c) ->
  ConversationM.to_mmd c = Return (map to_dict (messages c)).
Proof.
  intros Hplain. unfold ConversationM.to_mmd. apply for_each_map.
  eapply Forall_impl; [exact Hplain|]. cbn. now intros m ->.
Qed.

(** Every key of a dumped message is a field of [Message]. *)
Lemma dump_keeps_fields (m : Message) :
  filter (fun kv => kv.1 ∈ model_fields) (model_dump_exclude_defaults m)
  = model_dump_exclude_defaults m.
Proof.
  apply map_filter_id. intros k v Hk. cbn.
  unfold model_dump_exclude_defaults in Hk.
  destruct (name m), (weight m =? 1)%Z;
    repeat (apply lookup_insert_Some in Hk as [[<- _]|[_ Hk]];
            [unfold model_fields; set_solver|]);
    now rewrite lookup_empty in Hk.
Qed.

(** Whatever the classes of its messages, [to_mmd] gives the dictionaries
    of their [Message] fields. *)
Lemma to_mmd_any (c : Conversation) :
  ConversationM.to_mmd c = Return (map to_dict (messages c)).
Proof.
  unfold ConversationM.to_mmd. apply for_each_map.
  apply Forall_forall. intros m _.
  destruct (type_of m); [reflexivity| |];
    rewrite dump_keeps_fields; fold (to_dict m); now rewrite validate_to_dict.
Qed.

Lemma from_mmd_to_dict (c : Conversation) :
  Forall (fun m => type_of m = MessageC) (messages c) ->
  ConversationM.from_mmd (map to_dict (messages c)) = Return c.
Proof.
  intros Hplain. unfold ConversationM.from_mmd.
  assert (E : ConversationM.for_each validate_message (map to_dict (messages c))
              = Return (messages c)).
  { induction Hplain as [|m l Hm Hl IH]; cbn; [reflexivity|].
    rewrite validate_to_dict, IH. cbn. destruct m; cbn in Hm; now subst. }
  rewrite E. now destruct c.
Qed.

Lemma not_model_field (k : string) :
  k <> "role"%string -> k <> "content"%string -> k <> "name"%string ->
  k <> "weight"%string -> k ∉ model_fields.
Proof.
  intros H1 H2 H3 H4 Hin. unfold model_fields in Hin.
  repeat (apply elem_of_cons in Hin as [Hin|Hin]; [congruence|]).
  now apply elem_of_nil in Hin.
Qed.

(** A schema dictionary validates, and the message it gives dumps to the
    minimal form of the dictionary. *)
Lemma validate_valid_dict (d : dict) :
  valid_message_dict d ->
  exists m, validate_message d = Return m /\ type_of m = MessageC /\
            to_dict m = minimal_form d.
Proof.
  intros ([r Hr] & [c Hc] & Hn & Hw & Hother).
  assert (Hkeys : forall k, k <> "role"%string -> k <> "content"%string ->
                            k <> "name"%string -> k <> "weight"%string ->
                            d !! k = None).
  { intros k H1 H2 H3 H4. now apply Hother, not_model_field. }
  unfold validate_message. rewrite Hr, Hc, role_of_str_role_str.
  destruct Hn as [Hn|[Hn|[n Hn]]], Hw as [Hw|[w Hw]]; rewrite Hn, Hw;
    (eexists; split; [reflexivity|]; split; [reflexivity|]);
    unfold to_dict, model_dump_exclude_defaults, minimal_form;
    cbn [role content name weight];
    try (destruct (w =? 1)%Z eqn:Ew;
         [apply Z.eqb_eq in Ew; subst w|apply Z.eqb_neq in Ew]);
    apply map_eq; intros k; by_key k;
    repeat case_decide; simplify_map_eq; try congruence; try reflexivity;
    symmetry; now apply Hkeys.
Qed.

End Dictionaries.

(** C6: for a conversation of plain messages, [to_mmd] gives the
    dictionaries of its messages, [from_mmd] of these gives the
    conversation back, and so [from_mmd(c.to_mmd()).to_mmd()] is
    [c.to_mmd()]; and for a dictionary [d] of the message schema,
    [from_mmd([d]).to_mmd()] is the minimal form of [d], without a [name]
    that is unset and without a [weight] of 1. *)
Theorem mmd_round_trip `{!PyRuntime} :
  (forall c, Forall (fun m => type_of m = MessageC) (messages c) ->
     ConversationM.to_mmd c = Return (map to_dict (messages c)) /\
     (ds ← ConversationM.to_mmd c; ConversationM.from_mmd ds) = Return c /\
     (ds ← ConversationM.to_mmd c; c' ← ConversationM.from_mmd ds;
      ConversationM.to_mmd c') = ConversationM.to_mmd c) /\
  (forall d, valid_message_dict d ->
     (c ← ConversationM.from_mmd [d]; ConversationM.to_mmd c)
     = Return [minimal_form d]).
Proof.
  split.
  - intros c Hplain. rewrite (to_mmd_plain c Hplain). cbn.
    rewrite (from_mmd_to_dict c Hplain). cbn.
    rewrite (to_mmd_plain c Hplain). auto.
  - intros d Hvalid.
    destruct (validate_valid_dict d Hvalid) as (m & Hm & Hplain & Hdict).
    unfold ConversationM.from_mmd. cbn. rewrite Hm. cbn.
    unfold ConversationM.to_mmd. cbn. rewrite Hplain. cbn.
    now rewrite Hdict.
Qed.

Lemma mmd_round_trip_witness :
  (ds ← ConversationM.to_mmd Examples.base; c' ← ConversationM.from_mmd ds;
   ConversationM.to_mmd c') = ConversationM.to_mmd Examples.base /\
  (c ← ConversationM.from_mmd [Examples.verbose_dict]; ConversationM.to_mmd c)
  = Return [Examples.minimal_dict].
Proof.
  split.
  - refine (proj2 (proj2 (proj1 mmd_round_trip Examples.base _))).
    repeat constructor.
  - replace Examples.minimal_dict with (minimal_form Examples.verbose_dict)
      by (vm_compute; reflexivity).
    refine (proj2 mmd_round_trip Examples.verbose_dict _).
    repeat split.
    + exists User. vm_compute. reflexivity.
    + exists (lit "hi"). vm_compute. reflexivity.
    + right. left. vm_compute. reflexivity.
    + right. exists 1%Z. vm_compute. reflexivity.
    + intros k Hk. unfold Examples.verbose_dict.
      assert (Hne : forall f, f ∈ model_fields -> f <> k) by (intros f Hf <-; auto).
      rewrite !lookup_insert_ne, lookup_singleton_ne;
        [reflexivity|apply Hne; unfold model_fields; set_solver..].
Defined.

(** ** Finding and splitting *)

Lemma find_startswith (sub s : str) :
  startswith sub s = true -> find sub s = Some 0.
Proof. intros H. destruct s; cbn; now rewrite H. Qed.

Lemma find_None (sub s : str) : find sub s = None <-> contains sub s = false.
Proof.
  induction s as [|c s IH]; cbn.
  - destruct (startswith sub []); cbn; split; congruence.
  - destruct (startswith sub (c :: s)); cbn; [split; congruence|].
    rewrite <- IH. destruct (find sub s); cbn; split; congruence.
Qed.

Lemma leftmost_tail (sep rest : str) (c : N) (pre : str) :
  leftmost sep (c :: pre) rest -> leftmost sep pre rest.
Proof.
  intros Hleft p q Hpq.
  specialize (Hleft (c :: p) q). cbn in Hleft.
  rewrite Hpq in Hleft. specialize (Hleft eq_refl). lia.
Qed.

Lemma find_leftmost (sep pre rest : str) :
  leftmost sep pre rest -> find sep (pre ++ sep ++ rest) = Some (length pre).
Proof.
  induction pre as [|c pre IH]; intros Hleft.
  - apply find_startswith. apply (startswith_app sep rest).
  - cbn. destruct (startswith sep (c :: pre ++ sep ++ rest)) eqn:E.
    + apply startswith_spec in E as [q Hq].
      specialize (Hleft [] q Hq). cbn in Hleft. lia.
    + now rewrite (IH (leftmost_tail _ _ _ _ Hleft)).
Qed.

Lemma find_nil (sep : str) : sep <> [] -> find sep [] = None.
Proof. destruct sep; [congruence|reflexivity]. Qed.

Lemma split_from_enough (sep : str) :
  sep <> [] ->
  forall fuel fuel' s, length s <= fuel -> length s <= fuel' ->
    split_from fuel sep s = split_from fuel' sep s.
Proof.
  intros Hsep.
  assert (Hlen : 1 <= length sep) by (destruct sep; cbn; [congruence|lia]).
  induction fuel as [|fuel IH]; intros fuel' s Hs Hs'.
  - destruct s; [|cbn in Hs; lia].
    destruct fuel'; cbn [split_from]; [reflexivity|].
    now rewrite (find_nil sep Hsep).
  - destruct fuel' as [|fuel'].
    + destruct s; [|cbn in Hs'; lia]. cbn [split_from].
      now rewrite (find_nil sep Hsep).
    + cbn [split_from]. destruct (find sep s) as [i|]; [|reflexivity].
      destruct s as [|c s]; [now rewrite drop_nil, (IH fuel' []) by (cbn; lia)|].
      f_equal. apply IH; rewrite length_drop; cbn in *; lia.
Qed.

Lemma split_cut (sep s : str) (i : nat) :
  sep <> [] -> find sep s = Some i ->
  split sep s = take i s :: split sep (drop (i + length sep) s).
Proof.
  intros Hsep Hfind. unfold split.
  destruct s as [|c s]; [rewrite (find_nil sep Hsep) in Hfind; discriminate|].
  cbn [length split_from]. rewrite Hfind. f_equal.
  assert (1 <= length sep) by (destruct sep; cbn; [congruence|lia]).
  apply split_from_enough; [assumption| |reflexivity].
  rewrite length_drop. cbn. lia.
Qed.

Lemma split_whole (sep s : str) : find sep s = None -> split sep s = [s].
Proof.
  intros Hfind. unfold split. destruct (length s); cbn [split_from];
    [reflexivity|]. now rewrite Hfind.
Qed.

Lemma split_leftmost (sep pre rest : str) :
  sep <> [] -> leftmost sep pre rest ->
  split sep (pre ++ sep ++ rest) = pre :: split sep rest.
Proof.
  intros Hsep Hleft.
  rewrite (split_cut _ _ _ Hsep (find_leftmost _ _ _ Hleft)).
  rewrite take_app_length. f_equal. f_equal.
  rewrite app_assoc.
  apply drop_app_length'. rewrite length_app. lia.
Qed.

(** A separator of one character cannot straddle the end of a piece that
    does not hold it. *)
Lemma leftmost_char (c : N) (pre rest : str) :
  contains [c] pre = false -> leftmost [c] pre rest.
Proof.
  intros Hno p q Hpq.
  destruct (Nat.le_gt_cases (length pre) (length p)) as [|Hlt]; [assumption|].
  exfalso.
  assert (Hc : pre !! length p = Some c).
  { rewrite <- (lookup_app_l pre ([c] ++ rest)) by assumption.
    rewrite Hpq. now apply (list_lookup_middle p q c). }
  apply (take_drop_middle pre) in Hc.
  rewrite <- Hc in Hno.
  change (c :: drop (S (length p)) pre) with ([c] ++ drop (S (length p)) pre) in Hno.
  now rewrite contains_app in Hno.
Qed.

Lemma split_join_lines (lines : list str) :
  lines <> [] ->
  Forall (fun l => contains newline l = false) lines ->
  split newline (join newline lines) = lines.
Proof.
  intros Hne Hlines. induction Hlines as [|l ls Hl Hls IH]; [congruence|].
  destruct ls as [|l2 ls].
  - cbn. apply split_whole. now apply find_None.
  - change (join newline (l :: l2 :: ls))
      with (l ++ newline ++ join newline (l2 :: ls)).
    rewrite split_leftmost; [|discriminate|now apply leftmost_char].
    f_equal. now apply IH.
Qed.

(** ** The score of a message *)

Section ScoreText.
Context `{!PyRuntime}.

Lemma filter_none (lines : list str) :
  Forall (fun l => contains SCORE_MARKER l = false) lines ->
  List.filter (contains SCORE_MARKER) lines = [].
Proof.
  induction 1 as [|l ls Hl Hls IH]; cbn [List.filter]; [reflexivity|].
  now rewrite Hl.
Qed.

(** The line [score_try] picks is the last one that holds the marker. *)
Lemma last_marked_line (content line : str) :
  last_score_line content line ->
  last (List.filter (contains SCORE_MARKER) (split newline content)) = Some line.
Proof.
  intros (before & after & -> & Hlines & Hline & Hafter).
  rewrite split_join_lines by (try assumption; now destruct before).
  rewrite List.filter_app. cbn [List.filter].
  rewrite Hline, (filter_none after Hafter).
  apply last_snoc.
Qed.

(** The second piece of a line cut at the markers. *)
Lemma second_piece (line text : str) :
  score_text line text -> split SCORE_MARKER line !! 1 = Some text.
Proof.
  intros (pre & rest & -> & Hleft & Hrest).
  rewrite split_leftmost by (assumption || discriminate). cbn [lookup list_lookup].
  destruct Hrest as [[-> Hno]|(rest' & -> & Hleft')].
  - rewrite app_nil_r, split_whole; [reflexivity|now apply find_None].
  - now rewrite split_leftmost by (assumption || discriminate).
Qed.

(** C5, amended: [score] never raises; when [line] is the last line of the
    content that holds [Total Score:] and [text] is what follows the first
    marker of that line up to the next marker on it (or up to its end),
    the score is the number [text] parses to, and -1.0 with a diagnostic
    when it does not parse; when no line holds the marker the score is
    -1.0 with a diagnostic. *)
Theorem score_of_last_marked_line (m : ScoreMessage) :
  (exists x, ScoreMessageM.score m = Return x) /\
  (forall line text,
     last_score_line (content m) line -> score_text line text ->
     ScoreMessageM.score_echo m
     = match py_float (strip text) with
       | Some x => (Return x, [])
       | None => (Return PyFloat.minus_one,
                  [ErrorParsingScore ValueError (content m)])
       end) /\
  (no_score_line (content m) ->
   ScoreMessageM.score_echo m
   = (Return PyFloat.minus_one, [ErrorParsingScore IndexError (content m)])).
Proof.
  split; [apply score_message_returns|]. split.
  - intros line text Hline Htext.
    unfold ScoreMessageM.score_echo, ScoreMessageM.score_try.
    rewrite (last_marked_line _ _ Hline), (second_piece _ _ Htext).
    now destruct (py_float (strip text)).
  - intros (lines & Hne & Hc & Hlines & Hnone).
    unfold ScoreMessageM.score_echo, ScoreMessageM.score_try.
    rewrite Hc, split_join_lines, (filter_none lines Hnone) by assumption.
    reflexivity.
Qed.

End ScoreText.

(** C5, as it is written, fails: on a line with two markers the text
    behind the first marker does not parse as a number (nor does the text
    behind the last one), and yet the score is 5.0, not -1.0, and nothing
    is written to the error channel. *)
Lemma text_behind_marker_is_cut :
  let m := MessageM.assistant Examples.two_markers in
  last_score_line (content m) Examples.two_markers /\
  text_after_marker Examples.two_markers (lit " 5 Total Score: x") /\
  py_float (strip (lit " 5 Total Score: x")) = None /\
  py_float (strip (lit " x")) = None /\
  ScoreMessageM.score_echo m = (Return (PyFloat.of_Z 5), []) /\
  ScoreMessageM.score m <> Return PyFloat.minus_one.
Proof.
  cbn zeta. split; [|split; [|split; [|split; [|split]]]].
  - exists [], []. split; [reflexivity|]. split; [|split].
    + repeat constructor.
    + vm_compute. reflexivity.
    + constructor.
  - exists []. split; [reflexivity|]. intros p q _. cbn. lia.
  - vm_compute. reflexivity.
  - vm_compute. reflexivity.
  - vm_compute. reflexivity.
  - vm_compute. discriminate.
Qed.

Lemma score_of_last_marked_line_witness :
  ScoreMessageM.score_echo
    (MessageM.assistant (join newline Examples.three_lines))
  = (Return (PyFloat.of_Z 9), []).
Proof.
  refine (proj1 (proj2 (score_of_last_marked_line
                          (MessageM.assistant (join newline Examples.three_lines))))
            (lit "Total Score: 9") (lit " 9") _ _).
  - exists [lit "Total Score: 1"; lit "more text"], [].
    split; [reflexivity|]. split; [|split].
    + repeat constructor.
    + vm_compute. reflexivity.
    + constructor.
  - exists [], []. split; [reflexivity|]. split.
    + intros p q _. cbn. lia.
    + left. split; [reflexivity|]. vm_compute. reflexivity.
Defined.

(** ** Accepted leaves *)

Lemma any_spec {A} (f : A -> outcome bool) (P : A -> Prop) (l : list A) :
  (forall x, x ∈ l -> exists b, f x = Return b /\ (b = true <-> P x)) ->
  exists b, Builtins.any f l = Return b /\ (b = true <-> exists x, x ∈ l /\ P x).
Proof.
  induction l as [|a l IH]; intros Hf; cbn.
  - exists false. split; [reflexivity|]. split; [discriminate|].
    intros (x & Hx & _). now apply elem_of_nil in Hx.
  - destruct (Hf a) as (b & -> & Hb); [apply list_elem_of_here|]. cbn.
    destruct b.
    + exists true. split; [reflexivity|]. split; [|reflexivity].
      intros _. exists a. split; [apply list_elem_of_here|now apply Hb].
    + destruct IH as (b & -> & Hb').
      { intros x Hx. apply Hf. now apply list_elem_of_further. }
      exists b. split; [reflexivity|]. rewrite Hb'. split.
      * intros (x & Hx & HP). exists x. split; [now apply list_elem_of_further|exact HP].
      * intros (x & Hx & HP). apply elem_of_cons in Hx as [->|Hx].
        -- apply Hb in HP. discriminate.
        -- eauto.
Qed.

Lemma steps_below_inv (n : nat) (h : heap) (parent l : loc) :
  steps_below (S n) h parent l = true ->
  exists s, h !! l = Some (ReasoningStep s) /\ parent_step s = parent /\
            forall c, c ∈ step_child_steps s -> steps_below n h l c = true.
Proof.
  cbn. destruct (h !! l) as [[r|s]|]; try discriminate.
  intros H. apply andb_true_iff in H as [Hp Hc].
  exists s. split; [reflexivity|]. split; [now apply bool_decide_eq_true in Hp|].
  intros c Hin. rewrite forallb_forall in Hc. apply Hc. now apply list_elem_of_In.
Qed.

Lemma has_accepted_leafs_steps (n : nat) (h : heap) :
  forall parent step fuel,
    steps_below n h parent step = true -> n <= fuel ->
    exists b, Visualize.has_accepted_leafs fuel h step = Return b /\
              (b = true <-> open_path_to_leaf h step).
Proof.
  induction n as [|n IH]; intros parent step fuel Hwf Hfuel; [discriminate|].
  apply steps_below_inv in Hwf as (s & Hs & _ & Hchildren).
  destruct fuel as [|fuel]; [lia|]. cbn. rewrite Hs. cbn.
  destruct (step_child_steps s) as [|c cs] eqn:Ecs.
  - exists (negb (aborted s)). split; [reflexivity|]. split.
    + intros Ha. apply negb_true_iff in Ha. eapply open_leaf; eassumption.
    + intros Hopen. apply negb_true_iff.
      inversion Hopen as [l s' Hs' _ Ha|l s' c' Hs' Ha _ _]; congruence.
  - destruct (aborted s) eqn:Ea.
    + exists false. split; [reflexivity|]. split; [discriminate|].
      intros Hopen.
      inversion Hopen as [l s' Hs' _ Ha|l s' c' Hs' Ha _ _]; congruence.
    + destruct (any_spec (Visualize.has_accepted_leafs fuel h)
                  (open_path_to_leaf h) (c :: cs)) as (b & Hb & Hiff).
      { intros x Hx. apply (IH step); [now apply Hchildren|lia]. }
      exists b. split; [exact Hb|]. rewrite Hiff. split.
      * intros (x & Hx & Hopen). eapply open_inner; try eassumption.
        now rewrite Ecs.
      * intros Hopen.
        inversion Hopen as [l s' Hs' Hnil _|l s' c' Hs' _ Hin Hc']; subst.
        -- congruence.
        -- assert (s' = s) by congruence. subst s'. rewrite Ecs in Hin. eauto.
Qed.

(** C3, as it is written, fails: below an aborted step a leaf that is not
    aborted does not count. *)
Lemma aborted_step_hides_leaf :
  well_formed_tree 2 Examples.pruned 0 = true /\
  contains_accepted_leaf Examples.pruned 1 /\
  Visualize.has_accepted_leafs 2 Examples.pruned 1 = Return false.
Proof.
  split; [vm_compute; reflexivity|]. split; [|vm_compute; reflexivity].
  exists 2. split.
  - eapply (in_subtree_child Examples.pruned 1
              (Examples.step [2] 0 "a" "5" true) 2);
      [vm_compute; reflexivity|cbn; apply list_elem_of_here|apply in_subtree_here].
  - exists (Examples.step_obj [] 1 "b" "7" false).
    split; [vm_compute; reflexivity|]. split; reflexivity.
Qed.

(** C3, amended: for every reasoning step of a well-formed tree,
    [has_accepted_leafs] returns, and it returns true exactly when an
    accepted leaf (a leaf that is not aborted) is reached from the step
    through steps none of which is aborted, the step itself included; for
    a root with children it returns true exactly when this holds for one
    of the children. *)
Theorem accepted_leaf_behind_open_steps (n : nat) (h : heap) (fuel : nat) :
  (forall parent step,
     steps_below n h parent step = true -> n <= fuel ->
     exists b, Visualize.has_accepted_leafs fuel h step = Return b /\
               (b = true <-> open_path_to_leaf h step)) /\
  (forall root r,
     h !! root = Some (Root r) -> root_child_steps r <> [] ->
     well_formed_tree n h root = true -> n < fuel ->
     exists b, Visualize.has_accepted_leafs fuel h root = Return b /\
               (b = true <->
                exists c, c ∈ root_child_steps r /\ open_path_to_leaf h c)).
Proof.
  split; [intros parent step; apply has_accepted_leafs_steps|].
  intros root r Hr Hne Hwf Hfuel.
  unfold well_formed_tree in Hwf. rewrite Hr in Hwf.
  destruct fuel as [|fuel]; [lia|]. cbn. rewrite Hr. cbn.
  destruct (root_child_steps r) as [|c cs] eqn:Ecs; [congruence|].
  apply any_spec. intros x Hx.
  apply (has_accepted_leafs_steps n h root); [|lia].
  rewrite forallb_forall in Hwf. apply Hwf. now apply list_elem_of_In.
Qed.

Lemma accepted_leaf_behind_open_steps_witness :
  exists b, Visualize.has_accepted_leafs 2 Examples.scored 1 = Return b /\
            (b = true <-> open_path_to_leaf Examples.scored 1).
Proof.
  refine (proj1 (accepted_leaf_behind_open_steps 2 Examples.scored 2) 0 1 _ _).
  - vm_compute. reflexivity.
  - lia.
Defined.

(** ** Failures of the colouring *)

Lemma childless_root_raises (h : heap) (root : loc) (r : RootObj) (fuel : nat) :
  h !! root = Some (Root r) -> root_child_steps r = [] ->
  Visualize.has_accepted_leafs (S fuel) h root = Raise AttributeError.
Proof. intros Hr Hnil. cbn. rewrite Hr. cbn. now rewrite Hnil. Qed.

(** C4: the code is not total on well-formed trees. On a root without
    children [has_accepted_leafs] reads [step.is_terminal], which no class
    defines; and on a tree whose only step has the score [inf] the weight
    of the colour is [inf / inf], a NaN, which [int] refuses. *)
Theorem coloring_raises :
  well_formed_tree 1 Examples.lone_root 0 = true /\
  Visualize.has_accepted_leafs 1 Examples.lone_root 0 = Raise AttributeError /\
  well_formed_tree 1 Examples.unbounded 0 = true /\
  Visualize.get_min_max_scores 2 Examples.unbounded 0
    = Return (PyFloat.zero, PyFloat.inf) /\
  Visualize.score_color PyFloat.inf PyFloat.zero PyFloat.inf = Raise ValueError /\
  Visualize.main_elements 2 Examples.unbounded 0 = Raise ValueError.
Proof. repeat split; vm_compute; reflexivity. Qed.

(** ** Least and greatest scores *)

Lemma score_value_of_Z (z : Z) :
  (0 <= z <= 9)%Z -> score_value (PyFloat.of_Z z) = z.
Proof. intros Hz. each_digit z; vm_compute; reflexivity. Qed.

Lemma ltb_of_Z (a b : Z) :
  (0 <= a <= 9)%Z -> (0 <= b <= 9)%Z ->
  PyFloat.ltb (PyFloat.of_Z a) (PyFloat.of_Z b) = (a <? b)%Z.
Proof. intros Ha Hb. each_digit a; each_digit b; vm_compute; reflexivity. Qed.

Lemma ltb_digit (x y : float) :
  digit_score x -> digit_score y ->
  PyFloat.ltb x y = (score_value x <? score_value y)%Z.
Proof.
  intros (a & Ha & ->) (b & Hb & ->).
  now rewrite !score_value_of_Z, ltb_of_Z.
Qed.

Lemma digit_score_value (x : float) :
  digit_score x ->
  (0 <= score_value x <= 9)%Z /\ x = PyFloat.of_Z (score_value x).
Proof. intros (a & Ha & ->). now rewrite score_value_of_Z. Qed.

Section Extremal.
(** [pick] is [min2] with [Z.le], or [max2] with [Z.ge]. *)
Variable pick : float -> float -> float.
Variable R : Z -> Z -> Prop.
Hypothesis R_trans : forall a b c, R a b -> R b c -> R a c.
Hypothesis R_refl : forall a, R a a.
Hypothesis pick_spec :
  forall a b, digit_score a -> digit_score b ->
    pick a b = a /\ R (score_value a) (score_value b) \/
    pick a b = b /\ R (score_value b) (score_value a).

Lemma extremal_digit (scores : list float) (m : float) :
  Forall digit_score scores -> extremal R scores m -> digit_score m.
Proof.
  intros Hd [Hin _]. rewrite Forall_forall in Hd. now apply Hd.
Qed.

Lemma extremal_pick (s1 s2 : list float) (a b : float) :
  Forall digit_score s1 -> Forall digit_score s2 ->
  extremal R s1 a -> extremal R s2 b -> extremal R (s1 ++ s2) (pick a b).
Proof.
  intros Hd1 Hd2 Ha Hb.
  pose proof (extremal_digit _ _ Hd1 Ha) as Da.
  pose proof (extremal_digit _ _ Hd2 Hb) as Db.
  destruct Ha as [Ha1 Ha2], Hb as [Hb1 Hb2].
  destruct (pick_spec a b Da Db) as [[-> Hab]|[-> Hba]]; split.
  - apply elem_of_app. now left.
  - apply Forall_app. split; [assumption|].
    eapply Forall_impl; [exact Hb2|]. cbn. eauto.
  - apply elem_of_app. now right.
  - apply Forall_app. split; [|assumption].
    eapply Forall_impl; [exact Ha2|]. cbn. eauto.
Qed.

Lemma extremal_fold (groups : list (list float)) (picks : list float) :
  Forall2 (fun s m => Forall digit_score s /\ extremal R s m) groups picks ->
  forall s0 m0, Forall digit_score s0 -> extremal R s0 m0 ->
    extremal R (s0 ++ concat groups) (fold_left pick picks m0).
Proof.
  induction 1 as [|s m groups picks [Hd Hm] Hrest IH]; intros s0 m0 Hd0 Hm0; cbn.
  - now rewrite app_nil_r.
  - rewrite app_assoc. apply IH.
    + apply Forall_app. now split.
    + now apply extremal_pick.
Qed.

Lemma extremal_singleton (x : float) : extremal R [x] x.
Proof.
  split; [apply list_elem_of_here|]. constructor; [apply R_refl|constructor].
Qed.

End Extremal.

Lemma min2_spec (a b : float) :
  digit_score a -> digit_score b ->
  PyFloat.min2 a b = a /\ (score_value a <= score_value b)%Z \/
  PyFloat.min2 a b = b /\ (score_value b <= score_value a)%Z.
Proof.
  intros Da Db. unfold PyFloat.min2. rewrite (ltb_digit b a Db Da).
  destruct (Z.ltb_spec (score_value b) (score_value a)); [right|left];
    split; (reflexivity || lia).
Qed.

Lemma max2_spec (a b : float) :
  digit_score a -> digit_score b ->
  PyFloat.max2 a b = a /\ (score_value a >= score_value b)%Z \/
  PyFloat.max2 a b = b /\ (score_value b >= score_value a)%Z.
Proof.
  intros Da Db. unfold PyFloat.max2, PyFloat.gtb.
  change (SFltb a b) with (PyFloat.ltb a b). rewrite (ltb_digit a b Da Db).
  destruct (Z.ltb_spec (score_value a) (score_value b)); [right|left];
    split; (reflexivity || lia).
Qed.

Lemma for_each_inv {A B} (f : A -> outcome B) (l : list A) (ys : list B) :
  ConversationM.for_each f l = Return ys ->
  Forall2 (fun a y => f a = Return y) l ys.
Proof.
  revert ys. induction l as [|a l IH]; cbn; intros ys H.
  - injection H as <-. constructor.
  - destruct (f a) as [b| | |] eqn:Ea; cbn in H; try discriminate.
    destruct (ConversationM.for_each f l) as [bs| | |]; cbn in H;
      try discriminate.
    injection H as <-. constructor; [assumption|now apply IH].
Qed.

Lemma for_each_intro {A B} (f : A -> outcome B) (l : list A) (ys : list B) :
  Forall2 (fun a y => f a = Return y) l ys ->
  ConversationM.for_each f l = Return ys.
Proof.
  induction 1 as [|a y l ys Ha Hl IH]; cbn; [reflexivity|].
  now rewrite Ha, IH.
Qed.

Section MinMax.
Context `{!PyRuntime}.
Variable h : heap.

(** What the recursive calls on the children give, from what is known of
    each child. *)
Lemma children_min_max (fuel : nat) (children : list loc)
    (below : list (list float)) :
  (forall tree scores,
     tree_scores fuel h tree = Return scores -> Forall digit_score scores ->
     exists mn mx,
       Visualize.get_min_max_scores fuel h tree = Return (mn, mx) /\
       extremal Z.le scores mn /\ extremal Z.ge scores mx) ->
  Forall2 (fun c s => tree_scores fuel h c = Return s) children below ->
  Forall digit_score (concat below) ->
  exists results,
    ConversationM.for_each (Visualize.get_min_max_scores fuel h) children
      = Return results /\
    Forall2 (fun s m => Forall digit_score s /\ extremal Z.le s m)
      below (results.*1) /\
    Forall2 (fun s m => Forall digit_score s /\ extremal Z.ge s m)
      below (results.*2).
Proof.
  intros IH Hbelow. induction Hbelow as [|c s children below Hc Hrest IHrest];
    cbn; intros Hd.
  - exists []. repeat split; constructor.
  - apply Forall_app in Hd as [Hs Hd].
    destruct (IH c s Hc Hs) as (mn & mx & Hmm & Hmn & Hmx).
    destruct (IHrest Hd) as (results & Hres & Hmins & Hmaxs).
    exists ((mn, mx) :: results). rewrite Hmm, Hres. cbn.
    repeat split; constructor; auto.
Qed.

Lemma get_min_max_scores_extremal (fuel : nat) :
  forall tree scores,
    tree_scores fuel h tree = Return scores -> Forall digit_score scores ->
    exists mn mx,
      Visualize.get_min_max_scores fuel h tree = Return (mn, mx) /\
      extremal Z.le scores mn /\ extremal Z.ge scores mx.
Proof.
  induction fuel as [|fuel IH]; intros tree scores Hscores Hd; [discriminate|].
  cbn in Hscores. cbn [Visualize.get_min_max_scores].
  destruct (h !! tree) as [s|]; [|discriminate].
  destruct (StepM.score s) as [x| | |] eqn:Ex; try discriminate.
  cbn in Hscores.
  destruct (ConversationM.for_each (tree_scores fuel h) (child_steps s))
    as [below| | |] eqn:Ebelow; try discriminate.
  cbn in Hscores. injection Hscores as <-.
  apply for_each_inv in Ebelow.
  inversion Hd as [|x' l' Dx Dbelow]; subst.
  destruct (children_min_max fuel _ _ IH Ebelow Dbelow)
    as (results & Hres & Hmins & Hmaxs).
  destruct (child_steps s) as [|c cs] eqn:Ecs.
  - inversion Ebelow; subst. cbn. exists x, x.
    split; [reflexivity|]. split; apply extremal_singleton; intros; lia.
  - rewrite Hres. cbn.
    destruct results as [|[mn1 mx1] results]; [inversion Hmins; subst; inversion Ebelow|].
    destruct below as [|s1 below]; [inversion Hmins|].
    cbn. eexists _, _. split; [reflexivity|].
    apply Forall2_cons_1 in Hmins as [[Hd1 Hmn1] Hmins].
    apply Forall2_cons_1 in Hmaxs as [[_ Hmx1] Hmaxs].
    apply Forall_app in Dbelow as [_ Dbelow].
    split.
    + apply (extremal_pick PyFloat.min2 Z.le Z.le_trans min2_spec [x]);
        [now constructor|apply Forall_app; now split|
         apply extremal_singleton; intros; lia|].
      now apply (extremal_fold PyFloat.min2 Z.le Z.le_trans min2_spec).
    + assert (Hge : forall a b c, (a >= b -> b >= c -> a >= c)%Z) by lia.
      apply (extremal_pick PyFloat.max2 Z.ge Hge max2_spec [x]);
        [now constructor|apply Forall_app; now split|
         apply extremal_singleton; intros; lia|].
      now apply (extremal_fold PyFloat.max2 Z.ge Hge max2_spec).
Qed.

End MinMax.

(** C2, as it is written, fails: on a tree of three levels with the scores
    5, 2, 9 and 1 below the root, [get_min_max_scores] called on the root
    returns the minimum 0, the score of the root, not 1. *)
Lemma root_score_is_the_minimum :
  well_formed_tree 2 Examples.scored 0 = true /\
  descendant_scores 3 Examples.scored 0
    = Return (map PyFloat.of_Z [5; 9; 1; 2]%Z) /\
  Visualize.get_min_max_scores 3 Examples.scored 0
    = Return (PyFloat.of_Z 0, PyFloat.of_Z 9) /\
  Visualize.get_min_max_scores 3 Examples.scored 0
    <> Return (PyFloat.of_Z 1, PyFloat.of_Z 9).
Proof.
  repeat split; try (vm_compute; reflexivity).
  vm_compute. discriminate.
Qed.

(** C2, amended: for a tree whose root has the score 0 and whose
    descendants have the scores 5, 2, 9 and 1, in whatever shape and order,
    [get_min_max_scores] called on the root returns min=0 and max=9. *)
Theorem min_max_of_scored_tree `{!PyRuntime} (fuel : nat) (h : heap)
    (tree : loc) (r : RootObj) (below : list float) :
  h !! tree = Some (Root r) ->
  descendant_scores fuel h tree = Return below ->
  Permutation below (map PyFloat.of_Z [5; 2; 9; 1]%Z) ->
  Visualize.get_min_max_scores fuel h tree
    = Return (PyFloat.of_Z 0, PyFloat.of_Z 9).
Proof.
  intros Hr Hbelow Hperm. unfold descendant_scores in Hbelow.
  destruct (tree_scores fuel h tree) as [scores| | |] eqn:Escores;
    try discriminate.
  cbn in Hbelow. injection Hbelow as Htail.
  assert (Hscores : scores = PyFloat.of_Z 0 :: below).
  { destruct fuel as [|fuel]; [discriminate|]. cbn in Escores.
    rewrite Hr in Escores. cbn in Escores.
    destruct (ConversationM.for_each _ _); try discriminate.
    cbn in Escores. injection Escores as <-. cbn in Htail. now subst. }
  subst scores.
  assert (Hd : Forall digit_score (PyFloat.of_Z 0 :: below)).
  { constructor; [exists 0%Z; split; [lia|reflexivity]|].
    rewrite Forall_forall. intros x Hx.
    apply (elem_of_Permutation_proper x _ _ Hperm) in Hx.
    apply list_elem_of_fmap in Hx as (z & -> & Hz). exists z. split; [|reflexivity].
    repeat (apply elem_of_cons in Hz as [->|Hz]; [lia|]).
    now apply elem_of_nil in Hz. }
  destruct (get_min_max_scores_extremal h fuel tree _ Escores Hd)
    as (mn & mx & -> & [Hmn Hle] & [Hmx Hge]).
  rewrite Forall_forall in Hd, Hle, Hge.
  destruct (digit_score_value mn (Hd mn Hmn)) as [Hmn9 ->].
  destruct (digit_score_value mx (Hd mx Hmx)) as [Hmx9 ->].
  assert (H0 : PyFloat.of_Z 0 ∈ PyFloat.of_Z 0 :: below) by apply list_elem_of_here.
  assert (H9 : PyFloat.of_Z 9 ∈ PyFloat.of_Z 0 :: below).
  { apply list_elem_of_further.
    apply (elem_of_Permutation_proper _ _ _ Hperm). cbn.
    do 2 apply list_elem_of_further. apply list_elem_of_here. }
  specialize (Hle _ H0). specialize (Hge _ H9).
  rewrite (score_value_of_Z 0) in Hle by lia.
  rewrite (score_value_of_Z 9) in Hge by lia.
  replace (score_value mn) with 0%Z by lia.
  replace (score_value mx) with 9%Z by lia.
  reflexivity.
Qed.

Lemma min_max_of_scored_tree_witness :
  Visualize.get_min_max_scores 3 Examples.scored 0
    = Return (PyFloat.of_Z 0, PyFloat.of_Z 9).
Proof.
  apply (min_max_of_scored_tree 3 Examples.scored 0
           (mkRoot [1; 2] Examples.base) (map PyFloat.of_Z [5; 9; 1; 2]%Z)).
  - vm_compute. reflexivity.
  - vm_compute. reflexivity.
  - cbn [map]. apply perm_skip. apply Permutation_sym.
    apply (Permutation_cons_app [_; _] [] _). reflexivity.
Defined.

(** * Further properties of the code *)

(** ** Conversations along the path to the root *)

Lemma with_steppers_length (msgs : list Message) :
  length (with_steppers msgs) = 2 * length msgs.
Proof.
  unfold with_steppers. induction msgs as [|m msgs IH]; [reflexivity|].
  cbn. rewrite IH. lia.
Qed.

Lemma with_steppers_lookup (msgs : list Message) (i : nat) (m : Message) :
  msgs !! i = Some m ->
  with_steppers msgs !! (2 * i) = Some m /\
  with_steppers msgs !! (2 * i + 1) = Some STEPPER_MESSAGE.
Proof.
  revert i. induction msgs as [|m0 msgs IH]; intros i Hi; [discriminate|].
  destruct i as [|i]; cbn in Hi.
  - injection Hi as ->. split; reflexivity.
  - replace (2 * S i) with (S (S (2 * i))) by lia. cbn. now apply IH.
Qed.

Lemma with_steppers_snoc (msgs : list Message) (m : Message) :
  with_steppers (msgs ++ [m]) = with_steppers msgs ++ [m; STEPPER_MESSAGE].
Proof. unfold with_steppers. now rewrite bind_app. Qed.

Section Returns.
Variable h : heap.

(** What the loops return, they have collected on a path to a root. *)
Lemma stepped_loop_returns (fuel : nat) :
  forall node acc r out,
    StepM.stepped_loop fuel h node acc = Return (r, out) ->
    exists d msgs, reaches_root h node d r msgs /\ d < fuel /\
                   out = acc ++ rev (with_steppers msgs).
Proof.
  induction fuel as [|fuel IH]; intros node acc r out Hout; [discriminate|].
  cbn in Hout. destruct (h !! node) as [[r'|s]|] eqn:E; try discriminate.
  - injection Hout as -> ->. exists 0, []. split; [now constructor|].
    split; [lia|]. now rewrite app_nil_r.
  - apply IH in Hout as (d & msgs & Hreach & Hd & ->).
    exists (S d), (msgs ++ [step_message s]). split; [now econstructor|].
    split; [lia|]. rewrite with_steppers_snoc, rev_app_distr. cbn.
    now rewrite <- !app_assoc.
Qed.

Lemma trajectory_loop_returns (fuel : nat) :
  forall node acc r out,
    StepM.trajectory_loop fuel h node acc = Return (r, out) ->
    exists d msgs, reaches_root h node d r msgs /\ d < fuel /\
                   out = acc ++ rev msgs.
Proof.
  induction fuel as [|fuel IH]; intros node acc r out Hout; [discriminate|].
  cbn in Hout. destruct (h !! node) as [[r'|s]|] eqn:E; try discriminate.
  - injection Hout as -> ->. exists 0, []. split; [now constructor|].
    split; [lia|]. now rewrite app_nil_r.
  - apply IH in Hout as (d & msgs & Hreach & Hd & ->).
    exists (S d), (msgs ++ [step_message s]). split; [now econstructor|].
    split; [lia|]. rewrite rev_app_distr. cbn.
    now rewrite <- !app_assoc.
Qed.

Lemma to_step_trajectory_returns (fuel : nat) (node : loc) (t : StepTrajectory) :
  StepM.to_step_trajectory fuel h node = Return t ->
  exists d r, reaches_root h node d r (step_messages t) /\
              trajectory_base_conversation t = base_conversation r /\
              (d = 0 \/ d < fuel).
Proof.
  unfold StepM.to_step_trajectory.
  destruct (h !! node) as [[r|s]|] eqn:E; try discriminate.
  - intros [= <-]. exists 0, r. split; [now constructor|]. auto.
  - unfold StepM.ReasoningStep_to_step_trajectory.
    destruct (StepM.trajectory_loop fuel h node []) as [[r out]| | |] eqn:El;
      try discriminate.
    cbn. intros [= <-]. cbn.
    apply trajectory_loop_returns in El as (d & msgs & Hreach & Hd & ->).
    cbn. rewrite rev_involutive. eauto 6.
Qed.

Lemma to_step_trajectory_spec (node : loc) (d : nat) (r : RootObj)
    (msgs : list Message) (fuel : nat) :
  reaches_root h node d r msgs -> d = 0 \/ d < fuel ->
  StepM.to_step_trajectory fuel h node
  = Return (mkStepTrajectory (base_conversation r) msgs).
Proof.
  intros Hreach Hd. unfold StepM.to_step_trajectory.
  inversion Hreach as [node' r' Hr|node' s d' r' msgs' Hs Hp]; subst.
  - now rewrite Hr.
  - rewrite Hs. unfold StepM.ReasoningStep_to_step_trajectory.
    rewrite (trajectory_loop_spec _ _ _ _ _ Hreach) by lia. cbn.
    now rewrite rev_involutive.
Qed.

Lemma to_stepped_conversation_returns (fuel : nat) (node : loc) (b : bool)
    (c : Conversation) :
  StepM.to_stepped_conversation fuel h node b = Return c ->
  exists d r msgs,
    reaches_root h node d r msgs /\ (d = 0 \/ d < fuel) /\
    messages c = messages (base_conversation r)
                 ++ (if b then with_steppers msgs else removelast (with_steppers msgs)).
Proof.
  unfold StepM.to_stepped_conversation.
  destruct (h !! node) as [[r|s]|] eqn:E; try discriminate.
  - intros [= <-]. exists 0, r, []. split; [now constructor|].
    split; [now left|]. unfold StepM.Root_to_stepped_conversation.
    destruct b; cbn; now rewrite app_nil_r.
  - intros Hc.
    assert (exists d r msgs, reaches_root h node d r msgs /\ d < fuel)
      as (d & r & msgs & Hreach & Hd).
    { unfold StepM.ReasoningStep_to_stepped_conversation in Hc.
      destruct (StepM.stepped_loop fuel h node []) as [[r out]| | |] eqn:El;
        try discriminate.
      apply stepped_loop_returns in El as (d & msgs & Hreach & Hd & _). eauto. }
    exists d, r, msgs. split; [exact Hreach|]. split; [now right|].
    destruct (to_stepped_conversation_spec h node d r msgs fuel Hreach Hd)
      as [Htrue Hfalse].
    unfold StepM.to_stepped_conversation in Htrue, Hfalse.
    rewrite E in Htrue, Hfalse.
    destruct b; [rewrite Htrue in Hc|rewrite Hfalse in Hc];
      now injection Hc as <-.
Qed.

(** On a set of reasoning steps that is closed under [parent_step] the
    loops use up any fuel. *)
Lemma loops_without_root (P : loc -> Prop) :
  (forall l, P l -> exists s, h !! l = Some (ReasoningStep s) /\ P (parent_step s)) ->
  forall fuel node acc, P node ->
    StepM.stepped_loop fuel h node acc = Diverge /\
    StepM.trajectory_loop fuel h node acc = Diverge.
Proof.
  intros Hclosed. induction fuel as [|fuel IH]; intros node acc Hnode;
    [split; reflexivity|].
  destruct (Hclosed node Hnode) as (s & Hs & Hp). cbn. rewrite Hs.
  split; now apply IH.
Qed.

End Returns.

(** X1: for a step whose parent chain reaches the root after [d] steps,
    [to_stepped_conversation] returns with either flag. With the next
    stepper the result has the length of the base conversation plus
    [2 * d]: it starts with the base conversation, and behind it the
    [i]-th step message of the path stands at offset [2 * i] and the
    stepper message at offset [2 * i + 1]. For a reasoning step the result
    with the next stepper is the result without it followed by one stepper
    message; for the root both results are the base conversation, no
    stepper is added. *)
Theorem stepped_conversation_of_depth (h : heap) (node : loc) (d : nat)
    (r : RootObj) (msgs : list Message) (fuel : nat) :
  reaches_root h node d r msgs -> d < fuel ->
  exists with_next without_next,
    StepM.to_stepped_conversation fuel h node true = Return with_next /\
    StepM.to_stepped_conversation fuel h node false = Return without_next /\
    length (messages with_next) = length (messages (base_conversation r)) + 2 * d /\
    take (length (messages (base_conversation r))) (messages with_next)
      = messages (base_conversation r) /\
    (forall i m, msgs !! i = Some m ->
       messages with_next !! (length (messages (base_conversation r)) + 2 * i)
         = Some m /\
       messages with_next !! (length (messages (base_conversation r)) + 2 * i + 1)
         = Some STEPPER_MESSAGE) /\
    (0 < d -> messages with_next = messages without_next ++ [STEPPER_MESSAGE]) /\
    (d = 0 -> with_next = base_conversation r /\ without_next = base_conversation r).
Proof.
  intros Hreach Hfuel.
  destruct (to_stepped_conversation_spec h node d r msgs fuel Hreach Hfuel)
    as [Htrue Hfalse].
  pose proof (reaches_root_length h node d r msgs Hreach) as Hlen.
  eexists _, _. split; [exact Htrue|]. split; [exact Hfalse|]. cbn.
  split; [rewrite length_app, with_steppers_length; lia|].
  split; [now rewrite take_app_length|].
  split; [|split].
  - intros i m Hi. apply with_steppers_lookup in Hi as [Hm Hs].
    rewrite <- Nat.add_assoc, !lookup_app_r by lia.
    replace (_ + 2 * i - _) with (2 * i) by lia.
    replace (_ + (2 * i + 1) - _) with (2 * i + 1) by lia. auto.
  - intros Hd. destruct msgs as [|m0 msgs0] using rev_ind; [cbn in Hlen; lia|].
    rewrite with_steppers_snoc.
    change [m0; STEPPER_MESSAGE] with ([m0] ++ [STEPPER_MESSAGE]).
    rewrite (app_assoc (with_steppers msgs0)), removelast_last.
    now rewrite <- !app_assoc.
  - intros ->. destruct msgs; [|discriminate]. cbn.
    rewrite app_nil_r. now destruct (base_conversation r).
Qed.

Lemma stepped_conversation_of_depth_witness :
  exists with_next without_next,
    StepM.to_stepped_conversation 3 Examples.chain 2 true = Return with_next /\
    StepM.to_stepped_conversation 3 Examples.chain 2 false = Return without_next /\
    length (messages with_next) = 2 + 2 * 2 /\
    messages with_next = messages without_next ++ [STEPPER_MESSAGE].
Proof.
  destruct (stepped_conversation_of_depth Examples.chain 2 2
              (mkRoot [1] Examples.base)
              (([] ++ [MessageM.assistant (lit "Add the numbers.")])
                 ++ [MessageM.assistant (lit "Done.")]) 3)
    as (c1 & c2 & H1 & H2 & Hlen & _ & _ & Hlast & _).
  - apply (reaches_up Examples.chain 2
             (Examples.step_obj [] 1 "Done." "8" false) 1);
      [vm_compute; reflexivity|].
    apply (reaches_up Examples.chain 1
             (Examples.step_obj [2] 0 "Add the numbers." "5" false) 0);
      [vm_compute; reflexivity|].
    apply reaches_here. vm_compute. reflexivity.
  - lia.
  - exists c1, c2. repeat split; try assumption. apply Hlast. lia.
Defined.

(** X2: the conversation of a step continues the conversation of its
    parent: when [to_stepped_conversation(True)] of the parent returns
    [c], the step gives [c + step_message] without the next stepper and
    [c + step_message + STEPPER_MESSAGE] with it (the walk from the step
    takes one round more than the walk from its parent, and one more to
    see the root). *)
Theorem conversation_extends_parent (h : heap) (self : loc)
    (s : ReasoningStepObj) (fuel : nat) (c : Conversation) :
  h !! self = Some (ReasoningStep s) ->
  StepM.to_stepped_conversation fuel h (parent_step s) true = Return c ->
  StepM.to_stepped_conversation (S (S fuel)) h self false
    = Return (ConversationM.__add__ c (AMessage (step_message s))) /\
  StepM.to_stepped_conversation (S (S fuel)) h self true
    = Return (ConversationM.__add__
                (ConversationM.__add__ c (AMessage (step_message s)))
                (AMessage STEPPER_MESSAGE)).
Proof.
  intros Hs Hparent.
  apply to_stepped_conversation_returns in Hparent
    as (d & r & msgs & Hreach & Hd & Hc).
  assert (Hself : reaches_root h self (S d) r (msgs ++ [step_message s]))
    by now econstructor.
  destruct (to_stepped_conversation_spec h self (S d) r _ (S (S fuel)) Hself)
    as [-> ->]; [lia|].
  cbn. rewrite Hc, with_steppers_snoc.
  change [step_message s; STEPPER_MESSAGE]
    with ([step_message s] ++ [STEPPER_MESSAGE]).
  rewrite (app_assoc (with_steppers msgs)), removelast_last.
  now rewrite <- !app_assoc.
Qed.

Lemma conversation_extends_parent_witness :
  StepM.to_stepped_conversation 4 Examples.chain 2 false
  = Return (mkConversation
              (messages Examples.base ++
               [MessageM.assistant (lit "Add the numbers."); STEPPER_MESSAGE;
                MessageM.assistant (lit "Done.")])).
Proof.
  refine (proj1 (conversation_extends_parent Examples.chain 2
                   (Examples.step_obj [] 1 "Done." "8" false) 2
                   (mkConversation
                      (messages Examples.base ++
                       [MessageM.assistant (lit "Add the numbers.");
                        STEPPER_MESSAGE])) _ _));
    vm_compute; reflexivity.
Defined.

(** X3: [to_stepped_conversation] agrees with [to_step_trajectory]: when
    the trajectory of a step is returned, the conversation with the next
    stepper is the base conversation of the trajectory followed by each of
    its step messages with a stepper message behind it; and whenever the
    conversation is returned, so is the trajectory. *)
Theorem trajectory_matches_conversation (h : heap) (node : loc) (fuel : nat) :
  (forall t, StepM.to_step_trajectory fuel h node = Return t ->
     StepM.to_stepped_conversation fuel h node true
     = Return (mkConversation
                 (messages (trajectory_base_conversation t)
                  ++ with_steppers (step_messages t)))) /\
  (forall b c, StepM.to_stepped_conversation fuel h node b = Return c ->
     exists t, StepM.to_step_trajectory fuel h node = Return t).
Proof.
  split.
  - intros t Ht. unfold StepM.to_stepped_conversation.
    pose proof Ht as Ht'. unfold StepM.to_step_trajectory in Ht'.
    apply to_step_trajectory_returns in Ht as (d & r & Hreach & Hbase & Hd).
    destruct (h !! node) as [[r'|s]|] eqn:E; try discriminate.
    + injection Ht' as <-. cbn. rewrite app_nil_r.
      unfold StepM.Root_to_stepped_conversation.
      now destruct (base_conversation r').
    + destruct Hd as [->|Hd]; [inversion Hreach; congruence|].
      destruct (to_stepped_conversation_spec h node d r _ fuel Hreach Hd)
        as [Htrue _].
      unfold StepM.to_stepped_conversation in Htrue. rewrite E in Htrue.
      now rewrite Htrue, Hbase.
  - intros b c Hc.
    apply to_stepped_conversation_returns in Hc as (d & r & msgs & Hreach & Hd & _).
    eexists. now apply (to_step_trajectory_spec h node d r msgs fuel).
Qed.

Lemma trajectory_matches_conversation_witness :
  StepM.to_stepped_conversation 3 Examples.chain 2 true
  = Return (mkConversation
              (messages Examples.base ++
               with_steppers [MessageM.assistant (lit "Add the numbers.");
                              MessageM.assistant (lit "Done.")])).
Proof.
  refine (proj1 (trajectory_matches_conversation Examples.chain 2 3)
            (mkStepTrajectory Examples.base
               [MessageM.assistant (lit "Add the numbers.");
                MessageM.assistant (lit "Done.")]) _).
  vm_compute. reflexivity.
Defined.

(** X4: what the two methods return, they have read off a path to a
    root: a trajectory that is returned holds the base conversation of a
    root that the parent chain of the step reaches and exactly the step
    messages of that path, as many as the path is long; a conversation that
    is returned holds that base conversation followed by these messages
    with their steppers (without the last stepper when the flag is
    false). *)
Theorem returned_walk_ends_at_a_root (h : heap) (node : loc) (fuel : nat) :
  (forall t, StepM.to_step_trajectory fuel h node = Return t ->
     exists d r, reaches_root h node d r (step_messages t) /\
                 trajectory_base_conversation t = base_conversation r /\
                 length (step_messages t) = d) /\
  (forall b c, StepM.to_stepped_conversation fuel h node b = Return c ->
     exists d r msgs,
       reaches_root h node d r msgs /\
       messages c = messages (base_conversation r)
                    ++ (if b then with_steppers msgs
                        else removelast (with_steppers msgs))).
Proof.
  split.
  - intros t Ht.
    apply to_step_trajectory_returns in Ht as (d & r & Hreach & Hbase & _).
    exists d, r. split; [exact Hreach|]. split; [exact Hbase|].
    eapply reaches_root_length, Hreach.
  - intros b c Hc.
    apply to_stepped_conversation_returns in Hc as (d & r & msgs & Hreach & _ & Hm).
    eauto.
Qed.

Lemma returned_walk_ends_at_a_root_witness :
  exists d r,
    reaches_root Examples.chain 2 d r
      [MessageM.assistant (lit "Add the numbers."); MessageM.assistant (lit "Done.")] /\
    Examples.base = base_conversation r /\ 2 = d.
Proof.
  refine (proj1 (returned_walk_ends_at_a_root Examples.chain 2 3)
            (mkStepTrajectory Examples.base
               [MessageM.assistant (lit "Add the numbers.");
                MessageM.assistant (lit "Done.")]) _).
  vm_compute. reflexivity.
Defined.

(** X5: the loops of [to_step_trajectory] and [to_stepped_conversation]
    stop at a [Root] only: from a step inside a set of reasoning steps that
    is closed under [parent_step] (a cycle of parents, which the mutable
    models allow) neither method returns, however many rounds its loop is
    given. *)
Theorem parent_cycle_never_returns (h : heap) (P : loc -> Prop) :
  (forall l, P l ->
     exists s, h !! l = Some (ReasoningStep s) /\ P (parent_step s)) ->
  forall node fuel b, P node ->
    StepM.to_step_trajectory fuel h node = Diverge /\
    StepM.to_stepped_conversation fuel h node b = Diverge.
Proof.
  intros Hclosed node fuel b Hnode.
  destruct (Hclosed node Hnode) as (s & Hs & _).
  unfold StepM.to_step_trajectory, StepM.to_stepped_conversation.
  rewrite Hs.
  unfold StepM.ReasoningStep_to_step_trajectory,
    StepM.ReasoningStep_to_stepped_conversation.
  destruct (loops_without_root h P Hclosed fuel node [] Hnode) as [-> ->].
  split; reflexivity.
Qed.

Lemma parent_cycle_never_returns_witness :
  StepM.to_step_trajectory 1000 Examples.looping 1 = Diverge /\
  StepM.to_stepped_conversation 1000 Examples.looping 1 true = Diverge.
Proof.
  refine (parent_cycle_never_returns Examples.looping (fun l => l = 1 \/ l = 2)
            _ 1 1000 true _); [|now left].
  intros l [-> | ->]; eexists; (split; [vm_compute; reflexivity|]); cbn; auto.
Defined.

(** ** The algebra of conversations *)

(** X6: the sum of conversations is associative and has the empty
    conversation as its unit on both sides; adding a message on the right
    or on the left is adding the conversation made of that message; and a
    message added on the left stays in front when more is added on the
    right. *)
Theorem add_is_associative (a b c : Conversation) (m : Message) :
  ConversationM.__add__ (ConversationM.__add__ a (AConversation b)) (AConversation c)
  = ConversationM.__add__ a (AConversation (ConversationM.__add__ b (AConversation c))) /\
  ConversationM.__add__ (mkConversation []) (AConversation a) = a /\
  ConversationM.__add__ a (AConversation (mkConversation [])) = a /\
  ConversationM.__add__ a (AMessage m)
  = ConversationM.__add__ a (AConversation (to_conversation m)) /\
  ConversationM.__radd__ a m
  = ConversationM.__add__ (to_conversation m) (AConversation a) /\
  ConversationM.__add__ (ConversationM.__radd__ a m) (AConversation b)
  = ConversationM.__radd__ (ConversationM.__add__ a (AConversation b)) m.
Proof.
  destruct a as [ma], b as [mb], c as [mc]. cbn.
  rewrite app_nil_r, <- app_assoc. repeat split.
Qed.

(** ** Validation of message dictionaries *)

Section MoreDictionaries.
Context `{!PyRuntime}.

Lemma validate_message_outcome (d : dict) :
  (exists m, validate_message d = Return m /\ type_of m = MessageC) \/
  validate_message d = Raise ValidationError.
Proof.
  unfold validate_message. repeat case_match; eauto.
Qed.

Lemma for_each_validate (ds : list dict) :
  (exists ms, ConversationM.for_each validate_message ds = Return ms /\
              length ms = length ds /\
              Forall (fun m => type_of m = MessageC) ms) \/
  ConversationM.for_each validate_message ds = Raise ValidationError.
Proof.
  induction ds as [|d ds IH]; cbn.
  - left. exists []. repeat split. constructor.
  - destruct (validate_message_outcome d) as [(m & -> & Hm)| ->]; [|now right].
    cbn. destruct IH as [(ms & -> & Hlen & Hms)| ->]; [|now right].
    left. exists (m :: ms). cbn. repeat split; [now rewrite Hlen|].
    now constructor.
Qed.

Lemma for_each_validate_rejects (ds : list dict) (d : dict) :
  d ∈ ds -> validate_message d = Raise ValidationError ->
  ConversationM.for_each validate_message ds = Raise ValidationError.
Proof.
  intros Hin Hd. induction Hin as [d ds|d d' ds Hin IH]; cbn.
  - now rewrite Hd.
  - destruct (validate_message_outcome d') as [(m & -> & _)| ->]; [|reflexivity].
    cbn. now rewrite IH.
Qed.

Lemma role_of_str_unknown (r : str) :
  r <> lit "user" -> r <> lit "system" -> r <> lit "assistant" ->
  role_of_str r = None.
Proof.
  intros H1 H2 H3. unfold role_of_str. now repeat case_decide.
Qed.

Lemma validate_dicts (ms : list Message) :
  ConversationM.for_each validate_message (map to_dict ms)
  = Return (map as_message ms).
Proof.
  induction ms as [|m ms IH]; cbn; [reflexivity|].
  now rewrite validate_to_dict, IH.
Qed.

(** The full dump of a message validates, to the message itself. *)
Lemma validate_model_dump (m : Message) :
  validate_message (model_dump m) = Return (as_message m).
Proof.
  unfold validate_message, model_dump.
  destruct m as [t r c n w]; cbn [role content name weight].
  simplify_map_eq. rewrite role_of_str_role_str.
  now destruct n.
Qed.

End MoreDictionaries.

Lemma as_message_fixed (ms : list Message) :
  map as_message ms = ms <-> Forall (fun m => type_of m = MessageC) ms.
Proof.
  induction ms as [|m ms IH]; cbn; [split; [constructor|reflexivity]|].
  rewrite Forall_cons, <- IH. split.
  - intros [= Hm Hms]. split; [now rewrite <- Hm|exact Hms].
  - intros [Hm ->]. f_equal. destruct m; cbn in *; now subst.
Qed.

(** X7: [to_mmd] never fails, whatever the classes of the messages: it
    gives the dictionary of each message, in order (for a [ScoreMessage]
    or a [TerminalCheckMessage] the detour through a new [Message] changes
    nothing); and the dictionaries of a sum are the dictionaries of the
    left conversation followed by those of the right one. *)
Theorem to_mmd_of_any_class `{!PyRuntime} (a b : Conversation) :
  ConversationM.to_mmd a = Return (map to_dict (messages a)) /\
  ConversationM.to_mmd (ConversationM.__add__ a (AConversation b))
  = (x ← ConversationM.to_mmd a; y ← ConversationM.to_mmd b; Return (x ++ y)).
Proof.
  rewrite !to_mmd_any. cbn. now rewrite map_app.
Qed.

(** X8: [from_mmd(c.to_mmd())] never fails and gives the messages of [c]
    with their fields unchanged, each one as a plain [Message]: the
    classes [ScoreMessage] and [TerminalCheckMessage] are lost. So the
    round trip gives [c] back exactly when every message of [c] is a plain
    [Message]. *)
Theorem mmd_round_trip_forgets_class `{!PyRuntime} (c : Conversation) :
  (ds ← ConversationM.to_mmd c; ConversationM.from_mmd ds)
  = Return (mkConversation (map as_message (messages c))) /\
  ((ds ← ConversationM.to_mmd c; ConversationM.from_mmd ds) = Return c <->
   Forall (fun m => type_of m = MessageC) (messages c)).
Proof.
  assert (E : (ds ← ConversationM.to_mmd c; ConversationM.from_mmd ds)
              = Return (mkConversation (map as_message (messages c)))).
  { rewrite to_mmd_any. cbn. unfold ConversationM.from_mmd.
    now rewrite validate_dicts. }
  split; [exact E|]. rewrite E, <- as_message_fixed.
  destruct c as [ms]. cbn. split; [now intros [= Hms]|now intros ->].
Qed.

Lemma mmd_round_trip_forgets_class_witness :
  (ds ← ConversationM.to_mmd Examples.base; ConversationM.from_mmd ds)
  = Return Examples.base.
Proof.
  apply (proj2 (mmd_round_trip_forgets_class Examples.base)).
  repeat constructor.
Defined.

(** X9: [from_mmd] is all or nothing: it returns a conversation with one
    plain [Message] for each dictionary, or it raises the validation
    error; and it raises as soon as one of the dictionaries has no [role],
    has no [content], or has a role string other than [user], [system] and
    [assistant], wherever that dictionary stands in the list. *)
Theorem from_mmd_all_or_nothing `{!PyRuntime} (ds : list dict) :
  ((exists c, ConversationM.from_mmd ds = Return c /\
              length (messages c) = length ds /\
              Forall (fun m => type_of m = MessageC) (messages c)) \/
   ConversationM.from_mmd ds = Raise ValidationError) /\
  (forall d, d ∈ ds ->
     d !! "role"%string = None \/ d !! "content"%string = None \/
     (exists r, d !! "role"%string = Some (PStr r) /\
                r <> lit "user" /\ r <> lit "system" /\ r <> lit "assistant") ->
     ConversationM.from_mmd ds = Raise ValidationError).
Proof.
  unfold ConversationM.from_mmd. split.
  - destruct (for_each_validate ds) as [(ms & -> & Hlen & Hms)| ->];
      [left|now right].
    exists (mkConversation ms). auto.
  - intros d Hin Hbad.
    rewrite (for_each_validate_rejects ds d Hin); [reflexivity|].
    unfold validate_message.
    destruct Hbad as [-> |[Hc|(r & -> & H1 & H2 & H3)]]; [reflexivity| |].
    + rewrite Hc. now repeat case_match.
    + rewrite (role_of_str_unknown r H1 H2 H3). now repeat case_match.
Qed.

Lemma from_mmd_all_or_nothing_witness :
  ConversationM.from_mmd [Examples.minimal_dict; Examples.scarce_dict]
  = Raise ValidationError.
Proof.
  apply (proj2 (from_mmd_all_or_nothing
                  [Examples.minimal_dict; Examples.scarce_dict])
           Examples.scarce_dict).
  - apply list_elem_of_further, list_elem_of_here.
  - left. vm_compute. reflexivity.
Defined.

(** X10: [ScoreMessage.from_message] and
    [TerminalCheckMessage.from_message] never fail: the full dump of a
    message always validates, and the result has the role, the content,
    the name and the weight of the message and the new class; its
    dictionary is the dictionary of the message. *)
Theorem from_message_keeps_fields `{!PyRuntime} (m : Message) :
  ScoreMessageM.from_message m
  = Return (mkMessage ScoreMessageC (role m) (content m) (name m) (weight m)) /\
  TerminalCheckMessageM.from_message m
  = Return (mkMessage TerminalCheckMessageC (role m) (content m) (name m)
              (weight m)) /\
  (sm ← ScoreMessageM.from_message m; Return (to_dict sm)) = Return (to_dict m) /\
  (tm ← TerminalCheckMessageM.from_message m; Return (to_dict tm))
  = Return (to_dict m).
Proof.
  unfold ScoreMessageM.from_message, TerminalCheckMessageM.from_message,
    construct.
  rewrite validate_model_dump. cbn. repeat split.
Qed.

(** ** Markdown *)

Lemma join_append (sep : str) (l1 l2 : list str) :
  l1 <> [] -> l2 <> [] ->
  join sep (l1 ++ l2) = join sep l1 ++ sep ++ join sep l2.
Proof.
  intros H1 H2. induction l1 as [|p l1 IH]; [congruence|].
  destruct l1 as [|q l1].
  - destruct l2; [congruence|reflexivity].
  - change (join sep ((p :: q :: l1) ++ l2))
      with (p ++ sep ++ join sep ((q :: l1) ++ l2)).
    rewrite IH by discriminate.
    change (join sep (p :: q :: l1)) with (p ++ sep ++ join sep (q :: l1)).
    now rewrite <- !app_assoc.
Qed.

(** X11: [to_markdown] of the empty conversation is the empty string; of
    one message it is the role with a capital initial between double
    asterisks, a colon, a line break and the content; of a sum of two
    conversations that both hold a message it is the two texts with one
    empty line between them; and adding an empty conversation changes
    nothing. *)
Theorem to_markdown_of_sum (a b : Conversation) (m : Message) :
  ConversationM.to_markdown (mkConversation []) = [] /\
  ConversationM.to_markdown (to_conversation m)
  = lit "**" ++
    match role m with
    | User => lit "User"
    | System => lit "System"
    | Assistant => lit "Assistant"
    end ++ lit ":**" ++ newline ++ content m /\
  (messages a <> [] -> messages b <> [] ->
   ConversationM.to_markdown (ConversationM.__add__ a (AConversation b))
   = ConversationM.to_markdown a ++ newline ++ newline
     ++ ConversationM.to_markdown b) /\
  (messages b = [] ->
   ConversationM.to_markdown (ConversationM.__add__ a (AConversation b))
   = ConversationM.to_markdown a).
Proof.
  split; [reflexivity|]. split; [now destruct m as [t [] c n w]|]. split.
  - intros Ha Hb. unfold ConversationM.to_markdown, ConversationM.__add__.
    cbn [messages].
    rewrite map_app, join_append; [now rewrite <- !app_assoc|..];
      now destruct (messages a), (messages b).
  - intros Hb. unfold ConversationM.to_markdown, ConversationM.__add__.
    cbn [messages]. now rewrite Hb, app_nil_r.
Qed.

Lemma to_markdown_of_sum_witness :
  ConversationM.to_markdown
    (ConversationM.__add__ Examples.base (AConversation Examples.base))
  = ConversationM.to_markdown Examples.base ++ newline ++ newline
    ++ ConversationM.to_markdown Examples.base.
Proof.
  apply (proj1 (proj2 (proj2 (to_markdown_of_sum Examples.base Examples.base
                                STEPPER_MESSAGE))));
    discriminate.
Defined.

(** ** Dictionaries of messages *)

(** X12: the dictionary of a message is a dictionary of the message
    schema in its minimal form: it has a role and a content, no value
    [None], no weight 1, and no key besides the four fields. It tells the
    four fields of the message: two messages with the same dictionary
    differ in their class at most. *)
Theorem to_dict_is_minimal (m m' : Message) :
  valid_message_dict (to_dict m) /\
  minimal_form (to_dict m) = to_dict m /\
  (forall k, to_dict m !! k <> Some PNone) /\
  to_dict m !! "weight"%string <> Some (PInt 1) /\
  (to_dict m = to_dict m' -> as_message m = as_message m').
Proof.
  assert (Hw : to_dict m !! "weight"%string <> Some (PInt 1)).
  { unfold to_dict, model_dump_exclude_defaults.
    destruct (name m), (weight m =? 1)%Z eqn:Ew; simplify_map_eq; try discriminate;
      apply Z.eqb_neq in Ew; congruence. }
  assert (Hn : forall k, to_dict m !! k <> Some PNone).
  { intros k. unfold to_dict, model_dump_exclude_defaults.
    destruct (name m), (weight m =? 1)%Z; by_key k; simplify_map_eq;
      discriminate. }
  split; [|split; [|split; [exact Hn|split; [exact Hw|]]]].
  - unfold valid_message_dict, to_dict, model_dump_exclude_defaults.
    split; [exists (role m)|split; [exists (content m)|split; [|split]]].
    + destruct (name m), (weight m =? 1)%Z; now simplify_map_eq.
    + destruct (name m), (weight m =? 1)%Z; now simplify_map_eq.
    + destruct (name m) as [n|], (weight m =? 1)%Z; simplify_map_eq; eauto.
    + destruct (name m) as [n|], (weight m =? 1)%Z; simplify_map_eq; eauto.
    + intros k Hk.
      assert (k <> "role"%string /\ k <> "content"%string /\
              k <> "name"%string /\ k <> "weight"%string) as (? & ? & ? & ?).
      { unfold model_fields in Hk. repeat split; intros ->; apply Hk; set_solver. }
      destruct (name m) as [n|], (weight m =? 1)%Z; now simplify_map_eq.
  - unfold minimal_form.
    destruct (decide (to_dict m !! "name"%string = Some PNone)) as [E|_];
      [now apply Hn in E|].
    destruct (decide (to_dict m !! "weight"%string = Some (PInt 1))) as [E|_];
      [now apply Hw in E|reflexivity].
  - intros E.
    pose proof (validate_to_dict (H := AsciiRuntime.runtime) m) as V.
    pose proof (validate_to_dict (H := AsciiRuntime.runtime) m') as V'.
    rewrite E, V' in V. injection V as Hr Hc Hname Hweight.
    unfold as_message. congruence.
Qed.

Lemma to_dict_is_minimal_witness :
  as_message (MessageM.user (lit "hi"))
  = as_message (mkMessage ScoreMessageC User (lit "hi") None 1).
Proof.
  refine (proj2 (proj2 (proj2 (proj2
            (to_dict_is_minimal (MessageM.user (lit "hi"))
               (mkMessage ScoreMessageC User (lit "hi") None 1))))) _).
  vm_compute. reflexivity.
Defined.

(** ** When the score falls back *)

Lemma find_Some_cut (sep s : str) (i : nat) :
  find sep s = Some i -> s = take i s ++ sep ++ drop (i + length sep) s.
Proof.
  revert i. induction s as [|c s IH]; intros i; cbn [find].
  - destruct (startswith sep []) eqn:E; [|discriminate].
    intros [= <-]. apply startswith_spec in E as [q Hq].
    destruct sep; [reflexivity|discriminate].
  - destruct (startswith sep (c :: s)) eqn:E.
    + intros [= <-]. apply startswith_spec in E as [q Hq].
      cbn [take]. rewrite Hq at 1. cbn. f_equal.
      rewrite Hq. now rewrite drop_app_length.
    + destruct (find sep s) as [j|] eqn:Ej; [|discriminate].
      cbn. intros [= <-]. cbn. f_equal. now apply IH.
Qed.

Lemma split_from_pieces (sep : str) (fuel : nat) :
  forall s l, l ∈ split_from fuel sep s -> exists pre post, s = pre ++ l ++ post.
Proof.
  induction fuel as [|fuel IH]; intros s l Hl; cbn [split_from] in Hl.
  - apply list_elem_of_singleton in Hl as ->. exists [], []. now rewrite app_nil_r.
  - destruct (find sep s) as [i|] eqn:E.
    + apply elem_of_cons in Hl as [->|Hl].
      * exists [], (drop i s). cbn. now rewrite take_drop.
      * apply IH in Hl as (pre & post & Hd).
        exists (take (i + length sep) s ++ pre), post.
        rewrite <- app_assoc, <- Hd. now rewrite take_drop.
    + apply list_elem_of_singleton in Hl as ->. exists [], [].
      now rewrite app_nil_r.
Qed.

Lemma contains_piece (sub pre l post : str) :
  contains sub l = true -> contains sub (pre ++ l ++ post) = true.
Proof.
  intros H. apply contains_spec in H as (p & q & ->).
  apply contains_spec. exists (pre ++ p), (q ++ post).
  now rewrite <- !app_assoc.
Qed.

(** A piece that holds no [c] cannot straddle an occurrence of [c]. *)
Lemma contains_around (sub a b : str) (c : N) :
  c ∉ sub -> contains sub (a ++ [c] ++ b) = true ->
  contains sub a = true \/ contains sub b = true.
Proof.
  intros Hc H. apply contains_spec in H as (p & q & E).
  destruct (Nat.le_gt_cases (length p + length sub) (length a)) as [Hle|Hgt].
  - left. apply contains_spec.
    exists p, (take (length a - length p - length sub) q).
    apply (f_equal (take (length a))) in E.
    rewrite take_app_length in E.
    remember (length a) as n eqn:Hn. rewrite E.
    rewrite !take_app, (take_ge p), (take_ge sub) by lia.
    reflexivity.
  - destruct (Nat.le_gt_cases (length p) (length a)) as [Hle|Hlt].
    + exfalso. apply Hc.
      assert (Hl : (a ++ [c] ++ b) !! length a = Some c)
        by now apply list_lookup_middle.
      rewrite E, lookup_app_r, lookup_app_l in Hl by lia.
      eapply list_elem_of_lookup_2, Hl.
    + right. apply contains_spec.
      exists (drop (S (length a)) p), q.
      apply (f_equal (drop (S (length a)))) in E.
      rewrite (app_assoc a [c] b) in E.
      rewrite drop_app_length' in E by (rewrite length_app; cbn; lia).
      rewrite E, drop_app.
      replace (S (length a) - length p) with 0 by lia. reflexivity.
Qed.

Lemma split_from_marked (sub : str) (c : N) (fuel : nat) :
  c ∉ sub ->
  forall s, length s <= fuel -> contains sub s = true ->
    exists l, l ∈ split_from fuel [c] s /\ contains sub l = true.
Proof.
  intros Hc. induction fuel as [|fuel IH]; intros s Hlen H; cbn [split_from].
  - exists s. split; [apply list_elem_of_here|exact H].
  - destruct (find [c] s) as [i|] eqn:E.
    + pose proof (find_Some_cut _ _ _ E) as Hs. cbn [length] in Hs.
      rewrite Hs in H. apply contains_around in H as [H|H]; [| |exact Hc].
      * exists (take i s). split; [apply list_elem_of_here|exact H].
      * destruct (IH (drop (i + 1) s)) as (l & Hl & Hsub); [|exact H|].
        -- rewrite length_drop.
           apply (f_equal length) in Hs. rewrite !length_app in Hs.
           cbn in Hs. lia.
        -- exists l. split; [now apply list_elem_of_further|exact Hsub].
    + exists s. split; [apply list_elem_of_here|exact H].
Qed.

Lemma last_filter_Some {A} (f : A -> bool) (l : list A) (x : A) :
  x ∈ l -> f x = true ->
  exists y, last (List.filter f l) = Some y /\ y ∈ l /\ f y = true.
Proof.
  intros Hx Hf.
  assert (Hin : x ∈ List.filter f l).
  { apply list_elem_of_In, filter_In. split; [now apply list_elem_of_In|exact Hf]. }
  destruct (last (List.filter f l)) as [y|] eqn:E.
  - exists y. split; [reflexivity|].
    apply last_Some_elem_of, list_elem_of_In, filter_In in E as [Hy Hfy].
    split; [now apply list_elem_of_In|exact Hfy].
  - apply last_None in E. rewrite E in Hin. now apply elem_of_nil in Hin.
Qed.

Lemma split_from_nonempty (sep : str) (fuel : nat) (s : str) :
  exists p ps, split_from fuel sep s = p :: ps.
Proof. destruct fuel; cbn; [eauto|]. destruct (find sep s); eauto. Qed.

(** A line that holds the separator is cut in two pieces at least. *)
Lemma split_second_piece (sep s : str) :
  sep <> [] -> contains sep s = true -> exists text, split sep s !! 1 = Some text.
Proof.
  intros Hsep H.
  destruct (find sep s) as [i|] eqn:E;
    [|apply find_None in E; congruence].
  rewrite (split_cut _ _ _ Hsep E). cbn.
  destruct (split_from_nonempty sep (length (drop (i + length sep) s))
              (drop (i + length sep) s)) as (p & ps & Hp).
  unfold split. rewrite Hp. eauto.
Qed.

Lemma SCORE_MARKER_one_line : (10%N : N) ∉ SCORE_MARKER.
Proof.
  intros H. vm_compute in H.
  repeat (apply elem_of_cons in H as [H|H]; [discriminate|]).
  now apply elem_of_nil in H.
Qed.

(** X13: [score] reports an [IndexError] exactly when the content does
    not hold [Total Score:] anywhere: the marker has no line break in it,
    so a content that holds it has a line that holds it, and the last such
    line is cut in two pieces at least, so the subscript [1] of the split
    cannot fail. With the marker present, the score is the number the
    second piece of that line parses to, and -1.0 with a [ValueError]
    diagnostic when it does not parse. *)
Theorem index_error_iff_no_marker `{!PyRuntime} (m : ScoreMessage) :
  (ScoreMessageM.score_echo m
   = (Return PyFloat.minus_one, [ErrorParsingScore IndexError (content m)]) <->
   contains SCORE_MARKER (content m) = false) /\
  (contains SCORE_MARKER (content m) = true ->
   exists line text,
     last (List.filter (contains SCORE_MARKER) (split newline (content m)))
       = Some line /\
     contains SCORE_MARKER line = true /\
     split SCORE_MARKER line !! 1 = Some text /\
     ScoreMessageM.score_echo m
     = match py_float (strip text) with
       | Some x => (Return x, [])
       | None => (Return PyFloat.minus_one,
                  [ErrorParsingScore ValueError (content m)])
       end).
Proof.
  assert (Hyes : contains SCORE_MARKER (content m) = true ->
    exists line text,
      last (List.filter (contains SCORE_MARKER) (split newline (content m)))
        = Some line /\
      contains SCORE_MARKER line = true /\
      split SCORE_MARKER line !! 1 = Some text /\
      ScoreMessageM.score_echo m
      = match py_float (strip text) with
        | Some x => (Return x, [])
        | None => (Return PyFloat.minus_one,
                   [ErrorParsingScore ValueError (content m)])
        end).
  { intros Hin.
    destruct (split_from_marked SCORE_MARKER 10%N (length (content m))
                SCORE_MARKER_one_line (content m) (le_n _) Hin) as (l & Hl & Hsub).
    destruct (last_filter_Some (contains SCORE_MARKER) _ l Hl Hsub)
      as (line & Hlast & Hline & Hmarked).
    destruct (split_second_piece SCORE_MARKER line) as [text Htext];
      [discriminate|exact Hmarked|].
    exists line, text. split; [exact Hlast|]. split; [exact Hmarked|].
    split; [exact Htext|].
    unfold ScoreMessageM.score_echo, ScoreMessageM.score_try.
    change (split newline (content m))
      with (split_from (length (content m)) [10%N] (content m)).
    rewrite Hlast, Htext. now destruct (py_float (strip text)). }
  split; [|exact Hyes]. split.
  - intros E. destruct (contains SCORE_MARKER (content m)) eqn:Hin; [|reflexivity].
    destruct (Hyes eq_refl) as (line & text & _ & _ & _ & E').
    rewrite E' in E. destruct (py_float (strip text)); discriminate.
  - intros Hno. unfold ScoreMessageM.score_echo, ScoreMessageM.score_try.
    rewrite filter_none; [reflexivity|].
    apply Forall_forall. intros l Hl.
    apply split_from_pieces in Hl as (pre & post & Hc).
    destruct (contains SCORE_MARKER l) eqn:E; [|reflexivity].
    rewrite Hc, contains_piece in Hno by exact E. discriminate.
Qed.

Lemma index_error_iff_no_marker_witness :
  ScoreMessageM.score_echo (MessageM.assistant (lit "Score: 7"))
  = (Return PyFloat.minus_one, [ErrorParsingScore IndexError (lit "Score: 7")]).
Proof.
  apply (proj2 (proj1 (index_error_iff_no_marker
                         (MessageM.assistant (lit "Score: 7"))))).
  vm_compute. reflexivity.
Defined.

(** ** The order of the queue *)

Section Order.
Context `{!PyRuntime}.

Lemma lt_scores (a b : Step) (v : bool) :
  StepM.__lt__ a b = Return v ->
  exists x y, StepM.score a = Return x /\ StepM.score b = Return y /\
              v = PyFloat.ltb y x.
Proof.
  unfold StepM.__lt__.
  destruct (step_score_returns a) as [x ->], (step_score_returns b) as [y ->].
  cbn. intros [= <-]. eauto.
Qed.

(** X14: the comparison [<] of steps is a strict order: no step is less
    than itself, two steps are never each less than the other, and
    [a < b] with [b < c] gives [a < c]. *)
Theorem lt_is_a_strict_order (a b c : Step) :
  StepM.__lt__ a a = Return false /\
  (StepM.__lt__ a b = Return true -> StepM.__lt__ b a = Return false) /\
  (StepM.__lt__ a b = Return true -> StepM.__lt__ b c = Return true ->
   StepM.__lt__ a c = Return true).
Proof.
  split; [|split].
  - unfold StepM.__lt__. destruct (step_score_returns a) as [x ->]. cbn.
    f_equal. apply ltb_irrefl.
  - intros Hab. apply lt_scores in Hab as (x & y & Hx & Hy & Hlt).
    unfold StepM.__lt__. rewrite Hx, Hy. cbn. f_equal.
    now apply ltb_asym.
  - intros Hab Hbc.
    apply lt_scores in Hab as (x & y & Hx & Hy & Hyx).
    apply lt_scores in Hbc as (y' & z & Hy' & Hz & Hzy).
    rewrite Hy in Hy'. injection Hy' as <-.
    unfold StepM.__lt__. rewrite Hx, Hz. cbn. f_equal.
    now apply (ltb_trans z y x).
Qed.

(** X15: a step whose score is NaN (a score message that ends in
    [Total Score: nan]) is neither less nor greater than any step: both
    comparisons are false. A min-heap then leaves such a step where it was
    pushed: of two steps pushed on the empty heap the first one is popped
    first, whatever the score of the other one. *)
Theorem nan_score_is_incomparable (a b : Step) :
  StepM.score a = Return S754_nan ->
  StepM.__lt__ a b = Return false /\
  StepM.__lt__ b a = Return false /\
  push_push_pop a b = Return (a, [b]) /\
  push_push_pop b a = Return (b, [a]).
Proof.
  intros Ha.
  assert (Hab : StepM.__lt__ a b = Return false).
  { unfold StepM.__lt__. rewrite Ha.
    destruct (step_score_returns b) as [y ->]. cbn.
    now destruct y as [[]|[]| |[] m e]. }
  assert (Hba : StepM.__lt__ b a = Return false).
  { unfold StepM.__lt__. rewrite Ha.
    destruct (step_score_returns b) as [y ->]. cbn.
    now destruct y as [[]|[]| |[] m e]. }
  split; [exact Hab|]. split; [exact Hba|].
  unfold push_push_pop, heapq.heappush, heapq._siftdown. cbn.
  rewrite Hab, Hba. cbn. split; reflexivity.
Qed.

End Order.

Lemma lt_is_a_strict_order_witness :
  StepM.__lt__ Examples.low Examples.high = Return false.
Proof.
  apply (proj1 (proj2 (lt_is_a_strict_order Examples.high Examples.low
                         Examples.low))).
  vm_compute. reflexivity.
Defined.

Lemma nan_score_is_incomparable_witness :
  StepM.__lt__ Examples.high Examples.not_a_number = Return false /\
  push_push_pop Examples.not_a_number Examples.high
  = Return (Examples.not_a_number, [Examples.high]).
Proof.
  split.
  - refine (proj1 (proj2 (nan_score_is_incomparable Examples.not_a_number
                            Examples.high _))).
    vm_compute. reflexivity.
  - refine (proj1 (proj2 (proj2 (nan_score_is_incomparable
                                   Examples.not_a_number Examples.high _)))).
    vm_compute. reflexivity.
Defined.

(** ** Bounds of the scores of a tree *)

Section Bounds.
(** [lt] is [PyFloat.ltb] and [pick] is [PyFloat.min2], or [lt] is
    [PyFloat.gtb] and [pick] is [PyFloat.max2]. *)
Variable lt : float -> float -> bool.
Variable pick : float -> float -> float.
Hypothesis pick_lt : forall a b, pick a b = if lt b a then b else a.
Hypothesis lt_irrefl : forall a, lt a a = false.
Hypothesis lt_trans : forall a b c, lt a b = true -> lt b c = true -> lt a c = true.
Hypothesis lt_between :
  forall a b c, is_nan b = false -> lt a c = true -> lt a b = true \/ lt b c = true.

Lemma bound_pick (s1 s2 : list float) (a b : float) :
  no_nan s2 -> bound lt s1 a -> bound lt s2 b -> bound lt (s1 ++ s2) (pick a b).
Proof.
  intros Hn [Ha Hla] [Hb Hlb]. rewrite pick_lt.
  destruct (lt b a) eqn:Eba; split.
  - apply elem_of_app. now right.
  - apply Forall_app. split; [|exact Hlb].
    eapply Forall_impl; [exact Hla|]. cbn. intros y Hya.
    destruct (lt y b) eqn:Eyb; [|reflexivity].
    now rewrite (lt_trans y b a Eyb Eba) in Hya.
  - apply elem_of_app. now left.
  - apply Forall_app. split; [exact Hla|].
    eapply Forall_impl; [exact Hlb|]. cbn. intros y Hyb.
    destruct (lt y a) eqn:Eya; [|reflexivity].
    unfold no_nan in Hn. rewrite Forall_forall in Hn.
    destruct (lt_between y b a (Hn b Hb) Eya); congruence.
Qed.

Lemma bound_fold (groups : list (list float)) (picks : list float) :
  Forall2 (fun s m => no_nan s /\ bound lt s m) groups picks ->
  forall s0 m0, bound lt s0 m0 ->
    bound lt (s0 ++ concat groups) (fold_left pick picks m0).
Proof.
  induction 1 as [|s m groups picks [Hn Hm] Hrest IH]; intros s0 m0 Hm0; cbn.
  - now rewrite app_nil_r.
  - rewrite app_assoc. apply IH. now apply bound_pick.
Qed.

Lemma bound_singleton (x : float) : bound lt [x] x.
Proof.
  split; [apply list_elem_of_here|]. constructor; [apply lt_irrefl|constructor].
Qed.

(** The bound of a node with children. *)
Lemma bound_node (x : float) (s1 : list float) (groups : list (list float))
    (m1 : float) (picks : list float) :
  no_nan s1 -> no_nan (concat groups) -> bound lt s1 m1 ->
  Forall2 (fun s m => no_nan s /\ bound lt s m) groups picks ->
  bound lt (x :: s1 ++ concat groups) (pick x (fold_left pick picks m1)).
Proof.
  intros Hn1 Hn Hm1 Hrest.
  apply (bound_pick [x]); [apply Forall_app; now split|apply bound_singleton|].
  now apply bound_fold.
Qed.

End Bounds.

Section TreeBounds.
Context `{!PyRuntime}.
Variable h : heap.

Lemma children_bounds (fuel : nat) (children : list loc)
    (below : list (list float)) :
  (forall tree scores,
     tree_scores fuel h tree = Return scores -> no_nan scores ->
     exists mn mx,
       Visualize.get_min_max_scores fuel h tree = Return (mn, mx) /\
       bound PyFloat.ltb scores mn /\ bound PyFloat.gtb scores mx) ->
  Forall2 (fun c s => tree_scores fuel h c = Return s) children below ->
  no_nan (concat below) ->
  exists results,
    ConversationM.for_each (Visualize.get_min_max_scores fuel h) children
      = Return results /\
    Forall2 (fun s m => no_nan s /\ bound PyFloat.ltb s m) below (results.*1) /\
    Forall2 (fun s m => no_nan s /\ bound PyFloat.gtb s m) below (results.*2).
Proof.
  intros IH Hbelow. induction Hbelow as [|c s children below Hc Hrest IHrest];
    cbn; intros Hn.
  - exists []. repeat split; constructor.
  - apply Forall_app in Hn as [Hs Hn].
    destruct (IH c s Hc Hs) as (mn & mx & Hmm & Hmn & Hmx).
    destruct (IHrest Hn) as (results & Hres & Hmins & Hmaxs).
    exists ((mn, mx) :: results). rewrite Hmm, Hres. cbn.
    repeat split; constructor; auto.
Qed.

Lemma get_min_max_scores_bounds (fuel : nat) :
  forall tree scores,
    tree_scores fuel h tree = Return scores -> no_nan scores ->
    exists mn mx,
      Visualize.get_min_max_scores fuel h tree = Return (mn, mx) /\
      bound PyFloat.ltb scores mn /\ bound PyFloat.gtb scores mx.
Proof.
  induction fuel as [|fuel IH]; intros tree scores Hscores Hn; [discriminate|].
  cbn in Hscores. cbn [Visualize.get_min_max_scores].
  destruct (h !! tree) as [s|]; [|discriminate].
  destruct (StepM.score s) as [x| | |] eqn:Ex; try discriminate.
  cbn in Hscores.
  destruct (ConversationM.for_each (tree_scores fuel h) (child_steps s))
    as [below| | |] eqn:Ebelow; try discriminate.
  cbn in Hscores. injection Hscores as <-.
  apply for_each_inv in Ebelow.
  apply Forall_cons in Hn as [Hx Hn].
  destruct (children_bounds fuel _ _ IH Ebelow Hn)
    as (results & Hres & Hmins & Hmaxs).
  destruct (child_steps s) as [|c cs] eqn:Ecs.
  - inversion Ebelow; subst. cbn. exists x, x.
    split; [reflexivity|].
    split; apply bound_singleton; intros a; apply ltb_irrefl.
  - rewrite Hres. cbn.
    destruct results as [|[mn1 mx1] results];
      [inversion Hmins; subst; inversion Ebelow|].
    destruct below as [|s1 below]; [inversion Hmins|].
    cbn. eexists _, _. split; [reflexivity|].
    apply Forall2_cons_1 in Hmins as [[Hn1 Hmn1] Hmins].
    apply Forall2_cons_1 in Hmaxs as [[_ Hmx1] Hmaxs].
    cbn in Hn. apply Forall_app in Hn as [_ Hn].
    split.
    + now apply (bound_node PyFloat.ltb PyFloat.min2 (fun a b => eq_refl)
                   ltb_irrefl ltb_trans ltb_between).
    + now apply (bound_node PyFloat.gtb PyFloat.max2 (fun a b => eq_refl)
                   (fun a => ltb_irrefl a) gtb_trans gtb_between).
Qed.

End TreeBounds.

Lemma for_each_returns {A B} (f : A -> outcome B) (l : list A) :
  (forall x, x ∈ l -> exists y, f x = Return y) ->
  exists ys, ConversationM.for_each f l = Return ys /\ length ys = length l.
Proof.
  induction l as [|a l IH]; intros Hf; cbn; [now exists []|].
  destruct (Hf a) as [y ->]; [apply list_elem_of_here|].
  destruct IH as (ys & -> & Hlen);
    [intros x Hx; apply Hf; now apply list_elem_of_further|].
  exists (y :: ys). cbn. now rewrite Hlen.
Qed.

Section TreeReturns.
Context `{!PyRuntime}.
Variable h : heap.

Lemma min_max_of_children (fuel : nat) (children : list loc) (x : float) :
  children <> [] ->
  (forall c, c ∈ children ->
     exists mm, Visualize.get_min_max_scores fuel h c = Return mm) ->
  exists mn mx,
    (child_min_max_scores ←
       ConversationM.for_each (Visualize.get_min_max_scores fuel h) children;
     child_min_score ← Builtins.min (child_min_max_scores.*1);
     child_max_score ← Builtins.max (child_min_max_scores.*2);
     score ← Return x;
     Return (PyFloat.min2 score child_min_score,
             PyFloat.max2 score child_max_score)) = Return (mn, mx).
Proof.
  intros Hne Hc.
  destruct (for_each_returns _ children Hc) as (results & -> & Hlen).
  destruct results as [|[mn1 mx1] results];
    [destruct children; [congruence|discriminate]|].
  cbn. eauto.
Qed.

Lemma returns_below (n : nat) :
  forall parent step fuel,
    steps_below n h parent step = true -> n <= fuel ->
    (exists mm, Visualize.get_min_max_scores fuel h step = Return mm) /\
    (exists scores, tree_scores fuel h step = Return scores).
Proof.
  induction n as [|n IH]; intros parent step fuel Hwf Hfuel; [discriminate|].
  apply steps_below_inv in Hwf as (s & Hs & _ & Hchildren).
  destruct fuel as [|fuel]; [lia|].
  cbn [Visualize.get_min_max_scores tree_scores]. rewrite Hs.
  destruct (step_score_returns (ReasoningStep s)) as [x Hx].
  split.
  - cbn [child_steps]. destruct (step_child_steps s) as [|c cs] eqn:Ecs.
    + rewrite Hx. cbn. eauto.
    + destruct (min_max_of_children fuel (c :: cs) x) as (mn & mx & E);
        [discriminate| |].
      * intros c' Hc'. apply (IH step); [now apply Hchildren|lia].
      * rewrite Hx. exists (mn, mx). exact E.
  - rewrite Hx. cbn.
    destruct (for_each_returns (tree_scores fuel h) (step_child_steps s))
      as (below & -> & _); [|cbn; eauto].
    intros c Hc. apply (IH step); [now apply Hchildren|lia].
Qed.

(** On a well-formed tree the scores are read and the bounds are
    returned. *)
Lemma returns_on_tree (n : nat) (root : loc) (r : RootObj) (fuel : nat) :
  h !! root = Some (Root r) ->
  well_formed_tree n h root = true -> n < fuel ->
  exists mn mx scores,
    Visualize.get_min_max_scores fuel h root = Return (mn, mx) /\
    tree_scores fuel h root = Return (PyFloat.zero :: scores).
Proof.
  intros Hr Hwf Hfuel. unfold well_formed_tree in Hwf. rewrite Hr in Hwf.
  destruct fuel as [|fuel]; [lia|].
  cbn [Visualize.get_min_max_scores tree_scores]. rewrite Hr. cbn.
  rewrite forallb_forall in Hwf.
  assert (Hbelow : forall c, c ∈ root_child_steps r ->
            (exists mm, Visualize.get_min_max_scores fuel h c = Return mm) /\
            (exists scores, tree_scores fuel h c = Return scores)).
  { intros c Hc. apply (returns_below n root); [|lia].
    apply Hwf. now apply list_elem_of_In. }
  destruct (for_each_returns (tree_scores fuel h) (root_child_steps r))
    as (below & Ebelow & _); [intros c Hc; now apply Hbelow|].
  destruct (root_child_steps r) as [|c cs] eqn:Ecs.
  - cbn. eauto.
  - destruct (min_max_of_children fuel (c :: cs) PyFloat.zero)
      as (mn & mx & E); [discriminate|intros c' Hc'; now apply Hbelow|].
    exists mn, mx, (concat below). rewrite Ebelow. cbn in E |- *.
    split; [|reflexivity].
    destruct (Visualize.get_min_max_scores fuel h c) as [mm| | |];
      try discriminate.
    cbn in E |- *.
    destruct (ConversationM.for_each (Visualize.get_min_max_scores fuel h) cs)
      as [mms| | |]; try discriminate.
    exact E.
Qed.

End TreeReturns.

(** X16: whatever the shape of the tree below a step, when none of the
    scores in it is NaN, [get_min_max_scores] returns two of these scores,
    the first one with no score of the tree below it and the second one
    with no score of the tree above it. *)
Theorem min_max_bound_every_score `{!PyRuntime} (fuel : nat) (h : heap)
    (tree : loc) (scores : list float) :
  tree_scores fuel h tree = Return scores ->
  no_nan scores ->
  exists mn mx,
    Visualize.get_min_max_scores fuel h tree = Return (mn, mx) /\
    mn ∈ scores /\ mx ∈ scores /\
    Forall (fun y => PyFloat.ltb y mn = false /\ PyFloat.ltb mx y = false) scores.
Proof.
  intros Hscores Hn.
  destruct (get_min_max_scores_bounds h fuel tree scores Hscores Hn)
    as (mn & mx & E & [Hmn Hle] & [Hmx Hge]).
  exists mn, mx. split; [exact E|]. split; [exact Hmn|]. split; [exact Hmx|].
  rewrite Forall_forall in Hle, Hge. apply Forall_forall. intros y Hy.
  split; [now apply Hle|]. exact (Hge y Hy).
Qed.

Lemma min_max_bound_every_score_witness :
  exists mn mx,
    Visualize.get_min_max_scores 3 Examples.scored 0 = Return (mn, mx) /\
    mn ∈ map PyFloat.of_Z [0; 5; 9; 1; 2]%Z /\
    mx ∈ map PyFloat.of_Z [0; 5; 9; 1; 2]%Z /\
    Forall (fun y => PyFloat.ltb y mn = false /\ PyFloat.ltb mx y = false)
      (map PyFloat.of_Z [0; 5; 9; 1; 2]%Z).
Proof.
  apply (min_max_bound_every_score 3 Examples.scored 0).
  - vm_compute. reflexivity.
  - repeat constructor.
Defined.

(** X17: on a well-formed tree [get_min_max_scores] called on the root
    never raises: with fuel for the height of the tree it returns a pair,
    the root without children included, and the scores it has read start
    with the 0.0 of the root. *)
Theorem min_max_returns_on_trees `{!PyRuntime} (n : nat) (h : heap)
    (root : loc) (fuel : nat) :
  well_formed_tree n h root = true -> n < fuel ->
  exists mn mx scores,
    Visualize.get_min_max_scores fuel h root = Return (mn, mx) /\
    tree_scores fuel h root = Return (PyFloat.zero :: scores).
Proof.
  intros Hwf Hfuel. pose proof Hwf as Hwf'. unfold well_formed_tree in Hwf'.
  destruct (h !! root) as [[r|s]|] eqn:Hr; try discriminate.
  now apply (returns_on_tree h n root r fuel).
Qed.

Lemma min_max_returns_on_trees_witness :
  exists mn mx scores,
    Visualize.get_min_max_scores 3 Examples.scored 0 = Return (mn, mx) /\
    tree_scores 3 Examples.scored 0 = Return (PyFloat.zero :: scores).
Proof.
  apply (min_max_returns_on_trees 2 Examples.scored 0 3).
  - vm_compute. reflexivity.
  - lia.
Defined.

(** The score of the root lies between the bounds, and bounds that are
    equal leave no score but 0. *)
Lemma zero_within_bounds `{!PyRuntime} (fuel : nat) (h : heap) (tree : loc)
    (r : RootObj) (scores : list float) (mn mx : float) :
  h !! tree = Some (Root r) ->
  tree_scores fuel h tree = Return scores ->
  no_nan scores ->
  Visualize.get_min_max_scores fuel h tree = Return (mn, mx) ->
  PyFloat.ltb PyFloat.zero mn = false /\
  PyFloat.ltb mx PyFloat.zero = false /\
  (PyFloat.eqb mx mn = true ->
   Forall (fun y => PyFloat.eqb y PyFloat.zero = true) scores).
Proof.
  intros Hr Hscores Hn Hmm.
  destruct (get_min_max_scores_bounds h fuel tree scores Hscores Hn)
    as (mn' & mx' & E & [Hmn Hle] & [Hmx Hge]).
  rewrite Hmm in E. injection E as <- <-.
  assert (H0 : PyFloat.zero ∈ scores).
  { destruct fuel as [|fuel]; [discriminate|]. cbn in Hscores.
    rewrite Hr in Hscores. cbn in Hscores.
    destruct (ConversationM.for_each _ _); try discriminate.
    cbn in Hscores. injection Hscores as <-. apply list_elem_of_here. }
  unfold no_nan in Hn. rewrite Forall_forall in Hle, Hge, Hn.
  split; [now apply Hle|]. split; [exact (Hge _ H0)|].
  intros Heq. apply Forall_forall. intros y Hy.
  assert (Hsame : forall z, z ∈ scores -> PyFloat.eqb z mn = true).
  { intros z Hz. apply eqb_of_not_ltb; [now apply Hn|now apply Hn| |].
    - now apply Hle.
    - rewrite <- (ltb_eqb_l mx mn z Heq). exact (Hge z Hz). }
  apply (eqb_trans y mn); [now apply Hsame|].
  rewrite eqb_sym. now apply Hsame.
Qed.

(** X18: because the score 0.0 of the root takes part, the range that
    [main] computes on a tree without NaN scores always holds 0: the
    minimum is not above 0 and the maximum is not below it. When the two
    are equal, every score of the tree equals 0, so every step takes the
    branch [step.score == 0.0] of the colouring and the weight 0.5 of the
    branch [max_score == min_score] is never used. *)
Theorem range_holds_zero `{!PyRuntime} (fuel : nat) (h : heap) (tree : loc)
    (r : RootObj) (scores : list float) (mn mx : float) :
  h !! tree = Some (Root r) ->
  tree_scores fuel h tree = Return scores ->
  no_nan scores ->
  Visualize.get_min_max_scores fuel h tree = Return (mn, mx) ->
  PyFloat.ltb PyFloat.zero mn = false /\
  PyFloat.ltb mx PyFloat.zero = false /\
  (PyFloat.eqb mx mn = true ->
   Forall (fun y => PyFloat.eqb y PyFloat.zero = true /\
                    Visualize.score_color y mn mx = Return (lit "#00FF00"))
     scores).
Proof.
  intros Hr Hscores Hn Hmm.
  destruct (zero_within_bounds fuel h tree r scores mn mx Hr Hscores Hn Hmm)
    as (Hlow & Hhigh & Hall).
  split; [exact Hlow|]. split; [exact Hhigh|].
  intros Heq. eapply Forall_impl; [exact (Hall Heq)|]. cbn.
  intros y Hy. split; [exact Hy|].
  unfold Visualize.score_color. now rewrite Hy.
Qed.

Lemma range_holds_zero_witness :
  PyFloat.ltb PyFloat.zero (PyFloat.of_Z 0) = false /\
  PyFloat.ltb (PyFloat.of_Z 9) PyFloat.zero = false.
Proof.
  destruct (range_holds_zero 3 Examples.scored 0 (mkRoot [1; 2] Examples.base)
              (map PyFloat.of_Z [0; 5; 9; 1; 2]%Z) (PyFloat.of_Z 0)
              (PyFloat.of_Z 9)) as (Hlow & Hhigh & _).
  - vm_compute. reflexivity.
  - vm_compute. reflexivity.
  - repeat constructor.
  - vm_compute. reflexivity.
  - split; assumption.
Defined.

(** ** Colours *)

Lemma forall_range_spec (p : Z -> bool) (n : nat) :
  forall lo, forall_range lo n p = true ->
    forall z, (lo <= z < lo + Z.of_nat n)%Z -> p z = true.
Proof.
  induction n as [|n IH]; intros lo Hall z Hz; [lia|].
  cbn [forall_range] in Hall. apply andb_true_iff in Hall as [Hlo Hrest].
  destruct (Z.eq_dec z lo) as [->|Hne]; [exact Hlo|].
  apply (IH (lo + 1)%Z Hrest). lia.
Qed.

Lemma hex_digits_grow (fuel : nat) :
  forall n acc, length acc < length (Builtins.hex_digits (S fuel) n acc).
Proof.
  induction fuel as [|fuel IH]; intros n acc.
  - cbn. destruct (n / 16 =? 0)%Z; cbn; lia.
  - cbn [Builtins.hex_digits]. destruct (n / 16 =? 0)%Z; [cbn; lia|].
    etransitivity; [|apply IH]. cbn. lia.
Qed.

(** X19: the two hexadecimal digits of a channel, [hex(n)[2:].zfill(2)]:
    for [n] from 0 to 255 they are two characters that read back as [n];
    for a negative [n] the slice cuts the sign and the 0 off and leaves the
    [x], so the text starts with [x] and is no hexadecimal number. *)
Theorem hex2_round_trip (n : Z) :
  ((0 <= n <= 255)%Z ->
   length (Visualize.hex2 n) = 2 /\ hex_value (Visualize.hex2 n) = Some n) /\
  ((n < 0)%Z ->
   head (Visualize.hex2 n) = Some 120%N /\ hex_value (Visualize.hex2 n) = None).
Proof.
  split.
  - intros Hn.
    assert (Hall : forall_range 0 256
                     (fun z => (length (Visualize.hex2 z) =? 2) &&
                               bool_decide (hex_value (Visualize.hex2 z) = Some z))
                   = true) by (vm_compute; reflexivity).
    pose proof (forall_range_spec _ _ _ Hall n) as Hz. cbn beta in Hz.
    apply andb_true_iff in Hz as [Hlen Hval]; [|lia].
    split; [now apply Nat.eqb_eq in Hlen|now apply bool_decide_eq_true in Hval].
  - intros Hn. unfold Visualize.hex2, Builtins.hex.
    destruct (Z.ltb_spec n 0) as [_|]; [|lia].
    change (drop 2 (lit "-" ++ lit "0x" ++ ?d)) with (120%N :: d).
    pose proof (hex_digits_grow (Z.to_nat (Z.log2 (Z.abs n))) (Z.abs n) []) as Hd.
    destruct (Builtins.hex_digits _ _ _) as [|d ds]; [cbn in Hd; lia|].
    split; reflexivity.
Qed.

Lemma hex2_round_trip_witness :
  length (Visualize.hex2 140) = 2 /\ hex_value (Visualize.hex2 140) = Some 140%Z.
Proof. apply (proj1 (hex2_round_trip 140)). lia. Defined.

Lemma sub_nan_l (y : float) : PyFloat.sub S754_nan y = S754_nan.
Proof. reflexivity. Qed.

Lemma sub_nan_r (x : float) : PyFloat.sub x S754_nan = S754_nan.
Proof. now destruct x. Qed.

Lemma div_nan_r (x : float) : PyFloat.div x S754_nan = S754_nan.
Proof. now destruct x. Qed.

(** X20: the colour of a step at the edges: a score equal to 0.0 is
    [#00FF00] whatever the bounds; when the bounds are equal and the score
    is not 0.0 the weight is 0.5 and the colour [#8c8c28], whatever the
    score; and when the bounds differ and the score, the minimum or the
    maximum is NaN, the weight is NaN and [int] raises [ValueError]. *)
Theorem score_color_edges (score mn mx : float) :
  (PyFloat.eqb score PyFloat.zero = true ->
   Visualize.score_color score mn mx = Return (lit "#00FF00")) /\
  (PyFloat.eqb score PyFloat.zero = false -> PyFloat.eqb mx mn = true ->
   Visualize.score_color score mn mx = Return (lit "#8c8c28")) /\
  (PyFloat.eqb score PyFloat.zero = false -> PyFloat.eqb mx mn = false ->
   (is_nan score || is_nan mn || is_nan mx) = true ->
   Visualize.score_color score mn mx = Raise ValueError).
Proof.
  unfold Visualize.score_color. split; [|split].
  - now intros ->.
  - now intros -> ->.
  - intros -> -> Hnan.
    assert (Hw : PyFloat.div (PyFloat.sub score mn) (PyFloat.sub mx mn) = S754_nan).
    { apply orb_true_iff in Hnan as [Hnan|Hnan];
        [apply orb_true_iff in Hnan as [Hnan|Hnan]|].
      - destruct score; try discriminate. now rewrite sub_nan_l.
      - destruct mn; try discriminate. now rewrite !sub_nan_r.
      - destruct mx; try discriminate. now rewrite sub_nan_l, div_nan_r. }
    rewrite Hw. reflexivity.
Qed.

Lemma score_color_edges_witness :
  Visualize.score_color S754_nan PyFloat.zero (PyFloat.of_Z 9) = Raise ValueError.
Proof.
  apply (proj2 (proj2 (score_color_edges S754_nan PyFloat.zero (PyFloat.of_Z 9))));
    reflexivity.
Defined.

(** The colour of a whole score from -10 to 10 between whole bounds. *)
Lemma score_color_small (s mn mx : Z) :
  (-10 <= mn)%Z -> (mn <= s <= mx)%Z -> (mx <= 10)%Z -> (mn < mx)%Z ->
  s <> 0%Z ->
  Visualize.score_color (PyFloat.of_Z s) (PyFloat.of_Z mn) (PyFloat.of_Z mx)
  = Return (lit "#" ++ Visualize.hex2 (exact_red s mn mx)
              ++ Visualize.hex2 (exact_green s mn mx) ++ lit "28").
Proof.
  intros Hmn Hs Hmx Hlt H0.
  assert (Hall :
    forall_range (-10) 21 (fun s =>
      forall_range (-10) 21 (fun mn =>
        forall_range (-10) 21 (fun mx =>
          negb ((mn <=? s) && (s <=? mx) && (mn <? mx) && negb (s =? 0))%Z ||
          match Visualize.score_color (PyFloat.of_Z s) (PyFloat.of_Z mn)
                  (PyFloat.of_Z mx) with
          | Return c =>
              bool_decide (c = lit "#" ++ Visualize.hex2 (exact_red s mn mx)
                                 ++ Visualize.hex2 (exact_green s mn mx)
                                 ++ lit "28")
          | _ => false
          end))) = true) by (vm_compute; reflexivity).
  pose proof (forall_range_spec _ _ _ Hall s ltac:(lia)) as H1. cbn beta in H1.
  pose proof (forall_range_spec _ _ _ H1 mn ltac:(lia)) as H2. cbn beta in H2.
  pose proof (forall_range_spec _ _ _ H2 mx ltac:(lia)) as H3. cbn beta in H3.
  clear Hall H1 H2.
  replace ((mn <=? s) && (s <=? mx) && (mn <? mx) && negb (s =? 0))%Z
    with true in H3
    by (symmetry; rewrite !andb_true_iff, negb_true_iff; repeat split;
        [apply Z.leb_le|apply Z.leb_le|apply Z.ltb_lt|apply Z.eqb_neq]; lia).
  cbn [negb orb] in H3.
  destruct (Visualize.score_color _ _ _) as [c| | |]; try discriminate.
  now apply bool_decide_eq_true in H3 as ->.
Qed.

(** X21: for a score, a minimum and a maximum that are whole numbers from
    -10 to 10, with the score between the bounds, the bounds different and
    the score not 0, the float arithmetic of the colouring loses nothing:
    the colour is [#rrgg28] where [rr] and [gg] are the two hexadecimal
    digits of 40 + 200 * (1 - weight) and of 40 + 200 * weight, computed
    exactly and rounded down; both channels lie between 40 and 240. *)
Theorem color_of_small_integer_scores (s mn mx : Z) :
  (-10 <= mn)%Z -> (mn <= s <= mx)%Z -> (mx <= 10)%Z -> (mn < mx)%Z ->
  s <> 0%Z ->
  Visualize.score_color (PyFloat.of_Z s) (PyFloat.of_Z mn) (PyFloat.of_Z mx)
  = Return (lit "#" ++ Visualize.hex2 (exact_red s mn mx)
              ++ Visualize.hex2 (exact_green s mn mx) ++ lit "28") /\
  (40 <= exact_red s mn mx <= 240)%Z /\
  (40 <= exact_green s mn mx <= 240)%Z.
Proof.
  intros Hmn Hs Hmx Hlt H0.
  split; [now apply score_color_small|].
  unfold exact_red, exact_green.
  assert (0 <= 200 * (s - mn) / (mx - mn) <= 200)%Z.
  { split; [apply Z.div_pos; lia|].
    apply Z.div_le_upper_bound; nia. }
  assert (-200 <= - (200 * (s - mn)) / (mx - mn) <= 0)%Z.
  { split; [apply Z.div_le_lower_bound; nia|].
    apply Z.div_le_upper_bound; nia. }
  lia.
Qed.

Lemma color_of_small_integer_scores_witness :
  Visualize.score_color (PyFloat.of_Z 1) (PyFloat.of_Z 0) (PyFloat.of_Z 3)
  = Return (lit "#ad6a28").
Proof.
  refine (proj1 (color_of_small_integer_scores 1 0 3 _ _ _ _ _)); lia.
Defined.

(** ** Nodes and edges *)

Section Listing.
Context `{!PyRuntime}.

Lemma create_node_id (step : loc) (s : Step) (mn mx : float)
    (node : StreamlitFlowNode) :
  Visualize.create_node step s mn mx = Return node -> node_id node = step.
Proof.
  unfold Visualize.create_node. destruct s as [r|r].
  - destruct (messages (base_conversation r)); [discriminate|].
    now intros [= <-].
  - destruct (StepM.score (ReasoningStep r)) as [x| | |]; try discriminate.
    cbn. destruct (Visualize.score_color x mn mx) as [c| | |]; try discriminate.
    cbn. now intros [= <-].
Qed.

(** The loop over the children keeps the listing. *)
Lemma process_children_listing (fuel : nat) (h : heap)
    (recurse : loc -> outcome Visualize.flow_elements) (this : loc) (s : Step) :
  h !! this = Some s ->
  (forall c out, recurse c = Return out -> tree_listing h c out) ->
  forall children acc out,
    (forall c, c ∈ children -> c ∈ child_steps s) ->
    tree_listing h this acc ->
    Visualize.process_children fuel h recurse this children acc = Return out ->
    tree_listing h this out.
Proof.
  intros Hthis Hrec.
  induction children as [|child rest IH]; intros acc out Hsub Hacc Hout.
  - cbn in Hout. now injection Hout as <-.
  - cbn [Visualize.process_children] in Hout.
    destruct (recurse child) as [[[cn ce] ci]| | |] eqn:Echild; try discriminate.
    cbn in Hout. destruct cn as [|first cn]; [discriminate|].
    destruct (Visualize.has_accepted_leafs fuel h child) as [accepted| | |] eqn:Eacc;
      try discriminate.
    cbn in Hout. destruct acc as [[nodes edges] ids].
    apply Hrec in Echild as (Hc1 & Hc2 & Hc3 & Hc4 & Hc5 & Hc6).
    cbn in Hc1. injection Hc1 as Hfirst.
    destruct Hacc as (Ha1 & Ha2 & Ha3 & Ha4 & Ha5 & Ha6).
    destruct nodes as [|n0 nodes]; [discriminate|].
    cbn in Ha1. injection Ha1 as Hn0.
    apply (IH _ _) in Hout; [exact Hout| |].
    { intros c Hc. apply Hsub. now apply list_elem_of_further. }
    clear IH Hout.
    split; [cbn; now rewrite Hn0|]. split; [|split; [|split; [|split]]].
    + rewrite !map_app, Ha2, Hc2. cbn. rewrite <- app_assoc. cbn.
      f_equal. destruct accepted; reflexivity.
    + rewrite !Forall_app. split; [split|].
      * eapply Forall_impl; [exact Ha3|]. intros e [He Hs].
        split; [|exact Hs]. rewrite map_app. apply elem_of_app. now left.
      * constructor; [|constructor]. split.
        -- rewrite map_app. apply elem_of_app. left.
           destruct accepted; cbn; rewrite Hn0; apply list_elem_of_here.
        -- exists s. rewrite Hfirst.
           destruct accepted; cbn; (split; [exact Hthis|]);
             apply Hsub, list_elem_of_here.
      * eapply Forall_impl; [exact Hc3|]. intros e [He Hs].
        split; [|exact Hs]. rewrite map_app. apply elem_of_app. now right.
    + rewrite !Forall_app. split; [split|]; [exact Ha4| |exact Hc4].
      constructor; [|constructor]. exists fuel, accepted.
      destruct accepted; cbn; rewrite Hfirst; auto.
    + intros k. rewrite lookup_union_is_Some, Ha5, Hc5, map_app, elem_of_app.
      tauto.
    + intros k v Hk. apply lookup_union_Some_raw in Hk as [Hk|[_ Hk]]; eauto.
Qed.

Lemma create_flow_elements_listing (h : heap) (mn mx : float) (fuel : nat) :
  forall step out,
    Visualize.create_flow_elements fuel h step mn mx = Return out ->
    tree_listing h step out.
Proof.
  induction fuel as [|fuel IH]; intros step out Hout; [discriminate|].
  cbn [Visualize.create_flow_elements] in Hout.
  destruct (h !! step) as [s|] eqn:Hs; [|discriminate].
  destruct (Visualize.create_node step s mn mx) as [node| | |] eqn:Enode;
    try discriminate.
  cbn in Hout. apply create_node_id in Enode.
  eapply process_children_listing in Hout;
    [exact Hout|exact Hs|exact IH|auto|].
  cbn. rewrite Enode. split; [reflexivity|]. split; [reflexivity|].
  split; [constructor|]. split; [constructor|]. split.
  - intros k. rewrite lookup_singleton_is_Some, list_elem_of_singleton.
    split; congruence.
  - intros k v Hk. apply lookup_singleton_Some in Hk as [<- <-]. reflexivity.
Qed.

End Listing.

(** The nodes are listed in pre-order. *)
Lemma process_children_nodes `{!PyRuntime} (fuel : nat) (h : heap)
    (recurse : loc -> outcome Visualize.flow_elements) (this : loc) :
  forall children acc out,
    Visualize.process_children fuel h recurse this children acc = Return out ->
    exists lists,
      Forall2 (fun c ids => exists out', recurse c = Return out' /\
                                        map node_id out'.1.1 = ids)
        children lists /\
      map node_id out.1.1 = map node_id acc.1.1 ++ concat lists.
Proof.
  induction children as [|child rest IH]; intros acc out Hout.
  - cbn in Hout. injection Hout as <-. exists []. split; [constructor|].
    cbn. now rewrite app_nil_r.
  - cbn [Visualize.process_children] in Hout.
    destruct (recurse child) as [[[cn ce] ci]| | |] eqn:Echild; try discriminate.
    cbn in Hout. destruct cn as [|first cn]; [discriminate|].
    destruct (Visualize.has_accepted_leafs fuel h child) as [accepted| | |];
      try discriminate.
    cbn in Hout. destruct acc as [[nodes edges] ids].
    apply IH in Hout as (lists & Hlists & Hnodes).
    exists (map node_id (first :: cn) :: lists). split.
    + constructor; [|exact Hlists]. eexists. split; [exact Echild|reflexivity].
    + rewrite Hnodes. cbn. rewrite map_app. cbn. now rewrite <- app_assoc.
Qed.

Lemma create_flow_elements_preorder `{!PyRuntime} (h : heap) (mn mx : float)
    (fuel : nat) :
  forall step out,
    Visualize.create_flow_elements fuel h step mn mx = Return out ->
    preorder fuel h step = Return (map node_id out.1.1).
Proof.
  induction fuel as [|fuel IH]; intros step out Hout; [discriminate|].
  cbn [Visualize.create_flow_elements] in Hout. cbn [preorder].
  destruct (h !! step) as [s|]; [|discriminate].
  destruct (Visualize.create_node step s mn mx) as [node| | |] eqn:Enode;
    try discriminate.
  cbn in Hout. apply create_node_id in Enode.
  apply process_children_nodes in Hout as (lists & Hlists & Hnodes).
  rewrite (for_each_intro _ _ lists).
  - cbn. rewrite Hnodes. cbn. now rewrite Enode.
  - eapply Forall2_impl; [exact Hlists|]. cbn.
    intros c ids (out' & Hout' & <-). now apply IH.
Qed.

(** X22: what [create_flow_elements] returns for a step lists the tree
    below it: the nodes are the steps of the tree in pre-order, the node of
    the step first; the targets of the edges are, in order, the identities
    of all nodes but the first, so there is one edge less than there are
    nodes; every edge goes from a listed step to one of its [child_steps];
    and the keys of [ids_to_step] are the identities of the nodes, each
    one bound to the step of that identity, so that the look-up of a
    listed node in [main] cannot fail. *)
Theorem flow_elements_list_a_tree `{!PyRuntime} (fuel : nat) (h : heap)
    (step : loc) (min_score max_score : float)
    (nodes : list StreamlitFlowNode) (edges : list StreamlitFlowEdge)
    (ids_to_step : gmap loc loc) :
  Visualize.create_flow_elements fuel h step min_score max_score
    = Return (nodes, edges, ids_to_step) ->
  preorder fuel h step = Return (map node_id nodes) /\
  head (map node_id nodes) = Some step /\
  map target edges = tail (map node_id nodes) /\
  length nodes = S (length edges) /\
  Forall (fun e => source e ∈ map node_id nodes /\
                   exists s, h !! source e = Some s /\
                             target e ∈ child_steps s) edges /\
  (forall k, k ∈ map node_id nodes <-> ids_to_step !! k = Some k).
Proof.
  intros Hout.
  split; [exact (create_flow_elements_preorder h _ _ fuel step _ Hout)|].
  apply create_flow_elements_listing in Hout as (H1 & H2 & H3 & _ & H5 & H6).
  split; [exact H1|]. split; [exact H2|]. split; [|split; [exact H3|]].
  2:{ intros k. rewrite <- H5. split; [|eauto].
      intros [v Hv]. now rewrite (H6 k v Hv) in Hv. }
  apply (f_equal length) in H2. rewrite length_map in H2.
  destruct nodes; [discriminate|]. cbn in H2 |- *.
  rewrite length_map in H2. lia.
Qed.

Lemma flow_elements_list_a_tree_witness :
  exists nodes edges ids_to_step,
    Visualize.create_flow_elements 3 Examples.scored 0 (PyFloat.of_Z 0)
      (PyFloat.of_Z 9) = Return (nodes, edges, ids_to_step) /\
    map node_id nodes = [0; 1; 3; 4; 2] /\
    map target edges = tail (map node_id nodes).
Proof.
  destruct (Visualize.create_flow_elements 3 Examples.scored 0 (PyFloat.of_Z 0)
              (PyFloat.of_Z 9)) as [[[nodes edges] ids]| | |] eqn:E;
    try (vm_compute in E; discriminate E).
  exists nodes, edges, ids. split; [reflexivity|].
  split; [vm_compute in E; now injection E as <- _ _|].
  exact (proj1 (proj2 (proj2
           (flow_elements_list_a_tree 3 Examples.scored 0 _ _ _ _ _ E)))).
Defined.

(** X23: every edge that [create_flow_elements] returns, at whatever
    depth, is styled by [has_accepted_leafs] of the step it points to:
    that call returned, and the edge is green ([#33FF33]), 4px wide and at
    z-index 10 when it returned true, grey ([#555555]), 2px wide and at
    z-index 0 when it returned false. *)
Theorem edges_show_accepted_leafs `{!PyRuntime} (fuel : nat) (h : heap)
    (step : loc) (min_score max_score : float)
    (nodes : list StreamlitFlowNode) (edges : list StreamlitFlowEdge)
    (ids_to_step : gmap loc loc) :
  Visualize.create_flow_elements fuel h step min_score max_score
    = Return (nodes, edges, ids_to_step) ->
  Forall (fun e =>
            exists fuel' accepted,
              Visualize.has_accepted_leafs fuel' h (target e) = Return accepted /\
              edge_style e
              = if (accepted : bool) then (lit "#33FF33", lit "4px", 10%Z)
                else (lit "#555555", lit "2px", 0%Z)) edges.
Proof.
  intros Hout.
  now apply create_flow_elements_listing in Hout as (_ & _ & _ & H4 & _ & _).
Qed.

Lemma edges_show_accepted_leafs_witness :
  exists nodes edges ids_to_step,
    Visualize.create_flow_elements 3 Examples.scored 0 (PyFloat.of_Z 0)
      (PyFloat.of_Z 9) = Return (nodes, edges, ids_to_step) /\
    map target edges = [1; 3; 4; 2] /\
    Forall (fun e =>
              exists fuel' accepted,
                Visualize.has_accepted_leafs fuel' Examples.scored (target e)
                = Return accepted /\
                edge_style e
                = if (accepted : bool) then (lit "#33FF33", lit "4px", 10%Z)
                  else (lit "#555555", lit "2px", 0%Z)) edges.
Proof.
  destruct (Visualize.create_flow_elements 3 Examples.scored 0 (PyFloat.of_Z 0)
              (PyFloat.of_Z 9)) as [[[nodes edges] ids]| | |] eqn:E;
    try (vm_compute in E; discriminate E).
  exists nodes, edges, ids. split; [reflexivity|].
  split; [vm_compute in E; now injection E as _ <- _|].
  exact (edges_show_accepted_leafs 3 Examples.scored 0 _ _ _ _ _ E).
Defined.

(** X24: a root whose base conversation has no message cannot be drawn:
    the label of its node reads [messages[0]], so [create_flow_elements]
    raises [IndexError] on it, and so does what [main] computes once the
    bounds of the scores are returned. *)
Theorem empty_base_conversation_raises `{!PyRuntime} (fuel : nat) (h : heap)
    (step : loc) (r : RootObj) (min_score max_score : float) :
  h !! step = Some (Root r) ->
  messages (base_conversation r) = [] ->
  Visualize.create_flow_elements (S fuel) h step min_score max_score
    = Raise IndexError /\
  (Visualize.get_min_max_scores (S fuel) h step = Return (min_score, max_score) ->
   Visualize.main_elements (S fuel) h step = Raise IndexError).
Proof.
  intros Hr Hempty.
  assert (E : Visualize.create_flow_elements (S fuel) h step min_score max_score
              = Raise IndexError).
  { cbn. rewrite Hr. cbn. now rewrite Hempty. }
  split; [exact E|]. intros Hmm. unfold Visualize.main_elements.
  rewrite Hmm. exact E.
Qed.

Lemma empty_base_conversation_raises_witness :
  Visualize.main_elements 1 Examples.speechless 0 = Raise IndexError.
Proof.
  refine (proj2 (empty_base_conversation_raises 0 Examples.speechless 0
                   (mkRoot [] (mkConversation [])) PyFloat.zero PyFloat.zero
                   _ _) _); vm_compute; reflexivity.
Defined.

(** ** Trees that are drawn *)

Lemma small_score_not_nan (x : float) : small_score x -> is_nan x = false.
Proof.
  intros (z & Hz & ->).
  assert (Hall : forall_range (-10) 21 (fun z => negb (is_nan (PyFloat.of_Z z)))
                 = true) by (vm_compute; reflexivity).
  apply negb_true_iff, (forall_range_spec _ _ _ Hall z). lia.
Qed.

Lemma ltb_small (a b : Z) :
  (-10 <= a <= 10)%Z -> (-10 <= b <= 10)%Z ->
  PyFloat.ltb (PyFloat.of_Z a) (PyFloat.of_Z b) = (a <? b)%Z.
Proof.
  intros Ha Hb.
  assert (Hall :
    forall_range (-10) 21 (fun a =>
      forall_range (-10) 21 (fun b =>
        bool_decide (PyFloat.ltb (PyFloat.of_Z a) (PyFloat.of_Z b) = (a <? b)%Z)))
    = true) by (vm_compute; reflexivity).
  pose proof (forall_range_spec _ _ _ Hall a ltac:(lia)) as H1. cbn beta in H1.
  pose proof (forall_range_spec _ _ _ H1 b ltac:(lia)) as H2. cbn beta in H2.
  now apply bool_decide_eq_true in H2.
Qed.

(** Between bounds that hold 0 every small score gets a colour. *)
Lemma small_score_color (s mn mx : Z) :
  (-10 <= mn)%Z -> (mn <= s <= mx)%Z -> (mx <= 10)%Z -> (mn <= 0 <= mx)%Z ->
  exists c, Visualize.score_color (PyFloat.of_Z s) (PyFloat.of_Z mn)
              (PyFloat.of_Z mx) = Return c.
Proof.
  intros Hmn Hs Hmx H0. destruct (Z.eq_dec s 0%Z) as [->|Hne].
  - eexists. reflexivity.
  - eexists. apply score_color_small; lia.
Qed.

Section Drawing.
Context `{!PyRuntime}.
Variable h : heap.
Variables min_score max_score : float.

(** The loop over the children returns when the recursive calls and the
    calls of [has_accepted_leafs] do. *)
Lemma process_children_returns (fuel : nat)
    (recurse : loc -> outcome Visualize.flow_elements) (this : loc) :
  forall children acc,
    (forall c, c ∈ children ->
       (exists out, recurse c = Return out /\ tree_listing h c out) /\
       (exists b, Visualize.has_accepted_leafs fuel h c = Return b)) ->
    exists out,
      Visualize.process_children fuel h recurse this children acc = Return out.
Proof.
  induction children as [|child rest IH]; intros acc Hc; [cbn; eauto|].
  cbn [Visualize.process_children].
  destruct (Hc child) as [([[cn ce] ci] & -> & Hlist) [b ->]];
    [apply list_elem_of_here|].
  cbn. destruct Hlist as (Hhead & _).
  destruct cn as [|first cn]; [discriminate|].
  destruct acc as [[nodes edges] ids]. apply IH.
  intros c Hin. apply Hc. now apply list_elem_of_further.
Qed.

Lemma scores_of_child (fuel : nat) (children : list loc)
    (below : list (list float)) (P : float -> Prop) (c : loc) :
  Forall2 (fun c s => tree_scores fuel h c = Return s) children below ->
  Forall P (concat below) -> c ∈ children ->
  exists s, tree_scores fuel h c = Return s /\ Forall P s.
Proof.
  induction 1 as [|c0 s0 children below Hc0 Hrest IH]; cbn; intros HP Hin.
  - now apply elem_of_nil in Hin.
  - apply Forall_app in HP as [Hs0 HP].
    apply elem_of_cons in Hin as [->|Hin]; eauto.
Qed.

Lemma create_flow_elements_below (n : nat) :
  forall parent step fuel scores,
    steps_below n h parent step = true -> n <= fuel ->
    tree_scores fuel h step = Return scores ->
    Forall (fun x => exists c,
              Visualize.score_color x min_score max_score = Return c) scores ->
    exists out,
      Visualize.create_flow_elements fuel h step min_score max_score = Return out.
Proof.
  induction n as [|n IH]; intros parent step fuel scores Hwf Hfuel Hscores Hcol;
    [discriminate|].
  apply steps_below_inv in Hwf as (s & Hs & _ & Hchildren).
  destruct fuel as [|fuel]; [lia|].
  cbn [tree_scores] in Hscores. cbn [Visualize.create_flow_elements].
  rewrite Hs in Hscores |- *.
  unfold Visualize.create_node.
  destruct (StepM.score (ReasoningStep s)) as [x| | |]; try discriminate.
  cbn in Hscores |- *.
  destruct (ConversationM.for_each (tree_scores fuel h) (step_child_steps s))
    as [below| | |] eqn:Ebelow; try discriminate.
  cbn in Hscores. injection Hscores as <-.
  apply Forall_cons in Hcol as [[c ->] Hcol]. cbn.
  apply for_each_inv in Ebelow.
  apply process_children_returns. intros child Hin. split.
  - destruct (scores_of_child fuel _ _ _ child Ebelow Hcol Hin) as (sc & Hsc & Hc).
    destruct (IH step child fuel sc) as [out Hout];
      [now apply Hchildren|lia|exact Hsc|exact Hc|].
    exists out. split; [exact Hout|].
    now apply (create_flow_elements_listing h min_score max_score fuel).
  - destruct (has_accepted_leafs_steps n h step child fuel) as (b & Hb & _);
      [now apply Hchildren|lia|eauto].
Qed.

Lemma create_flow_elements_tree (n : nat) (root : loc) (r : RootObj)
    (fuel : nat) (scores : list float) :
  h !! root = Some (Root r) ->
  well_formed_tree n h root = true -> n < fuel ->
  messages (base_conversation r) <> [] ->
  tree_scores fuel h root = Return scores ->
  Forall (fun x => exists c,
            Visualize.score_color x min_score max_score = Return c) scores ->
  exists out,
    Visualize.create_flow_elements fuel h root min_score max_score = Return out.
Proof.
  intros Hr Hwf Hfuel Hbase Hscores Hcol.
  unfold well_formed_tree in Hwf. rewrite Hr in Hwf.
  rewrite forallb_forall in Hwf.
  destruct fuel as [|fuel]; [lia|].
  cbn [tree_scores] in Hscores. cbn [Visualize.create_flow_elements].
  rewrite Hr in Hscores |- *. cbn in Hscores |- *.
  destruct (messages (base_conversation r)) as [|m0 ms]; [congruence|]. cbn.
  destruct (ConversationM.for_each (tree_scores fuel h) (root_child_steps r))
    as [below| | |] eqn:Ebelow; try discriminate.
  cbn in Hscores. injection Hscores as <-.
  apply Forall_cons in Hcol as [_ Hcol].
  apply for_each_inv in Ebelow.
  apply process_children_returns. intros child Hin.
  assert (Hchild : steps_below n h root child = true)
    by (apply Hwf; now apply list_elem_of_In).
  split.
  - destruct (scores_of_child fuel _ _ _ child Ebelow Hcol Hin) as (sc & Hsc & Hc).
    destruct (create_flow_elements_below n root child fuel sc) as [out Hout];
      [exact Hchild|lia|exact Hsc|exact Hc|].
    exists out. split; [exact Hout|].
    now apply (create_flow_elements_listing h min_score max_score fuel).
  - destruct (has_accepted_leafs_steps n h root child fuel) as (b & Hb & _);
      [exact Hchild|lia|eauto].
Qed.

End Drawing.

(** X25: what [main] computes from a tree is returned, nothing is raised,
    when the tree is well formed, the base conversation of its root has a
    message and every score is a whole number from -10 to 10: the bounds
    are found, every step gets a colour, and [has_accepted_leafs] is asked
    about the children only, never about the root. The nodes are the steps
    of the tree in pre-order, the root first. *)
Theorem main_returns_on_scored_trees `{!PyRuntime} (n : nat) (h : heap)
    (root : loc) (r : RootObj) (fuel : nat) (scores : list float) :
  h !! root = Some (Root r) ->
  well_formed_tree n h root = true -> n < fuel ->
  messages (base_conversation r) <> [] ->
  tree_scores fuel h root = Return scores ->
  Forall small_score scores ->
  exists nodes edges ids_to_step,
    Visualize.main_elements fuel h root = Return (nodes, edges, ids_to_step) /\
    preorder fuel h root = Return (map node_id nodes) /\
    head (map node_id nodes) = Some root.
Proof.
  intros Hr Hwf Hfuel Hbase Hscores Hsmall.
  assert (Hn : no_nan scores).
  { eapply Forall_impl; [exact Hsmall|]. apply small_score_not_nan. }
  destruct (get_min_max_scores_bounds h fuel root scores Hscores Hn)
    as (mn & mx & Hmm & [Hmn Hle] & [Hmx Hge]).
  destruct (zero_within_bounds fuel h root r scores mn mx Hr Hscores Hn Hmm)
    as (Hlow & Hhigh & _).
  rewrite Forall_forall in Hsmall, Hle, Hge.
  destruct (Hsmall mn Hmn) as (a & Ha & ->).
  destruct (Hsmall mx Hmx) as (b & Hb & ->).
  change PyFloat.zero with (PyFloat.of_Z 0) in Hlow, Hhigh.
  rewrite ltb_small in Hlow, Hhigh by lia.
  apply Z.ltb_ge in Hlow, Hhigh.
  unfold Visualize.main_elements. rewrite Hmm. cbn.
  destruct (create_flow_elements_tree h (PyFloat.of_Z a) (PyFloat.of_Z b)
              n root r fuel scores Hr Hwf Hfuel Hbase Hscores)
    as [[[nodes edges] ids] Hout].
  - apply Forall_forall. intros x Hx.
    destruct (Hsmall x Hx) as (s & Hs & ->).
    pose proof (Hle _ Hx) as Hlo. pose proof (Hge _ Hx) as Hhi.
    cbn beta in Hlo, Hhi. unfold PyFloat.gtb in Hhi.
    change (SFltb ?u ?v) with (PyFloat.ltb u v) in Hhi.
    rewrite ltb_small in Hlo, Hhi by lia.
    apply Z.ltb_ge in Hlo, Hhi.
    apply small_score_color; lia.
  - exists nodes, edges, ids. split; [exact Hout|]. split.
    + exact (create_flow_elements_preorder h _ _ fuel root _ Hout).
    + now apply create_flow_elements_listing in Hout as (Hhead & _).
Qed.

Lemma main_returns_on_scored_trees_witness :
  exists nodes edges ids_to_step,
    Visualize.main_elements 3 Examples.scored 0
      = Return (nodes, edges, ids_to_step) /\
    preorder 3 Examples.scored 0 = Return (map node_id nodes) /\
    head (map node_id nodes) = Some 0.
Proof.
  apply (main_returns_on_scored_trees 2 Examples.scored 0
           (mkRoot [1; 2] Examples.base) 3 (map PyFloat.of_Z [0; 5; 9; 1; 2]%Z)).
  - vm_compute. reflexivity.
  - vm_compute. reflexivity.
  - lia.
  - discriminate.
  - vm_compute. reflexivity.
  - repeat constructor; eexists; (split; [|reflexivity]); lia.
Defined.

(** ** What the checks read *)

Lemma any_ext {A} (f g : A -> outcome bool) (l : list A) :
  (forall x, x ∈ l -> f x = g x) -> Builtins.any f l = Builtins.any g l.
Proof.
  induction l as [|a l IH]; intros Hfg; cbn; [reflexivity|].
  rewrite (Hfg a) by apply list_elem_of_here.
  destruct (g a) as [[]| | |]; cbn; try reflexivity.
  apply IH. intros x Hx. apply Hfg. now apply list_elem_of_further.
Qed.

(** X27: [has_accepted_leafs] reads the shape of the tree and the
    [aborted] flags, nothing else: on two stores in which every identity
    denotes steps with the same presence and value of [aborted] and the
    same [child_steps], it gives the same result, whatever the scores, the
    messages and the terminal checks of the steps are. *)
Theorem accepted_leafs_reads_shape_only `{!PyRuntime} (h1 h2 : heap) :
  (forall l, (fun s => (Visualize.getattr_aborted s, child_steps s)) <$> h1 !! l
             = (fun s => (Visualize.getattr_aborted s, child_steps s)) <$> h2 !! l) ->
  forall fuel step,
    Visualize.has_accepted_leafs fuel h1 step
    = Visualize.has_accepted_leafs fuel h2 step.
Proof.
  intros Hshape. induction fuel as [|fuel IH]; intros step; [reflexivity|].
  cbn [Visualize.has_accepted_leafs].
  specialize (Hshape step).
  destruct (h1 !! step) as [s1|], (h2 !! step) as [s2|]; try discriminate;
    [|reflexivity].
  cbn in Hshape. injection Hshape as Ha Hc. rewrite Ha, Hc.
  destruct (child_steps s2) as [|c cs]; [reflexivity|].
  destruct (Visualize.getattr_aborted s2) as [[]|]; try reflexivity;
    apply any_ext; intros x _; apply IH.
Qed.

Lemma accepted_leafs_reads_shape_only_witness :
  Visualize.has_accepted_leafs 2 Examples.pruned 1
  = Visualize.has_accepted_leafs 2
      (<[2 := Examples.step [] 1 "another text" "3" false]> Examples.pruned) 1.
Proof.
  apply (accepted_leafs_reads_shape_only Examples.pruned
           (<[2 := Examples.step [] 1 "another text" "3" false]> Examples.pruned)).
  intros l. destruct (decide (l = 2)) as [->|Hne].
  - rewrite lookup_insert. reflexivity.
  - now rewrite lookup_insert_ne.
Defined.

(** ** NaN among the scores *)

Lemma ltb_nan_r (x : float) : PyFloat.ltb x S754_nan = false.
Proof. now destruct x as [[]|[]| |[] m e]. Qed.

Lemma ltb_nan_l (x : float) : PyFloat.ltb S754_nan x = false.
Proof. reflexivity. Qed.

(** X28: with a NaN among the scores the bounds depend on the order of
    the children and need not bound the scores: below a root with two
    leaves, one scored NaN and one scored [x] above 0,
    [get_min_max_scores] returns (0.0, 0.0) when the NaN leaf comes first,
    so that [x] lies outside the bounds, and (0.0, [x]) when it comes
    second. *)
Theorem nan_hides_later_siblings `{!PyRuntime} (h : heap) (root a b : loc)
    (r : RootObj) (sa sb : ReasoningStepObj) (x : float) (fuel : nat) :
  h !! root = Some (Root r) ->
  h !! a = Some (ReasoningStep sa) -> step_child_steps sa = [] ->
  StepM.score (ReasoningStep sa) = Return S754_nan ->
  h !! b = Some (ReasoningStep sb) -> step_child_steps sb = [] ->
  StepM.score (ReasoningStep sb) = Return x ->
  PyFloat.ltb PyFloat.zero x = true ->
  (root_child_steps r = [a; b] ->
   Visualize.get_min_max_scores (S (S fuel)) h root
   = Return (PyFloat.zero, PyFloat.zero)) /\
  (root_child_steps r = [b; a] ->
   Visualize.get_min_max_scores (S (S fuel)) h root
   = Return (PyFloat.zero, x)).
Proof.
  intros Hr Ha Hla Hsa Hb Hlb Hsb Hx.
  assert (Ea : Visualize.get_min_max_scores (S fuel) h a
               = Return (S754_nan, S754_nan)).
  { cbn [Visualize.get_min_max_scores]. rewrite Ha. cbn [child_steps].
    rewrite Hla, Hsa. reflexivity. }
  assert (Eb : Visualize.get_min_max_scores (S fuel) h b = Return (x, x)).
  { cbn [Visualize.get_min_max_scores]. rewrite Hb. cbn [child_steps].
    rewrite Hlb, Hsb. reflexivity. }
  pose proof (ltb_asym _ _ Hx) as Hx'.
  remember (S fuel) as fuel' eqn:Hfuel in *. clear Hfuel.
  split; intros Hc; cbn [Visualize.get_min_max_scores];
    rewrite Hr; cbn [child_steps]; rewrite Hc;
    cbn [ConversationM.for_each]; rewrite Ea, Eb; cbn;
    unfold PyFloat.min2, PyFloat.max2, PyFloat.gtb;
    change (SFltb ?u ?v) with (PyFloat.ltb u v);
    rewrite ?ltb_nan_r, ?ltb_nan_l, ?Hx, ?Hx'; reflexivity.
Qed.

Lemma nan_hides_later_siblings_witness :
  Visualize.get_min_max_scores 2 Examples.clouded 0
  = Return (PyFloat.zero, PyFloat.zero).
Proof.
  refine (proj1 (nan_hides_later_siblings Examples.clouded 0 1 2
                   (mkRoot [1; 2] Examples.base)
                   (Examples.step_obj [] 0 "a" "nan" false)
                   (Examples.step_obj [] 0 "b" "7" false)
                   (PyFloat.of_Z 7) 0 _ _ _ _ _ _ _ _) _);
    vm_compute; reflexivity.
Defined.
